(** * timeline-visualizer: a shallow embedding of [src/lib/timelineVisualizer.ts]

    The visualizer keeps a resolved timeline, a viewport
    ([drawTimeStart], [drawTimeEnd], zoom) and a hover index, and
    redraws a canvas from them.  This development embeds the class
    [TimelineVisualizer]: the trim/merge engine, the draw-state
    derivation, the coordinate mapping, the viewport operations, the
    per-frame tick and the pointer handlers.  The calls on the 2D
    context of the canvas touch no field of the class: [redrawTimeline]
    is the effect of a redraw on the fields, and the calls themselves,
    with the error that [drawLayerLabels] can raise among them, are
    modelled apart in [redrawTimelineCanvas].

    Numbers.  A JavaScript [number] is modelled as a rational [Q]:
    arithmetic is exact, [NaN] and the infinities produced by a
    division by zero are not represented (statements that divide
    assume a non-zero divisor).  The rounding of the program's doubles
    is not modelled; an equality that is derived by algebra holds for
    exact numbers only.  [Infinity] only occurs in the source as the
    literal of [x || Infinity]; it is modelled by [ExtNum].  [null] and
    [undefined] are [None]. *)

From Stdlib Require Import QArith Qround Lqa Lia ZArith.
From Stdlib Require Import Bool List Ascii String DecimalString.
Import ListNotations.

Local Open Scope string_scope.
Local Open Scope list_scope.
Local Open Scope Q_scope.

(** ** JavaScript values used by the class *)

Module Js.

(** [a < b], [a > b], [a >= b], [a <= b] on numbers. *)
Definition ltb (a b : Q) : bool := negb (Qle_bool b a).
Definition gtb (a b : Q) : bool := ltb b a.
Definition leb (a b : Q) : bool := Qle_bool a b.
Definition geb (a b : Q) : bool := Qle_bool b a.

(** [a === b] on numbers. *)
Definition eqb (a b : Q) : bool := Qeq_bool a b.

(** Truthiness of a number: [0] is falsy. *)
Definition truthy (q : Q) : bool := negb (Qeq_bool q 0).

(** Truthiness of [number | null | undefined]. *)
Definition truthyOpt (o : option Q) : option Q :=
  match o with
  | Some q => if truthy q then Some q else None
  | None => None
  end.

(** A number or the literal [Infinity]. *)
Inductive ExtNum : Type :=
| Finite (q : Q)
| Infinity.

(** [x || Infinity]: a falsy [x] ([null], [undefined] or [0]) gives [Infinity]. *)
Definition orInfinity (x : option Q) : ExtNum :=
  match truthyOpt x with
  | Some q => Finite q
  | None => Infinity
  end.

(** [e > b], [e <= b] and [a < e] with [e] possibly [Infinity]. *)
Definition ext_gtb (e : ExtNum) (b : Q) : bool :=
  match e with Finite q => gtb q b | Infinity => true end.
Definition ext_leb (e : ExtNum) (b : Q) : bool :=
  match e with Finite q => leb q b | Infinity => false end.
Definition lt_extb (a : Q) (e : ExtNum) : bool :=
  match e with Finite q => ltb a q | Infinity => true end.

(** [Math.max] on two numbers. *)
Definition max (a b : Q) : Q := if ltb a b then b else a.
(** [Math.min] on two numbers. *)
Definition min (a b : Q) : Q := if ltb b a then b else a.

(** [String(n)] for an integer-valued number. *)
Definition stringOfInt (z : Z) : string :=
  NilZero.string_of_int (Z.to_int z).

(** A plain object used as a map from string keys: an association
    list in [Object.keys] order, each key occurring once.  A new key
    goes to the end; the engine's rule that integer-like keys come
    first, in ascending order, is not modelled. *)
Definition Obj (A : Type) : Type := list (string * A).

Definition keys {A} (o : Obj A) : list string := map fst o.

(** [o[k]]; [None] is [undefined]. *)
Fixpoint get {A} (k : string) (o : Obj A) : option A :=
  match o with
  | [] => None
  | (k', v) :: rest => if String.eqb k k' then Some v else get k rest
  end.

(** [o[k] = v]: overwrite in place, or append a new key. *)
Fixpoint set {A} (k : string) (v : A) (o : Obj A) : Obj A :=
  match o with
  | [] => [(k, v)]
  | (k', v') :: rest =>
      if String.eqb k k' then (k', v) :: rest else (k', v') :: set k v rest
  end.

(** [arr.indexOf(s) === -1] on an array of strings. *)
Definition notIn (s : string) (arr : list string) : bool :=
  negb (existsb (String.eqb s) arr).

(** [arr.splice(-1, 1)]: removes the last element, if any. *)
Definition spliceLast {A} (arr : list A) : list A := removelast arr.

(** [s.split(sep)] for a one-character separator. *)
Fixpoint splitAux (sep : Ascii.ascii) (s : string) (cur : string) : list string :=
  match s with
  | EmptyString => [cur]
  | String c rest =>
      if Ascii.eqb c sep
      then cur :: splitAux sep rest EmptyString
      else splitAux sep rest (String.append cur (String c EmptyString))
  end.
Definition split (sep : Ascii.ascii) (s : string) : list string :=
  splitAux sep s EmptyString.

End Js.

(** ** Data model (types imported from superfly-timeline) *)

(** [content], [enable], [classes], [options], [statistics] and the
    values of [layers] are opaque to the visualizer: it copies them and
    hands them to lodash.  A blob stands for such a value by its
    canonical JSON text, so that [isEqual] on blobs is text equality. *)
Definition Blob : Type := string.

(** [TimelineObjectInstance]: [end] is [null] for an open instance. *)
Record TimelineObjectInstance : Type := mkInstance {
  inst_id : string;
  inst_start : Q;
  inst_end : option Q
}.

Definition with_start (i : TimelineObjectInstance) (s : Q) : TimelineObjectInstance :=
  mkInstance (inst_id i) s (inst_end i).
Definition with_end (i : TimelineObjectInstance) (e : option Q) : TimelineObjectInstance :=
  mkInstance (inst_id i) (inst_start i) e.

(** The [resolved] block of a resolved object. *)
Record ResolvedBlock : Type := mkResolved {
  instances : list TimelineObjectInstance;
  levelDeep : option Q;
  resolved : bool;
  resolving : bool
}.

Definition with_instances (r : ResolvedBlock) (l : list TimelineObjectInstance) : ResolvedBlock :=
  mkResolved l (levelDeep r) (resolved r) (resolving r).

(** [ResolvedTimelineObject]. *)
Record ResolvedTimelineObject : Type := mkObject {
  obj_content : Blob;
  obj_enable : Blob;
  obj_id : string;
  obj_layer : string;
  obj_resolved : ResolvedBlock
}.

Definition with_resolved (o : ResolvedTimelineObject) (r : ResolvedBlock) : ResolvedTimelineObject :=
  mkObject (obj_content o) (obj_enable o) (obj_id o) (obj_layer o) r.

Definition obj_instances (o : ResolvedTimelineObject) : list TimelineObjectInstance :=
  instances (obj_resolved o).

Definition ResolvedTimelineObjects : Type := Js.Obj ResolvedTimelineObject.

(** [ResolvedTimeline]. *)
Record ResolvedTimeline : Type := mkTimeline {
  classes : Blob;
  layers : Js.Obj Blob;
  objects : ResolvedTimelineObjects;
  options : Blob;
  statistics : Blob
}.

(** [TrimProperties]: both bounds optional. *)
Record TrimProperties : Type := mkTrim {
  trim_start : option Q;
  trim_end : option Q
}.

(** ** trimTimeline *)

(** The body of the inner [forEach] up to the final test: the flag
    [useInstance] and the clone [newInstance] after both bounds. *)
Definition trimInstance (trim : TrimProperties) (instance : TimelineObjectInstance)
  : bool * TimelineObjectInstance :=
  let useInstance := false in
  let newInstance := instance in
  let '(useInstance, newInstance) :=
    match Js.truthyOpt (trim_start trim) with
    | Some ts =>
        if Js.ext_gtb (Js.orInfinity (inst_end instance)) ts
        then (true,
              if Js.ltb (inst_start newInstance) ts
              then with_start newInstance ts else newInstance)
        else (useInstance, newInstance)
    | None => (useInstance, newInstance)
    end in
  match Js.truthyOpt (trim_end trim) with
  | Some te =>
      if Js.ltb (inst_start instance) te
      then (true,
            if Js.ext_gtb (Js.orInfinity (inst_end newInstance)) te
            then with_end newInstance (Some te) else newInstance)
      else (useInstance, newInstance)
  | None => (useInstance, newInstance)
  end.

(** The final test of the inner [forEach]. *)
Definition keepInstance (useInstance : bool) (newInstance : TimelineObjectInstance) : bool :=
  useInstance && Js.lt_extb (inst_start newInstance) (Js.orInfinity (inst_end newInstance)).

(** Insertion of a kept instance into [newObjects]. *)
Definition insertInstance (objId : string) (obj : ResolvedTimelineObject)
    (newInstance : TimelineObjectInstance) (newObjects : ResolvedTimelineObjects)
  : ResolvedTimelineObjects :=
  if Js.notIn objId (Js.keys newObjects)
  then
    let newObject :=
      {| obj_content := obj_content obj;
         obj_enable := obj_content obj;
         obj_id := obj_id obj;
         obj_layer := obj_layer obj;
         obj_resolved :=
           {| instances := [newInstance];
              levelDeep := levelDeep (obj_resolved obj);
              resolved := resolved (obj_resolved obj);
              resolving := resolving (obj_resolved obj) |} |} in
    Js.set objId newObject newObjects
  else
    match Js.get objId newObjects with
    | Some o =>
        Js.set objId
          (with_resolved o (with_instances (obj_resolved o) (obj_instances o ++ [newInstance])))
          newObjects
    | None => newObjects
    end.

(** One pass of the inner [forEach] for one instance. *)
Definition trimStep (trim : TrimProperties) (objId : string) (obj : ResolvedTimelineObject)
    (newObjects : ResolvedTimelineObjects) (instance : TimelineObjectInstance)
  : ResolvedTimelineObjects :=
  let '(useInstance, newInstance) := trimInstance trim instance in
  if keepInstance useInstance newInstance
  then insertInstance objId obj newInstance newObjects
  else newObjects.

(** One pass of the outer [forEach] for one object id. *)
Definition trimObject (timeline : ResolvedTimeline) (trim : TrimProperties)
    (newObjects : ResolvedTimelineObjects) (objId : string) : ResolvedTimelineObjects :=
  match Js.get objId (objects timeline) with
  | Some obj => fold_left (trimStep trim objId obj) (obj_instances obj) newObjects
  | None => newObjects
  end.

Definition trimTimeline (timeline : ResolvedTimeline) (trim : TrimProperties) : ResolvedTimeline :=
  let newObjects := fold_left (trimObject timeline trim) (Js.keys (objects timeline)) [] in
  {| classes := classes timeline;
     layers := layers timeline;
     objects := newObjects;
     options := options timeline;
     statistics := statistics timeline |}.

(** ** mergeTimelineObjects *)

(** [isEqual(Object.assign({}, pastObj, { resolved: null }),
             Object.assign({}, presentObj, { resolved: null }))]:
    structural equality of everything but the [resolved] block. *)
Definition sameDefinition (pastObj presentObj : ResolvedTimelineObject) : bool :=
  String.eqb (obj_content pastObj) (obj_content presentObj)
  && String.eqb (obj_enable pastObj) (obj_enable presentObj)
  && String.eqb (obj_id pastObj) (obj_id presentObj)
  && String.eqb (obj_layer pastObj) (obj_layer presentObj).

(** [pastInstance.end === presentInstance.start]; a [null] end equals no number. *)
Definition touching (pastInstance presentInstance : TimelineObjectInstance) : bool :=
  match inst_end pastInstance with
  | Some e => Js.eqb e (inst_start presentInstance)
  | None => false
  end.

(** One pass of the inner [forEach], over the present instances.  The
    accumulator holds the past array and the present instances visited
    so far.  [pastObj.resolved.instances.indexOf(presentInstance)]
    looks a present instance up in the past array by object identity.
    Instances are values here, and the model takes the two arrays to
    share no instance object, as in [updateTimeline]: the past schedule
    is rebuilt by [trimTimeline], which clones every instance, and the
    present one comes fresh from the resolver.  So the index is [-1],
    and [splice(-1, 1)] removes the last element of the past array. *)
Definition stitchPresent (pastInstance : TimelineObjectInstance)
    (acc : list TimelineObjectInstance * list TimelineObjectInstance)
    (presentInstance : TimelineObjectInstance)
  : list TimelineObjectInstance * list TimelineObjectInstance :=
  let '(pastInstances, visited) := acc in
  if touching pastInstance presentInstance
  then (Js.spliceLast pastInstances,
        visited ++ [with_start presentInstance (inst_start pastInstance)])
  else (pastInstances, visited ++ [presentInstance]).

(** The outer [forEach] over the past array, which the inner loop
    shortens while it is walked: [forEach] visits the indices below the
    initial length ([todo] of them remain, [k] is the next) and skips
    an index that is no longer in the array. *)
Fixpoint stitchPast (todo k : nat)
    (pastInstances presentInstances : list TimelineObjectInstance)
  : list TimelineObjectInstance * list TimelineObjectInstance :=
  match todo with
  | O => (pastInstances, presentInstances)
  | S todo' =>
      match nth_error pastInstances k with
      | Some pastInstance =>
          let '(pastInstances', presentInstances') :=
            fold_left (stitchPresent pastInstance) presentInstances (pastInstances, []) in
          stitchPast todo' (S k) pastInstances' presentInstances'
      | None => stitchPast todo' (S k) pastInstances presentInstances
      end
  end.

Definition set_obj_instances (o : ResolvedTimelineObject) (l : list TimelineObjectInstance)
  : ResolvedTimelineObject :=
  with_resolved o (with_instances (obj_resolved o) l).

(** One pass of the outer [forEach] over [Object.keys(past.objects)]:
    both object maps are mutated in place. *)
Definition stitchObject (acc : ResolvedTimelineObjects * ResolvedTimelineObjects)
    (objId : string) : ResolvedTimelineObjects * ResolvedTimelineObjects :=
  let '(pastObjects, presentObjects) := acc in
  match Js.get objId pastObjects, Js.get objId presentObjects with
  | Some pastObj, Some presentObj =>
      if sameDefinition pastObj presentObj
      then
        let '(pastInstances, presentInstances) :=
          stitchPast (List.length (obj_instances pastObj)) 0
                     (obj_instances pastObj) (obj_instances presentObj) in
        (Js.set objId (set_obj_instances pastObj pastInstances) pastObjects,
         Js.set objId (set_obj_instances presentObj presentInstances) presentObjects)
      else acc
  | _, _ => acc
  end.

(** *** lodash.merge

    [merge(object, source)] of the lodash library, on the shapes it
    meets here.  It assigns every defined source property to the
    destination, recursing into plain objects and arrays; an array is
    merged index by index into the destination array; a key or index
    missing from the destination receives a clone of the source value.
    The result of merging two opaque values is the parameter
    [mergeBlob]. *)
Section LodashMerge.

Variable mergeBlob : Blob -> Blob -> Blob.

Definition mergeBlobInto (dst : option Blob) (src : Blob) : Blob :=
  match dst with Some d => mergeBlob d src | None => src end.

(** Arrays: index by index; the destination keeps its surplus. *)
Fixpoint mergeArray {A} (mergeElt : option A -> A -> A) (dst src : list A) : list A :=
  match src, dst with
  | [], _ => dst
  | s :: src', [] => mergeElt None s :: mergeArray mergeElt [] src'
  | s :: src', d :: dst' => mergeElt (Some d) s :: mergeArray mergeElt dst' src'
  end.

(** Plain objects used as maps: for each key of the source, in order;
    new keys are appended. *)
Definition mergeMap {A} (mergeElt : option A -> A -> A) (dst src : Js.Obj A) : Js.Obj A :=
  fold_left (fun acc key =>
               match Js.get key src with
               | Some srcValue => Js.set key (mergeElt (Js.get key acc) srcValue) acc
               | None => acc
               end)
            (Js.keys src) dst.

(** An instance: [id], [start] and [end] are all defined in the
    source ([null] is a defined value), so each overrides. *)
Definition mergeInstance (dst : option TimelineObjectInstance) (src : TimelineObjectInstance)
  : TimelineObjectInstance :=
  src.

Definition mergeResolved (dst src : ResolvedBlock) : ResolvedBlock :=
  {| instances := mergeArray mergeInstance (instances dst) (instances src);
     levelDeep := match levelDeep src with
                  | Some v => Some v
                  | None => levelDeep dst   (* an undefined source is skipped *)
                  end;
     resolved := resolved src;
     resolving := resolving src |}.

Definition mergeObject (dst : option ResolvedTimelineObject) (src : ResolvedTimelineObject)
  : ResolvedTimelineObject :=
  match dst with
  | Some d =>
      {| obj_content := mergeBlob (obj_content d) (obj_content src);
         obj_enable := mergeBlob (obj_enable d) (obj_enable src);
         obj_id := obj_id src;
         obj_layer := obj_layer src;
         obj_resolved := mergeResolved (obj_resolved d) (obj_resolved src) |}
  | None => src
  end.

Definition lodashMerge (object source : ResolvedTimeline) : ResolvedTimeline :=
  {| classes := mergeBlob (classes object) (classes source);
     layers := mergeMap mergeBlobInto (layers object) (layers source);
     objects := mergeMap mergeObject (objects object) (objects source);
     options := mergeBlob (options object) (options source);
     statistics := mergeBlob (statistics object) (statistics source) |}.

Definition with_objects (t : ResolvedTimeline) (o : ResolvedTimelineObjects) : ResolvedTimeline :=
  mkTimeline (classes t) (layers t) o (options t) (statistics t).

Definition mergeTimelineObjects (past present : ResolvedTimeline) : ResolvedTimeline :=
  let '(pastObjects, presentObjects) :=
    fold_left stitchObject (Js.keys (objects past)) (objects past, objects present) in
  lodashMerge (with_objects past pastObjects) (with_objects present presentObjects).

End LodashMerge.

(** ** Constants of the module *)

Definition DEFAULT_STEP_SIZE : Q := 1.
Definition DEFAULT_DRAW_RANGE : Q := 500.
Definition LABEL_WIDTH_OF_TIMELINE : Q := 25 # 100.
Definition DEFAULT_ZOOM_VALUE : Q := 100.
Definition ZOOM_FACTOR : Q := 1001 # 1000.
Definition PAN_FACTOR : Q := 10.
Definition MAX_LAYER_HEIGHT : Q := 60.
Definition DEFAULT_PLAYHEAD_SPEED : Q := 1.
Definition TIMELINE_OBJECT_HEIGHT : Q := 1.

(** [MOUSEIN = 0], [MOUSEOUT = 1]. *)
Inductive HoverAction : Type := MOUSEIN | MOUSEOUT.

(** ** Interfaces of the module *)

(** [top] is [None] when the source computes [undefined * rowHeight]
    (a layer without a row), which is [NaN]. *)
Record DrawState : Type := mkDrawState {
  ds_width : Q;
  ds_height : Q;
  ds_left : Q;
  ds_top : option Q;
  ds_visible : bool
}.

Definition TimelineDrawState : Type := Js.Obj DrawState.

Record ViewPort : Type := mkViewPort {
  vp_timestamp : option Q;
  vp_zoom : option Q;
  vp_playPlayhead : option bool;
  vp_playheadTime : option Q;
  vp_playViewPort : option bool;
  vp_playSpeed : option Q
}.

(** The content of a layer map is the index of its row. *)
Definition Layers : Type := Js.Obj nat.

(** [instance] is [None] when [find] returns [undefined]. *)
Record HoveredObject : Type := mkHovered {
  ho_object : ResolvedTimelineObject;
  ho_instance : option TimelineObjectInstance;
  ho_pointer : Q * Q
}.

Record TimelineObjectMetaData : Type := mkMeta {
  meta_type : string;
  meta_name : string;
  meta_instance : string
}.

Record HoverMapData : Type := mkHoverMapData {
  startX : Q;
  endX : Q;
  hm_name : string
}.

Definition TimelineHoverMap : Type := Js.Obj (list HoverMapData).

(** ** The private state of [TimelineVisualizer]

    The record holds the fields that the embedded methods read or
    write, under their source names without the leading underscore.
    It describes an instance from its first [updateTimeline] on: by
    then every numeric field below has been assigned. *)
Record State : Type := mkState {
  stepSize : Q;
  defaultDrawRange : Q;
  canvasWidth : Q;
  canvasHeight : Q;
  layerLabelWidth : Q;
  timelineWidth : Q;
  timelineStart : Q;
  resolvedTimeline : ResolvedTimeline;
  layerLabels : Layers;
  timelineState : TimelineDrawState;
  hoveredObjectMap : TimelineHoverMap;
  rowHeight : Q;
  rowsTotalHeight : Q;
  numberOfLayers : nat;
  timelineObjectHeight : Q;
  drawTimeStart : Q;
  drawTimeEnd : Q;
  drawTimeRange : Q;
  scaledDrawTimeRange : Q;
  pixelsWidthPerUnitTime : Q;
  mouseDown : bool;
  mouseLastX : Q;
  lastScrollDirection : option Q;
  timelineZoom : Q;
  playHeadPlaying : bool;
  playViewPort : bool;
  drawPlayhead : bool;
  playSpeed : Q;
  playHeadTime : Q;
  playHeadPosition : Q;
  updateDrawLastTime : Q;
  hoveredOver : option HoveredObject;
  lastHoverAction : HoverAction;
  lastHoveredName : string
}.

(** Assignment to one private field ([this._f = v]). *)
Definition set_resolvedTimeline (v : ResolvedTimeline) (s : State) : State :=
  mkState (stepSize s) (defaultDrawRange s) (canvasWidth s) (canvasHeight s)
    (layerLabelWidth s) (timelineWidth s) (timelineStart s) v (layerLabels s) (timelineState
    s) (hoveredObjectMap s) (rowHeight s) (rowsTotalHeight s) (numberOfLayers s)
    (timelineObjectHeight s) (drawTimeStart s) (drawTimeEnd s) (drawTimeRange s)
    (scaledDrawTimeRange s) (pixelsWidthPerUnitTime s) (mouseDown s) (mouseLastX s)
    (lastScrollDirection s) (timelineZoom s) (playHeadPlaying s) (playViewPort s)
    (drawPlayhead s) (playSpeed s) (playHeadTime s) (playHeadPosition s) (updateDrawLastTime
    s) (hoveredOver s) (lastHoverAction s) (lastHoveredName s).
Definition set_layerLabels (v : Layers) (s : State) : State :=
  mkState (stepSize s) (defaultDrawRange s) (canvasWidth s) (canvasHeight s)
    (layerLabelWidth s) (timelineWidth s) (timelineStart s) (resolvedTimeline s) v
    (timelineState s) (hoveredObjectMap s) (rowHeight s) (rowsTotalHeight s) (numberOfLayers
    s) (timelineObjectHeight s) (drawTimeStart s) (drawTimeEnd s) (drawTimeRange s)
    (scaledDrawTimeRange s) (pixelsWidthPerUnitTime s) (mouseDown s) (mouseLastX s)
    (lastScrollDirection s) (timelineZoom s) (playHeadPlaying s) (playViewPort s)
    (drawPlayhead s) (playSpeed s) (playHeadTime s) (playHeadPosition s) (updateDrawLastTime
    s) (hoveredOver s) (lastHoverAction s) (lastHoveredName s).
Definition set_timelineState (v : TimelineDrawState) (s : State) : State :=
  mkState (stepSize s) (defaultDrawRange s) (canvasWidth s) (canvasHeight s)
    (layerLabelWidth s) (timelineWidth s) (timelineStart s) (resolvedTimeline s)
    (layerLabels s) v (hoveredObjectMap s) (rowHeight s) (rowsTotalHeight s) (numberOfLayers
    s) (timelineObjectHeight s) (drawTimeStart s) (drawTimeEnd s) (drawTimeRange s)
    (scaledDrawTimeRange s) (pixelsWidthPerUnitTime s) (mouseDown s) (mouseLastX s)
    (lastScrollDirection s) (timelineZoom s) (playHeadPlaying s) (playViewPort s)
    (drawPlayhead s) (playSpeed s) (playHeadTime s) (playHeadPosition s) (updateDrawLastTime
    s) (hoveredOver s) (lastHoverAction s) (lastHoveredName s).
Definition set_hoveredObjectMap (v : TimelineHoverMap) (s : State) : State :=
  mkState (stepSize s) (defaultDrawRange s) (canvasWidth s) (canvasHeight s)
    (layerLabelWidth s) (timelineWidth s) (timelineStart s) (resolvedTimeline s)
    (layerLabels s) (timelineState s) v (rowHeight s) (rowsTotalHeight s) (numberOfLayers s)
    (timelineObjectHeight s) (drawTimeStart s) (drawTimeEnd s) (drawTimeRange s)
    (scaledDrawTimeRange s) (pixelsWidthPerUnitTime s) (mouseDown s) (mouseLastX s)
    (lastScrollDirection s) (timelineZoom s) (playHeadPlaying s) (playViewPort s)
    (drawPlayhead s) (playSpeed s) (playHeadTime s) (playHeadPosition s) (updateDrawLastTime
    s) (hoveredOver s) (lastHoverAction s) (lastHoveredName s).
Definition set_rowHeight (v : Q) (s : State) : State :=
  mkState (stepSize s) (defaultDrawRange s) (canvasWidth s) (canvasHeight s)
    (layerLabelWidth s) (timelineWidth s) (timelineStart s) (resolvedTimeline s)
    (layerLabels s) (timelineState s) (hoveredObjectMap s) v (rowsTotalHeight s)
    (numberOfLayers s) (timelineObjectHeight s) (drawTimeStart s) (drawTimeEnd s)
    (drawTimeRange s) (scaledDrawTimeRange s) (pixelsWidthPerUnitTime s) (mouseDown s)
    (mouseLastX s) (lastScrollDirection s) (timelineZoom s) (playHeadPlaying s)
    (playViewPort s) (drawPlayhead s) (playSpeed s) (playHeadTime s) (playHeadPosition s)
    (updateDrawLastTime s) (hoveredOver s) (lastHoverAction s) (lastHoveredName s).
Definition set_rowsTotalHeight (v : Q) (s : State) : State :=
  mkState (stepSize s) (defaultDrawRange s) (canvasWidth s) (canvasHeight s)
    (layerLabelWidth s) (timelineWidth s) (timelineStart s) (resolvedTimeline s)
    (layerLabels s) (timelineState s) (hoveredObjectMap s) (rowHeight s) v (numberOfLayers
    s) (timelineObjectHeight s) (drawTimeStart s) (drawTimeEnd s) (drawTimeRange s)
    (scaledDrawTimeRange s) (pixelsWidthPerUnitTime s) (mouseDown s) (mouseLastX s)
    (lastScrollDirection s) (timelineZoom s) (playHeadPlaying s) (playViewPort s)
    (drawPlayhead s) (playSpeed s) (playHeadTime s) (playHeadPosition s) (updateDrawLastTime
    s) (hoveredOver s) (lastHoverAction s) (lastHoveredName s).
Definition set_numberOfLayers (v : nat) (s : State) : State :=
  mkState (stepSize s) (defaultDrawRange s) (canvasWidth s) (canvasHeight s)
    (layerLabelWidth s) (timelineWidth s) (timelineStart s) (resolvedTimeline s)
    (layerLabels s) (timelineState s) (hoveredObjectMap s) (rowHeight s) (rowsTotalHeight s)
    v (timelineObjectHeight s) (drawTimeStart s) (drawTimeEnd s) (drawTimeRange s)
    (scaledDrawTimeRange s) (pixelsWidthPerUnitTime s) (mouseDown s) (mouseLastX s)
    (lastScrollDirection s) (timelineZoom s) (playHeadPlaying s) (playViewPort s)
    (drawPlayhead s) (playSpeed s) (playHeadTime s) (playHeadPosition s) (updateDrawLastTime
    s) (hoveredOver s) (lastHoverAction s) (lastHoveredName s).
Definition set_timelineObjectHeight (v : Q) (s : State) : State :=
  mkState (stepSize s) (defaultDrawRange s) (canvasWidth s) (canvasHeight s)
    (layerLabelWidth s) (timelineWidth s) (timelineStart s) (resolvedTimeline s)
    (layerLabels s) (timelineState s) (hoveredObjectMap s) (rowHeight s) (rowsTotalHeight s)
    (numberOfLayers s) v (drawTimeStart s) (drawTimeEnd s) (drawTimeRange s)
    (scaledDrawTimeRange s) (pixelsWidthPerUnitTime s) (mouseDown s) (mouseLastX s)
    (lastScrollDirection s) (timelineZoom s) (playHeadPlaying s) (playViewPort s)
    (drawPlayhead s) (playSpeed s) (playHeadTime s) (playHeadPosition s) (updateDrawLastTime
    s) (hoveredOver s) (lastHoverAction s) (lastHoveredName s).
Definition set_drawTimeStart (v : Q) (s : State) : State :=
  mkState (stepSize s) (defaultDrawRange s) (canvasWidth s) (canvasHeight s)
    (layerLabelWidth s) (timelineWidth s) (timelineStart s) (resolvedTimeline s)
    (layerLabels s) (timelineState s) (hoveredObjectMap s) (rowHeight s) (rowsTotalHeight s)
    (numberOfLayers s) (timelineObjectHeight s) v (drawTimeEnd s) (drawTimeRange s)
    (scaledDrawTimeRange s) (pixelsWidthPerUnitTime s) (mouseDown s) (mouseLastX s)
    (lastScrollDirection s) (timelineZoom s) (playHeadPlaying s) (playViewPort s)
    (drawPlayhead s) (playSpeed s) (playHeadTime s) (playHeadPosition s) (updateDrawLastTime
    s) (hoveredOver s) (lastHoverAction s) (lastHoveredName s).
Definition set_drawTimeEnd (v : Q) (s : State) : State :=
  mkState (stepSize s) (defaultDrawRange s) (canvasWidth s) (canvasHeight s)
    (layerLabelWidth s) (timelineWidth s) (timelineStart s) (resolvedTimeline s)
    (layerLabels s) (timelineState s) (hoveredObjectMap s) (rowHeight s) (rowsTotalHeight s)
    (numberOfLayers s) (timelineObjectHeight s) (drawTimeStart s) v (drawTimeRange s)
    (scaledDrawTimeRange s) (pixelsWidthPerUnitTime s) (mouseDown s) (mouseLastX s)
    (lastScrollDirection s) (timelineZoom s) (playHeadPlaying s) (playViewPort s)
    (drawPlayhead s) (playSpeed s) (playHeadTime s) (playHeadPosition s) (updateDrawLastTime
    s) (hoveredOver s) (lastHoverAction s) (lastHoveredName s).
Definition set_drawTimeRange (v : Q) (s : State) : State :=
  mkState (stepSize s) (defaultDrawRange s) (canvasWidth s) (canvasHeight s)
    (layerLabelWidth s) (timelineWidth s) (timelineStart s) (resolvedTimeline s)
    (layerLabels s) (timelineState s) (hoveredObjectMap s) (rowHeight s) (rowsTotalHeight s)
    (numberOfLayers s) (timelineObjectHeight s) (drawTimeStart s) (drawTimeEnd s) v
    (scaledDrawTimeRange s) (pixelsWidthPerUnitTime s) (mouseDown s) (mouseLastX s)
    (lastScrollDirection s) (timelineZoom s) (playHeadPlaying s) (playViewPort s)
    (drawPlayhead s) (playSpeed s) (playHeadTime s) (playHeadPosition s) (updateDrawLastTime
    s) (hoveredOver s) (lastHoverAction s) (lastHoveredName s).
Definition set_scaledDrawTimeRange (v : Q) (s : State) : State :=
  mkState (stepSize s) (defaultDrawRange s) (canvasWidth s) (canvasHeight s)
    (layerLabelWidth s) (timelineWidth s) (timelineStart s) (resolvedTimeline s)
    (layerLabels s) (timelineState s) (hoveredObjectMap s) (rowHeight s) (rowsTotalHeight s)
    (numberOfLayers s) (timelineObjectHeight s) (drawTimeStart s) (drawTimeEnd s)
    (drawTimeRange s) v (pixelsWidthPerUnitTime s) (mouseDown s) (mouseLastX s)
    (lastScrollDirection s) (timelineZoom s) (playHeadPlaying s) (playViewPort s)
    (drawPlayhead s) (playSpeed s) (playHeadTime s) (playHeadPosition s) (updateDrawLastTime
    s) (hoveredOver s) (lastHoverAction s) (lastHoveredName s).
Definition set_pixelsWidthPerUnitTime (v : Q) (s : State) : State :=
  mkState (stepSize s) (defaultDrawRange s) (canvasWidth s) (canvasHeight s)
    (layerLabelWidth s) (timelineWidth s) (timelineStart s) (resolvedTimeline s)
    (layerLabels s) (timelineState s) (hoveredObjectMap s) (rowHeight s) (rowsTotalHeight s)
    (numberOfLayers s) (timelineObjectHeight s) (drawTimeStart s) (drawTimeEnd s)
    (drawTimeRange s) (scaledDrawTimeRange s) v (mouseDown s) (mouseLastX s)
    (lastScrollDirection s) (timelineZoom s) (playHeadPlaying s) (playViewPort s)
    (drawPlayhead s) (playSpeed s) (playHeadTime s) (playHeadPosition s) (updateDrawLastTime
    s) (hoveredOver s) (lastHoverAction s) (lastHoveredName s).
Definition set_mouseDown (v : bool) (s : State) : State :=
  mkState (stepSize s) (defaultDrawRange s) (canvasWidth s) (canvasHeight s)
    (layerLabelWidth s) (timelineWidth s) (timelineStart s) (resolvedTimeline s)
    (layerLabels s) (timelineState s) (hoveredObjectMap s) (rowHeight s) (rowsTotalHeight s)
    (numberOfLayers s) (timelineObjectHeight s) (drawTimeStart s) (drawTimeEnd s)
    (drawTimeRange s) (scaledDrawTimeRange s) (pixelsWidthPerUnitTime s) v (mouseLastX s)
    (lastScrollDirection s) (timelineZoom s) (playHeadPlaying s) (playViewPort s)
    (drawPlayhead s) (playSpeed s) (playHeadTime s) (playHeadPosition s) (updateDrawLastTime
    s) (hoveredOver s) (lastHoverAction s) (lastHoveredName s).
Definition set_mouseLastX (v : Q) (s : State) : State :=
  mkState (stepSize s) (defaultDrawRange s) (canvasWidth s) (canvasHeight s)
    (layerLabelWidth s) (timelineWidth s) (timelineStart s) (resolvedTimeline s)
    (layerLabels s) (timelineState s) (hoveredObjectMap s) (rowHeight s) (rowsTotalHeight s)
    (numberOfLayers s) (timelineObjectHeight s) (drawTimeStart s) (drawTimeEnd s)
    (drawTimeRange s) (scaledDrawTimeRange s) (pixelsWidthPerUnitTime s) (mouseDown s) v
    (lastScrollDirection s) (timelineZoom s) (playHeadPlaying s) (playViewPort s)
    (drawPlayhead s) (playSpeed s) (playHeadTime s) (playHeadPosition s) (updateDrawLastTime
    s) (hoveredOver s) (lastHoverAction s) (lastHoveredName s).
Definition set_lastScrollDirection (v : option Q) (s : State) : State :=
  mkState (stepSize s) (defaultDrawRange s) (canvasWidth s) (canvasHeight s)
    (layerLabelWidth s) (timelineWidth s) (timelineStart s) (resolvedTimeline s)
    (layerLabels s) (timelineState s) (hoveredObjectMap s) (rowHeight s) (rowsTotalHeight s)
    (numberOfLayers s) (timelineObjectHeight s) (drawTimeStart s) (drawTimeEnd s)
    (drawTimeRange s) (scaledDrawTimeRange s) (pixelsWidthPerUnitTime s) (mouseDown s)
    (mouseLastX s) v (timelineZoom s) (playHeadPlaying s) (playViewPort s) (drawPlayhead s)
    (playSpeed s) (playHeadTime s) (playHeadPosition s) (updateDrawLastTime s) (hoveredOver
    s) (lastHoverAction s) (lastHoveredName s).
Definition set_timelineZoom (v : Q) (s : State) : State :=
  mkState (stepSize s) (defaultDrawRange s) (canvasWidth s) (canvasHeight s)
    (layerLabelWidth s) (timelineWidth s) (timelineStart s) (resolvedTimeline s)
    (layerLabels s) (timelineState s) (hoveredObjectMap s) (rowHeight s) (rowsTotalHeight s)
    (numberOfLayers s) (timelineObjectHeight s) (drawTimeStart s) (drawTimeEnd s)
    (drawTimeRange s) (scaledDrawTimeRange s) (pixelsWidthPerUnitTime s) (mouseDown s)
    (mouseLastX s) (lastScrollDirection s) v (playHeadPlaying s) (playViewPort s)
    (drawPlayhead s) (playSpeed s) (playHeadTime s) (playHeadPosition s) (updateDrawLastTime
    s) (hoveredOver s) (lastHoverAction s) (lastHoveredName s).
Definition set_playHeadPlaying (v : bool) (s : State) : State :=
  mkState (stepSize s) (defaultDrawRange s) (canvasWidth s) (canvasHeight s)
    (layerLabelWidth s) (timelineWidth s) (timelineStart s) (resolvedTimeline s)
    (layerLabels s) (timelineState s) (hoveredObjectMap s) (rowHeight s) (rowsTotalHeight s)
    (numberOfLayers s) (timelineObjectHeight s) (drawTimeStart s) (drawTimeEnd s)
    (drawTimeRange s) (scaledDrawTimeRange s) (pixelsWidthPerUnitTime s) (mouseDown s)
    (mouseLastX s) (lastScrollDirection s) (timelineZoom s) v (playViewPort s) (drawPlayhead
    s) (playSpeed s) (playHeadTime s) (playHeadPosition s) (updateDrawLastTime s)
    (hoveredOver s) (lastHoverAction s) (lastHoveredName s).
Definition set_playViewPort (v : bool) (s : State) : State :=
  mkState (stepSize s) (defaultDrawRange s) (canvasWidth s) (canvasHeight s)
    (layerLabelWidth s) (timelineWidth s) (timelineStart s) (resolvedTimeline s)
    (layerLabels s) (timelineState s) (hoveredObjectMap s) (rowHeight s) (rowsTotalHeight s)
    (numberOfLayers s) (timelineObjectHeight s) (drawTimeStart s) (drawTimeEnd s)
    (drawTimeRange s) (scaledDrawTimeRange s) (pixelsWidthPerUnitTime s) (mouseDown s)
    (mouseLastX s) (lastScrollDirection s) (timelineZoom s) (playHeadPlaying s) v
    (drawPlayhead s) (playSpeed s) (playHeadTime s) (playHeadPosition s) (updateDrawLastTime
    s) (hoveredOver s) (lastHoverAction s) (lastHoveredName s).
Definition set_playSpeed (v : Q) (s : State) : State :=
  mkState (stepSize s) (defaultDrawRange s) (canvasWidth s) (canvasHeight s)
    (layerLabelWidth s) (timelineWidth s) (timelineStart s) (resolvedTimeline s)
    (layerLabels s) (timelineState s) (hoveredObjectMap s) (rowHeight s) (rowsTotalHeight s)
    (numberOfLayers s) (timelineObjectHeight s) (drawTimeStart s) (drawTimeEnd s)
    (drawTimeRange s) (scaledDrawTimeRange s) (pixelsWidthPerUnitTime s) (mouseDown s)
    (mouseLastX s) (lastScrollDirection s) (timelineZoom s) (playHeadPlaying s)
    (playViewPort s) (drawPlayhead s) v (playHeadTime s) (playHeadPosition s)
    (updateDrawLastTime s) (hoveredOver s) (lastHoverAction s) (lastHoveredName s).
Definition set_playHeadTime (v : Q) (s : State) : State :=
  mkState (stepSize s) (defaultDrawRange s) (canvasWidth s) (canvasHeight s)
    (layerLabelWidth s) (timelineWidth s) (timelineStart s) (resolvedTimeline s)
    (layerLabels s) (timelineState s) (hoveredObjectMap s) (rowHeight s) (rowsTotalHeight s)
    (numberOfLayers s) (timelineObjectHeight s) (drawTimeStart s) (drawTimeEnd s)
    (drawTimeRange s) (scaledDrawTimeRange s) (pixelsWidthPerUnitTime s) (mouseDown s)
    (mouseLastX s) (lastScrollDirection s) (timelineZoom s) (playHeadPlaying s)
    (playViewPort s) (drawPlayhead s) (playSpeed s) v (playHeadPosition s)
    (updateDrawLastTime s) (hoveredOver s) (lastHoverAction s) (lastHoveredName s).
Definition set_playHeadPosition (v : Q) (s : State) : State :=
  mkState (stepSize s) (defaultDrawRange s) (canvasWidth s) (canvasHeight s)
    (layerLabelWidth s) (timelineWidth s) (timelineStart s) (resolvedTimeline s)
    (layerLabels s) (timelineState s) (hoveredObjectMap s) (rowHeight s) (rowsTotalHeight s)
    (numberOfLayers s) (timelineObjectHeight s) (drawTimeStart s) (drawTimeEnd s)
    (drawTimeRange s) (scaledDrawTimeRange s) (pixelsWidthPerUnitTime s) (mouseDown s)
    (mouseLastX s) (lastScrollDirection s) (timelineZoom s) (playHeadPlaying s)
    (playViewPort s) (drawPlayhead s) (playSpeed s) (playHeadTime s) v (updateDrawLastTime
    s) (hoveredOver s) (lastHoverAction s) (lastHoveredName s).
Definition set_updateDrawLastTime (v : Q) (s : State) : State :=
  mkState (stepSize s) (defaultDrawRange s) (canvasWidth s) (canvasHeight s)
    (layerLabelWidth s) (timelineWidth s) (timelineStart s) (resolvedTimeline s)
    (layerLabels s) (timelineState s) (hoveredObjectMap s) (rowHeight s) (rowsTotalHeight s)
    (numberOfLayers s) (timelineObjectHeight s) (drawTimeStart s) (drawTimeEnd s)
    (drawTimeRange s) (scaledDrawTimeRange s) (pixelsWidthPerUnitTime s) (mouseDown s)
    (mouseLastX s) (lastScrollDirection s) (timelineZoom s) (playHeadPlaying s)
    (playViewPort s) (drawPlayhead s) (playSpeed s) (playHeadTime s) (playHeadPosition s) v
    (hoveredOver s) (lastHoverAction s) (lastHoveredName s).
Definition set_hoveredOver (v : option HoveredObject) (s : State) : State :=
  mkState (stepSize s) (defaultDrawRange s) (canvasWidth s) (canvasHeight s)
    (layerLabelWidth s) (timelineWidth s) (timelineStart s) (resolvedTimeline s)
    (layerLabels s) (timelineState s) (hoveredObjectMap s) (rowHeight s) (rowsTotalHeight s)
    (numberOfLayers s) (timelineObjectHeight s) (drawTimeStart s) (drawTimeEnd s)
    (drawTimeRange s) (scaledDrawTimeRange s) (pixelsWidthPerUnitTime s) (mouseDown s)
    (mouseLastX s) (lastScrollDirection s) (timelineZoom s) (playHeadPlaying s)
    (playViewPort s) (drawPlayhead s) (playSpeed s) (playHeadTime s) (playHeadPosition s)
    (updateDrawLastTime s) v (lastHoverAction s) (lastHoveredName s).
Definition set_lastHoverAction (v : HoverAction) (s : State) : State :=
  mkState (stepSize s) (defaultDrawRange s) (canvasWidth s) (canvasHeight s)
    (layerLabelWidth s) (timelineWidth s) (timelineStart s) (resolvedTimeline s)
    (layerLabels s) (timelineState s) (hoveredObjectMap s) (rowHeight s) (rowsTotalHeight s)
    (numberOfLayers s) (timelineObjectHeight s) (drawTimeStart s) (drawTimeEnd s)
    (drawTimeRange s) (scaledDrawTimeRange s) (pixelsWidthPerUnitTime s) (mouseDown s)
    (mouseLastX s) (lastScrollDirection s) (timelineZoom s) (playHeadPlaying s)
    (playViewPort s) (drawPlayhead s) (playSpeed s) (playHeadTime s) (playHeadPosition s)
    (updateDrawLastTime s) (hoveredOver s) v (lastHoveredName s).
Definition set_lastHoveredName (v : string) (s : State) : State :=
  mkState (stepSize s) (defaultDrawRange s) (canvasWidth s) (canvasHeight s)
    (layerLabelWidth s) (timelineWidth s) (timelineStart s) (resolvedTimeline s)
    (layerLabels s) (timelineState s) (hoveredObjectMap s) (rowHeight s) (rowsTotalHeight s)
    (numberOfLayers s) (timelineObjectHeight s) (drawTimeStart s) (drawTimeEnd s)
    (drawTimeRange s) (scaledDrawTimeRange s) (pixelsWidthPerUnitTime s) (mouseDown s)
    (mouseLastX s) (lastScrollDirection s) (timelineZoom s) (playHeadPlaying s)
    (playViewPort s) (drawPlayhead s) (playSpeed s) (playHeadTime s) (playHeadPosition s)
    (updateDrawLastTime s) (hoveredOver s) (lastHoverAction s) v.

(** ** Methods with effects

    A method may assign private fields, emit ['timeline:hover'] events
    and throw.  A thrown error keeps the assignments and the events
    made before it. *)

(** The [detail] of an emitted ['timeline:hover'] event. *)
Definition Emitted : Type := option HoveredObject.

Inductive Outcome (A : Type) : Type :=
| Returned (a : A)
| Thrown (message : string).
Arguments Returned {A} a.
Arguments Thrown {A} message.

Definition M (A : Type) : Type := State -> Outcome A * State * list Emitted.

Definition ret {A} (a : A) : M A := fun s => (Returned a, s, []).

Definition bind {A B} (m : M A) (k : A -> M B) : M B :=
  fun s =>
    match m s with
    | (Returned a, s1, out1) =>
        match k a s1 with
        | (r, s2, out2) => (r, s2, out1 ++ out2)
        end
    | (Thrown msg, s1, out1) => (Thrown msg, s1, out1)
    end.

Definition throw {A} (message : string) : M A := fun s => (Thrown message, s, []).
Definition read : M State := fun s => (Returned s, s, []).
Definition assign (f : State -> State) : M unit := fun s => (Returned tt, f s, []).
Definition emit (detail : Emitted) : M unit := fun s => (Returned tt, s, [detail]).

Declare Scope js_scope.
Delimit Scope js_scope with js.
Notation "x <- c1 ;; c2" := (bind c1 (fun x => c2))
  (at level 61, c1 at next level, right associativity) : js_scope.
Notation "c1 ;; c2" := (bind c1 (fun _ => c2))
  (at level 61, right associativity) : js_scope.
Local Open Scope js_scope.

(** [arr.forEach(f)] with a flag threaded through the callback. *)
Fixpoint forEachM {A B} (f : B -> A -> M B) (arr : list A) (b : B) : M B :=
  match arr with
  | [] => ret b
  | a :: rest => b' <- f b a ;; forEachM f rest b'
  end.

Definition stateOf {A} (r : Outcome A * State * list Emitted) : State := snd (fst r).
Definition outcomeOf {A} (r : Outcome A * State * list Emitted) : Outcome A := fst (fst r).
Definition emittedBy {A} (r : Outcome A * State * list Emitted) : list Emitted := snd r.

Definition threw {A} (o : Outcome A) : bool :=
  match o with Thrown _ => true | Returned _ => false end.

(** ** Coordinate mapping *)

Definition timeToXCoord (s : State) (time : Q) : Q :=
  if Js.ltb time (drawTimeStart s) then -1
  else if Js.gtb time (drawTimeEnd s) then timelineWidth s + timelineStart s
  else ((time - drawTimeStart s) / (drawTimeEnd s - drawTimeStart s) * timelineWidth s)
       + timelineStart s.

Definition getCursorPositionAcrossTimeline (s : State) (cursorX : Q) : Q :=
  if Js.leb cursorX (timelineStart s) || Js.geb cursorX (timelineStart s + timelineWidth s)
  then -1
  else
    let diffX := cursorX - timelineStart s in
    let ratio := diffX / timelineWidth s in
    ratio.

Definition cursorPosToTime (s : State) (cursorX : Q) : Q :=
  if Js.leb cursorX (timelineStart s) || Js.geb cursorX (timelineStart s + timelineWidth s)
  then -1
  else
    let ratio := getCursorPositionAcrossTimeline s cursorX in
    drawTimeStart s + (scaledDrawTimeRange s * ratio).

(** ** Viewport *)

Definition updateScaledDrawTimeRange (s : State) : State :=
  let s := set_scaledDrawTimeRange (drawTimeRange s * (timelineZoom s / 100)) s in
  set_pixelsWidthPerUnitTime (timelineWidth s / (drawTimeEnd s - drawTimeStart s)) s.

(** Returns [true] when the playhead has moved. *)
Definition computePlayheadPosition (s : State) : bool * State :=
  let pos := timeToXCoord s (playHeadTime s) in
  let pos := if Js.ltb pos (timelineStart s) then timelineStart s else pos in
  if negb (Js.eqb pos (playHeadPosition s))
  then (true, set_playHeadPosition pos s)
  else (false, s).

(** The canvas calls of [redrawTimeline] leave the state alone; what
    remains is the new playhead position. *)
Definition redrawTimeline (s : State) : State := snd (computePlayheadPosition s).

Definition whenSome {A} (o : option A) (f : A -> M bool) : M bool :=
  match o with Some a => f a | None => ret false end.

Definition setViewPort (viewPort : ViewPort) : M unit :=
  (* let changed = false *)
  changedZoom <- whenSome (vp_zoom viewPort) (fun zoom =>
    assign (set_timelineZoom zoom) ;;
    assign updateScaledDrawTimeRange ;;
    assign (fun s => set_drawTimeEnd (timelineStart s + scaledDrawTimeRange s) s) ;;
    ret true) ;;
  changedTimestamp <- whenSome (vp_timestamp viewPort) (fun timestamp =>
    if Js.gtb timestamp 0
    then
      assign (set_drawTimeStart timestamp) ;;
      assign (fun s => set_drawTimeEnd (drawTimeStart s + scaledDrawTimeRange s) s) ;;
      ret true
    else ret false) ;;
  _ <- whenSome (vp_playViewPort viewPort) (fun playViewPort =>
    assign (set_playViewPort playViewPort) ;; ret false) ;;
  _ <- whenSome (vp_playSpeed viewPort) (fun playSpeed =>
    s <- read ;;
    if negb (drawPlayhead s)
    then throw "setViewPort: viewPort.playSpeed was set, but drawPlayhead was not set in constructor"
    else assign (set_playSpeed playSpeed) ;; ret false) ;;
  _ <- whenSome (vp_playPlayhead viewPort) (fun playPlayhead =>
    s <- read ;;
    if negb (drawPlayhead s)
    then throw "setViewPort: viewPort.playPlayhead was set, but drawPlayhead was not set in constructor"
    else assign (set_playHeadPlaying playPlayhead) ;; ret false) ;;
  changedPlayhead <- whenSome (vp_playheadTime viewPort) (fun playheadTime =>
    s <- read ;;
    if negb (drawPlayhead s)
    then throw "setViewPort: viewPort.playheadTime was set, but drawPlayhead was not set in constructor"
    else assign (set_playHeadTime (Js.max 0 playheadTime)) ;; ret true) ;;
  let changed := changedZoom || changedTimestamp || changedPlayhead in
  if changed
  then
    assign (fun s => snd (computePlayheadPosition s)) ;;
    assign redrawTimeline
  else ret tt.

Definition canvasScrollByDeltaX (deltaX : Q) (s : State) : State :=
  let targetStart := drawTimeStart s + (deltaX / pixelsWidthPerUnitTime s) in
  let targetStart := if Js.ltb targetStart 0 then 0 else targetStart in
  if Js.eqb targetStart (drawTimeStart s)
  then s
  else
    let targetEnd := targetStart + scaledDrawTimeRange s in
    set_drawTimeEnd targetEnd (set_drawTimeStart targetStart s).

Definition zoomUnderCursor (cursorX : Q) (s : State) : State :=
  let coordToTime := cursorPosToTime s cursorX in
  let ratio := getCursorPositionAcrossTimeline s cursorX in
  let s := updateScaledDrawTimeRange s in
  let targetStart := coordToTime - (ratio * scaledDrawTimeRange s) in
  let targetEnd := targetStart + scaledDrawTimeRange s in
  let '(targetStart, targetEnd) :=
    if Js.ltb targetStart 0
    then
      let diff := - targetStart in
      (0, targetEnd + diff)
    else (targetStart, targetEnd) in
  set_drawTimeEnd targetEnd (set_drawTimeStart targetStart s).

(** ** The per-frame tick

    [now] is the value of [Date.now()].  The tick re-arms itself with
    [requestAnimationFrame]; the host calls it again with a later
    [now]. *)
Definition updateDraw (now : Q) (s : State) : State :=
  let dt := (if Js.gtb (updateDrawLastTime s) 0 then now - updateDrawLastTime s else 1) / 1000 in
  let s := set_updateDrawLastTime now s in
  let updatePlayhead := false in
  let updateEverything := false in
  let '(s, updatePlayhead) :=
    if playHeadPlaying s && drawPlayhead s
    then (set_playHeadTime (playHeadTime s + playSpeed s * dt) s, true)
    else (s, updatePlayhead) in
  let '(s, updateEverything) :=
    if playViewPort s
    then
      let play := true in
      let play :=
        if playHeadPlaying s && drawPlayhead s
        then
          if Js.gtb (playHeadTime s) (drawTimeEnd s) || Js.ltb (playHeadTime s) (drawTimeStart s)
          then false else play
        else play in
      if play
      then
        let s := set_drawTimeStart (drawTimeStart s + playSpeed s * dt) s in
        let s := set_drawTimeEnd (drawTimeEnd s + playSpeed s * dt) s in
        (s, true)
      else (s, updateEverything)
    else (s, updateEverything) in
  if updateEverything
  then redrawTimeline s
  else if updatePlayhead
  then
    let '(moved, s) := computePlayheadPosition s in
    if moved then redrawTimeline s else s
  else s.

(** ** Draw-state derivation *)

Definition showOnTimeline (s : State) (start : Q) (end_ : option Q) : bool :=
  let isAfter := Js.geb start (drawTimeEnd s) in
  let isBefore := Js.ext_leb (Js.orInfinity end_) (drawTimeStart s) in
  negb isAfter && negb isBefore.

Definition getObjectWidth (s : State) (startTime : Q) (endTime : option Q) : Q :=
  match Js.truthyOpt endTime with
  | None => canvasWidth s
  | Some endTime =>
      let startTime := if Js.ltb startTime (drawTimeStart s) then drawTimeStart s else startTime in
      let duration := endTime - startTime in
      duration * pixelsWidthPerUnitTime s
  end.

Definition getObjectOffsetFromTimelineStart (s : State) (start : Q) : Q :=
  let offset := (start - drawTimeStart s) * pixelsWidthPerUnitTime s in
  if Js.ltb offset 0 then 0 else offset.

Definition getObjectOffsetFromTop (s : State) (layerName : string) : option Q :=
  match Js.get layerName (layerLabels s) with
  | Some top => Some (inject_Z (Z.of_nat top) * rowHeight s)
  | None => None
  end.

Definition createStateForObject (s : State) (layer : string) (start : Q) (end_ : option Q)
  : DrawState :=
  let state := {| ds_height := 0; ds_left := 0; ds_top := Some 0; ds_width := 0;
                  ds_visible := false |} in
  if showOnTimeline s start end_
  then
    let objectWidth := getObjectWidth s start end_ in
    let offset := getObjectOffsetFromTimelineStart s start in
    let objectTop := getObjectOffsetFromTop s layer in
    {| ds_height := timelineObjectHeight s;
       ds_left := timelineStart s + offset;
       ds_top := objectTop;
       ds_width := objectWidth;
       ds_visible := true |}
  else state.

(** ['timelineObject:' + parentID + ':' + instanceObj.id] *)
Definition drawStateName (parentID instanceId : string) : string :=
  String.append "timelineObject:" (String.append parentID (String.append ":" instanceId)).

(** [this._hoveredObjectMap[layer].push(entry)]; a missing bucket is a [TypeError]. *)
Definition pushHover (layer : string) (entry : HoverMapData) : M unit :=
  s <- read ;;
  match Js.get layer (hoveredObjectMap s) with
  | Some bucket => assign (set_hoveredObjectMap (Js.set layer (bucket ++ [entry]) (hoveredObjectMap s)))
  | None => throw "TypeError: Cannot read properties of undefined (reading 'push')"
  end.

Definition drawInstance (timeObj : ResolvedTimelineObject)
    (currentDrawState : TimelineDrawState) (instanceObj : TimelineObjectInstance)
  : M TimelineDrawState :=
  let parentID := obj_id timeObj in
  let name := drawStateName parentID (inst_id instanceObj) in
  s <- read ;;
  let state := createStateForObject s (obj_layer timeObj) (inst_start instanceObj)
                                    (inst_end instanceObj) in
  let currentDrawState := Js.set name state currentDrawState in
  (if ds_visible state
   then pushHover (obj_layer timeObj)
          {| startX := ds_left state; endX := ds_left state + ds_width state; hm_name := name |}
   else ret tt) ;;
  ret currentDrawState.

Definition getTimelineDrawState (timeline : ResolvedTimeline) : M TimelineDrawState :=
  forEachM (fun currentDrawState key =>
              match Js.get key (objects timeline) with
              | Some timeObj =>
                  forEachM (drawInstance timeObj) (obj_instances timeObj) currentDrawState
              | None => ret currentDrawState
              end)
           (Js.keys (objects timeline)) [].

(** ** Layers *)

(** The first loop of [getLayersToDraw]: the distinct keys, in order. *)
Definition collectLayers (layerKeys : list string) : list string :=
  fold_left (fun layersArray layer =>
               if Js.notIn layer layersArray then layersArray ++ [layer] else layersArray)
            layerKeys [].

(** The [forEach] of [getLayersToDraw]: [layers[layerName] = index] and
    an empty hover bucket per layer. *)
Fixpoint assignRows (layersArray : list string) (index : nat)
    (acc : Layers * TimelineHoverMap) : Layers * TimelineHoverMap :=
  match layersArray with
  | [] => acc
  | layerName :: rest =>
      assignRows rest (S index)
        (Js.set layerName index (fst acc), Js.set layerName [] (snd acc))
  end.

Definition getLayersToDraw : M (Layers * list string) :=
  s <- read ;;
  let layersArray := collectLayers (Js.keys (layers (resolvedTimeline s))) in
  let '(layers, hoverMap) := assignRows layersArray 0 ([], []) in
  assign (set_hoveredObjectMap hoverMap) ;;
  ret (layers, layersArray).

(** [Math.min(MAX_LAYER_HEIGHT, canvasHeight / Object.keys(layers).length)];
    without layers the quotient of a positive height is [Infinity]. *)
Definition calculateRowHeight (s : State) (layers : Layers) : Q :=
  match List.length (Js.keys layers) with
  | O => MAX_LAYER_HEIGHT
  | n => Js.min MAX_LAYER_HEIGHT (canvasHeight s / inject_Z (Z.of_nat n))
  end.

(** [isEqual] on two layer maps: the same keys with the same rows. *)
Definition layersEqual (a b : Layers) : bool :=
  Nat.eqb (List.length a) (List.length b)
  && forallb (fun kv => match Js.get (fst kv) b with
                        | Some v => Nat.eqb v (snd kv)
                        | None => false
                        end) a.

Definition updateLayerLabels : M unit :=
  o <- getLayersToDraw ;;
  s <- read ;;
  if negb (layersEqual (layerLabels s) (fst o))
  then
    assign (set_layerLabels (fst o)) ;;
    assign (fun s => set_rowHeight (calculateRowHeight s (layerLabels s)) s) ;;
    assign (fun s => set_timelineObjectHeight (rowHeight s * TIMELINE_OBJECT_HEIGHT) s) ;;
    assign (fun s => set_numberOfLayers (List.length (Js.keys (layerLabels s))) s) ;;
    assign (fun s => set_rowsTotalHeight (rowHeight s * inject_Z (Z.of_nat (numberOfLayers s))) s)
  else ret tt.

(** ** Construction and updateTimeline

    The resolver of superfly-timeline is external: [resolve time] is
    [Resolver.resolveTimeline(timeline, options)] for the caller's
    objects, as a function of [options.time].  [options] is [None] when
    the caller passes no options. *)

Definition ResolveOptions : Type := option Q.

(** The instance after [new TimelineVisualizer(canvasId, options)] on a
    canvas of the given size, followed by the first
    [updateTimeline(timeline, options)]: the constructor leaves the
    draw range, the window end and the row geometry unassigned until
    then.  [now] is [Date.now()] at the constructor's [updateDraw]. *)
Definition constructed (width height : Q) (optDrawPlayhead : option bool) (now : Q)
    (timeline : ResolvedTimeline) (time : option Q) : State :=
  let layerLabelWidth := width * LABEL_WIDTH_OF_TIMELINE in
  let drawTimeStart := match time with Some t => t | None => 0 end in
  {| stepSize := DEFAULT_STEP_SIZE;
     defaultDrawRange := DEFAULT_DRAW_RANGE * DEFAULT_STEP_SIZE;
     canvasWidth := width;
     canvasHeight := height;
     layerLabelWidth := layerLabelWidth;
     timelineWidth := width - layerLabelWidth;
     timelineStart := layerLabelWidth;
     resolvedTimeline := timeline;
     layerLabels := [];
     timelineState := [];
     hoveredObjectMap := [];
     rowHeight := 0;
     rowsTotalHeight := 0;
     numberOfLayers := 0;
     timelineObjectHeight := 0;
     drawTimeStart := drawTimeStart;
     drawTimeEnd := drawTimeStart + DEFAULT_DRAW_RANGE * DEFAULT_STEP_SIZE;
     drawTimeRange := DEFAULT_DRAW_RANGE * DEFAULT_STEP_SIZE;
     scaledDrawTimeRange := 0;
     pixelsWidthPerUnitTime := 0;
     mouseDown := false;
     mouseLastX := 0;
     lastScrollDirection := None;
     timelineZoom := DEFAULT_ZOOM_VALUE;
     playHeadPlaying := false;
     playViewPort := false;
     drawPlayhead := match optDrawPlayhead with Some b => b | None => false end;
     playSpeed := DEFAULT_PLAYHEAD_SPEED;
     playHeadTime := drawTimeStart;
     playHeadPosition := layerLabelWidth;
     updateDrawLastTime := now;
     hoveredOver := None;
     lastHoverAction := MOUSEOUT;
     lastHoveredName := "" |}.

(** The tail shared by every [updateTimeline]. *)
Definition refresh : M unit :=
  updateLayerLabels ;;
  assign updateScaledDrawTimeRange ;;
  s <- read ;;
  state <- getTimelineDrawState (resolvedTimeline s) ;;
  assign (set_timelineState state) ;;
  assign redrawTimeline.

Definition construct (width height : Q) (optDrawPlayhead : option bool) (now : Q)
    (resolve : ResolveOptions -> ResolvedTimeline) (options : option ResolveOptions)
  : Outcome unit * State * list Emitted :=
  let time := match options with Some o => o | None => Some 0 end in
  refresh (constructed width height optDrawPlayhead now (resolve time) time).

Section UpdateTimeline.

Variable mergeBlob : Blob -> Blob -> Blob.

(** [updateTimeline] on an instance that already holds a timeline. *)
Definition updateTimeline (resolve : ResolveOptions -> ResolvedTimeline)
    (options : option ResolveOptions) : M unit :=
  let time := match options with Some o => o | None => Some 0 end in
  s <- read ;;
  let time := if drawPlayhead s then Some (playHeadTime s) else time in
  let newTimeline := resolve time in
  (if drawPlayhead s
   then
     assign (fun s => set_resolvedTimeline
                        (trimTimeline (resolvedTimeline s)
                                      {| trim_start := None; trim_end := Some (playHeadTime s) |})
                        s) ;;
     assign (fun s => set_resolvedTimeline
                        (mergeTimelineObjects mergeBlob (resolvedTimeline s) newTimeline) s)
   else assign (set_resolvedTimeline newTimeline)) ;;
  refresh.

End UpdateTimeline.

Definition drawInitialTimeline (options : ResolveOptions) : M unit :=
  assign (fun s => set_drawTimeRange (defaultDrawRange s) s) ;;
  assign updateScaledDrawTimeRange ;;
  (match options with
   | Some time => assign (set_drawTimeStart time)
   | None => ret tt
   end) ;;
  assign (fun s => set_drawTimeEnd (drawTimeStart s + scaledDrawTimeRange s) s) ;;
  assign (fun s => set_playHeadTime (drawTimeStart s) s) ;;
  assign redrawTimeline.

Definition getHoveredObject (s : State) : option HoveredObject := hoveredOver s.

(** ** Pointer handling *)

Definition timelineMetaFromString (meta : string) : option TimelineObjectMetaData :=
  match Js.split ":"%char meta with
  | [type; name; instance] =>
      Some {| meta_type := type; meta_name := name; meta_instance := instance |}
  | _ => None
  end.

(** A mouse event, and the top-left corner of the canvas on the page
    ([canvas.getBoundingClientRect()]) when it is handled. *)
Record MouseEvent : Type := mkMouseEvent {
  clientX : Q;
  clientY : Q
}.

Record DOMRect : Type := mkRect {
  rect_left : Q;
  rect_top : Q
}.

Definition getMousePos (rect : DOMRect) (evt : MouseEvent) : Q * Q :=
  (clientX evt - rect_left rect, clientY evt - rect_top rect).

Definition canvasMouseDown (event : MouseEvent) (s : State) : State :=
  set_mouseLastX (clientX event) (set_mouseDown true s).

Definition canvasMouseUp (s : State) : State :=
  set_lastScrollDirection (Some 0) (set_mouseDown false s).

(** The callback of [hoverMapData.forEach] in [canvasMouseMove];
    [found] is the flag it sets. *)
Definition visitHoverEntry (mousePos : Q * Q) (found : bool) (object : HoverMapData) : M bool :=
  if Js.leb (startX object) (fst mousePos) && Js.geb (endX object) (fst mousePos)
  then
    s <- read ;;
    (if negb (String.eqb (lastHoveredName s) (hm_name object))
     then
       match timelineMetaFromString (hm_name object) with
       | Some meta =>
           if String.eqb (meta_type meta) "timelineObject"
           then
             match Js.get (meta_name meta) (objects (resolvedTimeline s)) with
             | Some timelineObject =>
                 let instance :=
                   find (fun instance => String.eqb (inst_id instance) (meta_instance meta))
                        (obj_instances timelineObject) in
                 let hoverInfo :=
                   {| ho_object := timelineObject;
                      ho_instance := instance;
                      ho_pointer := mousePos |} in
                 assign (set_hoveredOver (Some hoverInfo)) ;;
                 emit (Some hoverInfo) ;;
                 assign (set_lastHoverAction MOUSEIN) ;;
                 assign (set_lastHoveredName (hm_name object))
             | None => throw "TypeError: Cannot read properties of undefined (reading 'resolved')"
             end
           else ret tt
       | None => ret tt
       end
     else ret tt) ;;
    ret true
  else ret found.

(** [this._hoveredObjectMap[this._layerLabels[selectedRow]]]: the row
    number indexes the layer map as a key, and what it finds (a row
    index, or [undefined]) indexes the hover map as a key. *)
Definition hoverBucket (s : State) (selectedRow : Z) : option (list HoverMapData) :=
  let key :=
    match Js.get (Js.stringOfInt selectedRow) (layerLabels s) with
    | Some row => Js.stringOfInt (Z.of_nat row)
    | None => "undefined"
    end in
  Js.get key (hoveredObjectMap s).

Definition selectedRowAt (s : State) (y : Q) : Z :=
  Qfloor ((y / rowsTotalHeight s) * inject_Z (Z.of_nat (numberOfLayers s))).

(** The search of [canvasMouseMove] for the entries under the pointer;
    the result is the flag [found]. *)
Definition hoverScan (mousePos : Q * Q) : M bool :=
  s <- read ;;
  if Js.gtb (fst mousePos) (timelineStart s)
  then
    if Js.ltb (snd mousePos) (rowsTotalHeight s)
    then
      let selectedRow := selectedRowAt s (snd mousePos) in
      match hoverBucket s selectedRow with
      | Some hoverMapData => forEachM (visitHoverEntry mousePos) hoverMapData false
      | None => throw "TypeError: Cannot read properties of undefined (reading 'forEach')"
      end
    else ret false
  else ret false.

(** The branch of [canvasMouseMove] taken while the button is up. *)
Definition canvasMouseHover (mousePos : Q * Q) : M unit :=
  found <- hoverScan mousePos ;;
  s <- read ;;
  match found, lastHoverAction s with
  | false, MOUSEIN =>
      emit None ;;
      assign (set_lastHoverAction MOUSEOUT)
  | _, _ => ret tt
  end.

(** [this._lastScrollDirection === v]; the field is [undefined] until
    the first release of the button. *)
Definition directionIs (direction : option Q) (v : Q) : bool :=
  match direction with Some d => Js.eqb d v | None => false end.

(** The branch of [canvasMouseMove] taken while the button is down. *)
Definition canvasMouseDrag (event : MouseEvent) : M unit :=
  s <- read ;;
  (if match lastScrollDirection s with None => true | Some _ => false end
      || directionIs (lastScrollDirection s) 0
   then
     assign (set_mouseLastX (clientX event)) ;;
     s <- read ;;
     let deltaX := clientX event - mouseLastX s in
     assign (set_lastScrollDirection (Some (if Js.ltb deltaX 0 then -1 else 1))) ;;
     assign (canvasScrollByDeltaX (- deltaX))
   else
     let direction := mouseLastX s - clientX event in
     if Js.ltb direction 0 && directionIs (lastScrollDirection s) 1
     then
       assign (set_mouseLastX (clientX event)) ;;
       assign (set_lastScrollDirection (Some (-1)))
     else if Js.gtb direction 0 && directionIs (lastScrollDirection s) (-1)
     then
       assign (set_mouseLastX (clientX event)) ;;
       assign (set_lastScrollDirection (Some 1))
     else
       let deltaX := clientX event - mouseLastX s in
       assign (set_mouseLastX (clientX event)) ;;
       assign (canvasScrollByDeltaX (- deltaX))) ;;
  s <- read ;;
  state <- getTimelineDrawState (resolvedTimeline s) ;;
  assign (set_timelineState state) ;;
  assign redrawTimeline.

Definition canvasMouseMove (rect : DOMRect) (event : MouseEvent) : M unit :=
  s <- read ;;
  if mouseDown s
  then canvasMouseDrag event
  else canvasMouseHover (getMousePos rect event).

(** A wheel event.  [deltaY] is taken integral, as mice report it in
    pixel mode, so that [Math.pow(ZOOM_FACTOR, Math.abs(deltaY))] is a
    rational. *)
Record WheelEvent : Type := mkWheelEvent {
  wheel_position : MouseEvent;
  ctrlKey : bool;
  altKey : bool;
  deltaX : Q;
  deltaY : Z
}.

Definition canvasScrollWheel (rect : DOMRect) (event : WheelEvent) : M unit :=
  let canvasCoord := getMousePos rect (wheel_position event) in
  s <- read ;;
  if Js.leb (fst canvasCoord) (timelineStart s)
  then ret tt
  else
    changed <-
      (if ctrlKey event
       then
         if (0 <? deltaY event)%Z
         then
           assign (fun s => set_timelineZoom
                              (timelineZoom s * Qpower ZOOM_FACTOR (Z.abs (deltaY event))) s) ;;
           assign (zoomUnderCursor (fst canvasCoord)) ;;
           ret true
         else if (deltaY event <? 0)%Z
         then
           assign (fun s => set_timelineZoom
                              (timelineZoom s / Qpower ZOOM_FACTOR (Z.abs (deltaY event))) s) ;;
           assign (zoomUnderCursor (fst canvasCoord)) ;;
           ret true
         else ret false
       else if negb (Js.eqb (deltaX event) 0)
       then
         assign (fun s => canvasScrollByDeltaX (deltaX event * (PAN_FACTOR * stepSize s)) s) ;;
         ret true
       else if negb (deltaY event =? 0)%Z && altKey event
       then
         assign (fun s => canvasScrollByDeltaX
                            (inject_Z (deltaY event) * (PAN_FACTOR * stepSize s)) s) ;;
         ret true
       else ret false) ;;
    if changed : bool
    then
      s <- read ;;
      state <- getTimelineDrawState (resolvedTimeline s) ;;
      assign (set_timelineState state) ;;
      assign redrawTimeline
    else ret tt.


(** ** Vocabulary of the statements *)

(** Every instance of every object of a schedule. *)
Definition instancesOf (timeline : ResolvedTimeline) : list TimelineObjectInstance :=
  flat_map (fun kv => obj_instances (snd kv)) (objects timeline).

(** A trim bound that is absent, or present and equal to [0]. *)
Definition unsupplied (bound : option Q) : Prop :=
  bound = None \/ exists q, bound = Some q /\ q == 0.

(** An instance lies at or after [T]: its end, when it has one, is
    after [T], and it starts at [T] or later. *)
Definition startsFrom (T : Q) (i : TimelineObjectInstance) : Prop :=
  (forall e, inst_end i = Some e -> ~ e <= T) /\ T <= inst_start i.

(** The end of an instance is [null] or a non-zero number. *)
Definition properEnd (i : TimelineObjectInstance) : Prop :=
  forall e, inst_end i = Some e -> ~ e == 0.

(** Every instance held by a map of objects satisfies [P]. *)
Definition AllInstances (P : TimelineObjectInstance -> Prop)
    (objs : ResolvedTimelineObjects) : Prop :=
  forall k o i, In (k, o) objs -> In i (obj_instances o) -> P i.

(** What [insertInstance] does to the fields outside [resolved]:
    [id], [layer] and [content] are those of the trimmed object, and
    [enable] receives its [content]. *)
Definition copiedFrom (obj o : ResolvedTimelineObject) : Prop :=
  obj_id o = obj_id obj /\ obj_layer o = obj_layer obj
  /\ obj_content o = obj_content obj /\ obj_enable o = obj_content obj.

Definition AllCopied (timeline : ResolvedTimeline) (objs : ResolvedTimelineObjects) : Prop :=
  forall k o, In (k, o) objs ->
    exists obj, Js.get k (objects timeline) = Some obj /\ copiedFrom obj o.

(** ** Sample data *)

(** The schedule used by the examples below: object [A] on layer [0],
    with one bounded and one open instance. *)
Definition sampleObject : ResolvedTimelineObject :=
  mkObject "content" "enable" "A" "0"
    (mkResolved [mkInstance "i0" 5 (Some 15); mkInstance "i1" 20 None] None true false).

Definition sampleTimeline : ResolvedTimeline :=
  mkTimeline "" [("0", "[A]")] [("A", sampleObject)] "" "".

(** An instance that ends at time 0, trimmed from 5. *)
Definition zeroEndTimeline : ResolvedTimeline :=
  mkTimeline "" [("0", "[Z]")]
    [("Z", mkObject "content" "enable" "Z" "0"
             (mkResolved [mkInstance "z0" (-5) (Some 0)] None true false))] "" "".

(** A canvas of 1000 by 300 pixels showing the sample schedule, without
    and with the playhead. *)
Definition sampleState : State :=
  stateOf (construct 1000 300 None 1 (fun _ => sampleTimeline) None).

Definition samplePlayState : State :=
  stateOf (construct 1000 300 (Some true) 1 (fun _ => sampleTimeline) None).

(** A view port argument with every field absent. *)
Definition noViewPort : ViewPort := mkViewPort None None None None None None.

(** The argument sets a field that depends on the playhead. *)
Definition setsPlayheadField (viewPort : ViewPort) : Prop :=
  vp_playSpeed viewPort <> None \/ vp_playPlayhead viewPort <> None
  \/ vp_playheadTime viewPort <> None.

(** The sample view after [setViewPort({ zoom: 200 })]. *)
Definition zoomedState : State :=
  stateOf (setViewPort (mkViewPort None (Some 200) None None None None) sampleState).

(** The sample view with the playhead, after
    [setViewPort({ playViewPort: true, playSpeed: -1000 })]. *)
Definition rewindState : State :=
  stateOf (setViewPort (mkViewPort None None None None (Some true) (Some (-1000))) samplePlayState).

(** A schedule whose layers were created in the order [b], [a]. *)
Definition unsortedTimeline : ResolvedTimeline :=
  mkTimeline "" [("b", "[]"); ("a", "[]")] [] "" "".

(** ** Vocabulary of the hover statements *)

(** The entry of the hover map lies under the pointer
    ([object.startX <= mousePos.x && object.endX >= mousePos.x]). *)
Definition covers (mousePos : Q * Q) (object : HoverMapData) : bool :=
  Js.leb (startX object) (fst mousePos) && Js.geb (endX object) (fst mousePos).

(** The pointer is over the rows of the timeline, on a rectangle named
    [name], and every rectangle of that row under it bears that name. *)
Definition hitsOnly (s : State) (mousePos : Q * Q) (name : string) : Prop :=
  Js.gtb (fst mousePos) (timelineStart s) = true
  /\ Js.ltb (snd mousePos) (rowsTotalHeight s) = true
  /\ exists hoverMapData,
       hoverBucket s (selectedRowAt s (snd mousePos)) = Some hoverMapData
       /\ existsb (covers mousePos) hoverMapData = true
       /\ forall object, In object hoverMapData -> covers mousePos object = true ->
                         hm_name object = name.

(** A hover event with a payload, as opposed to a hover-cleared event. *)
Definition isHover (detail : Emitted) : Prop := exists h, detail = Some h.

(** A run of pointer-move events, each handled on the state left by
    the one before (a handler that throws leaves its state behind):
    the final state and everything emitted. *)
Fixpoint pointerMoves (rect : DOMRect) (events : list MouseEvent) (s : State)
  : State * list Emitted :=
  match events with
  | [] => (s, [])
  | event :: rest =>
      let r := canvasMouseMove rect event s in
      let '(s', out) := pointerMoves rect rest (stateOf r) in
      (s', emittedBy r ++ out)
  end.

(** The sample view with the window set to [0, 20]: 37.5 pixels per
    unit of time. *)
Definition narrowState : State :=
  set_pixelsWidthPerUnitTime (375 # 10) (set_drawTimeEnd 20 sampleState).

(** ** Vocabulary of the further statements *)

(** The instances that one object passes on through [trimTimeline]:
    the clamped clones that pass the final test, in the order of the
    input instances. *)
Definition keptInstances (trim : TrimProperties) (l : list TimelineObjectInstance)
  : list TimelineObjectInstance :=
  flat_map (fun instance =>
              let '(useInstance, newInstance) := trimInstance trim instance in
              if keepInstance useInstance newInstance then [newInstance] else [])
           l.

(** The instances held under an object id; none when the id is absent. *)
Definition instancesAt (objId : string) (objs : ResolvedTimelineObjects)
  : list TimelineObjectInstance :=
  match Js.get objId objs with
  | Some o => obj_instances o
  | None => []
  end.

(** Stitching leaves an object id alone: the id is missing on one side,
    or its two definitions differ outside the resolved block. *)
Definition notStitched (past present : option ResolvedTimelineObject) : Prop :=
  match past, present with
  | Some pastObj, Some presentObj => sameDefinition pastObj presentObj = false
  | _, _ => True
  end.

(** From a state that satisfies [P], the method returns and leaves a
    state that satisfies [P]. *)
Definition succeeds {A} (P : State -> Prop) (m : M A) : Prop :=
  forall s, P s -> (exists a, outcomeOf (m s) = Returned a) /\ P (stateOf (m s)).

(** Every bucket of the first hover map is a prefix of the bucket of
    the same layer in the second. *)
Definition bucketsGrow (before after : TimelineHoverMap) : Prop :=
  forall layer bucket, Js.get layer before = Some bucket ->
    exists more, Js.get layer after = Some (bucket ++ more).

(** Every object of the schedule lies on a layer that has a bucket. *)
Definition layersHaveBuckets (timeline : ResolvedTimeline) (s : State) : Prop :=
  forall key timeObj, Js.get key (objects timeline) = Some timeObj ->
    Js.get (obj_layer timeObj) (hoveredObjectMap s) <> None.

(** The state is [s0] but for a hover map whose buckets have grown. *)
Definition onlyHoverMapGrown (s0 s : State) : Prop :=
  s = set_hoveredObjectMap (hoveredObjectMap s) s0
  /\ bucketsGrow (hoveredObjectMap s0) (hoveredObjectMap s).

(** The number of colons in a string. *)
Fixpoint colons (s : string) : nat :=
  match s with
  | EmptyString => O
  | String c rest => ((if Ascii.eqb c ":" then 1 else 0) + colons rest)%nat
  end.

(** The pointer is over no rectangle: left of the timeline, below the
    rows, or on a row (of rows that have a height) none of whose
    entries lies under it. *)
Definition hitsNothing (s : State) (mousePos : Q * Q) : Prop :=
  Js.gtb (fst mousePos) (timelineStart s) = false
  \/ Js.ltb (snd mousePos) (rowsTotalHeight s) = false
  \/ (~ rowsTotalHeight s == 0
      /\ exists hoverMapData,
           hoverBucket s (selectedRowAt s (snd mousePos)) = Some hoverMapData
           /\ existsb (covers mousePos) hoverMapData = false).

(** The payload of the hover event for an instance of an object. *)
Definition hoverInfoFor (timelineObject : ResolvedTimelineObject) (instanceId : string)
    (mousePos : Q * Q) : HoveredObject :=
  {| ho_object := timelineObject;
     ho_instance := find (fun instance => String.eqb (inst_id instance) instanceId)
                         (obj_instances timelineObject);
     ho_pointer := mousePos |}.

(** ** The canvas

    The calls that the drawing methods make on the 2D context, in
    order, each with the styles in force when it is made.  A [y] of
    [None] is the [NaN] that [getObjectOffsetFromTop] gives for a layer
    without a row. *)

Definition COLOR_BACKGROUND : string := "#333333".
Definition COLOR_LABEL_BACKGROUND : string := "#666666".
Definition COLOR_PLAYHEAD : string := "rgba(255, 0, 0, 0.5)".
Definition THICKNESS_PLAYHEAD : Q := 5.
Definition COLOR_LINE : string := "black".
Definition THICKNESS_LINE : Q := 1.
Definition TEXT_FONT_FAMILY : string := "Calibri".
Definition TEXT_FONT_SIZE : Z := 16.
Definition TEXT_COLOR : string := "white".
Definition COLOR_TIMELINE_OBJECT_FILL : string := "rgb(22, 102, 247, 0.75)".
Definition COLOR_TIMELINE_OBJECT_BORDER : string := "rgba(232, 240, 255, 0.85)".
Definition THICKNESS_TIMELINE_OBJECT_BORDER : Q := 1.

Inductive CanvasCall : Type :=
| ClearRect (x y w h : Q)
| FillRect (fillStyle : string) (x : Q) (y : option Q) (w h : Q)
| StrokeRect (strokeStyle : string) (lineWidth : Q) (x : Q) (y : option Q) (w h : Q)
| FillText (fillStyle font textBaseline text : string) (x : Q) (y : option Q)
           (maxWidth : option Q).

(** [TEXT_FONT_SIZE.toString() + 'px ' + TEXT_FONT_FAMILY] *)
Definition textFont : string :=
  String.append (Js.stringOfInt TEXT_FONT_SIZE) (String.append "px " TEXT_FONT_FAMILY).

Definition drawBackground (s : State) : list CanvasCall :=
  [FillRect COLOR_BACKGROUND 0 (Some 0) (canvasWidth s) (canvasHeight s)].

Definition drawPlayheadCalls (s : State) : list CanvasCall :=
  if drawPlayhead s
  then [FillRect COLOR_PLAYHEAD (playHeadPosition s) (Some 0) THICKNESS_PLAYHEAD (canvasHeight s)]
  else [].

(** The keys that [for (let layer in array)] visits: the indices of the
    array, as strings. *)
Definition arrayIndexKeys (n : nat) : list string :=
  map (fun i => Js.stringOfInt (Z.of_nat i)) (seq 0 n).

(** The loop of [drawLayerLabels] over the index keys that remain;
    [row] is its counter.  [this._layerLabels[layer]] looks the index
    key up in the layer map; [undefined.toString()] is a [TypeError],
    thrown after the background of the row has been filled.  The
    result is the calls made and the error, if any. *)
Fixpoint drawLabelRows (s : State) (indexKeys : list string) (row : nat)
  : list CanvasCall * option string :=
  match indexKeys with
  | [] => ([], None)
  | layer :: rest =>
      let y := inject_Z (Z.of_nat row) * rowHeight s in
      let background :=
        FillRect COLOR_LABEL_BACKGROUND 0 (Some y) (layerLabelWidth s) (rowHeight s) in
      match Js.get layer (layerLabels s) with
      | None =>
          ([background],
           Some "TypeError: Cannot read properties of undefined (reading 'toString')")
      | Some label =>
          let text :=
            FillText TEXT_COLOR textFont "middle" (Js.stringOfInt (Z.of_nat label))
                     0 (Some (y + rowHeight s / 2)) (Some (layerLabelWidth s)) in
          let line :=
            if negb (Nat.eqb label 0)
            then [FillRect COLOR_LINE (layerLabelWidth s) (Some y) (timelineWidth s)
                           THICKNESS_LINE]
            else [] in
          let '(calls, error) := drawLabelRows s rest (S row) in
          (background :: text :: line ++ calls, error)
      end
  end.

Definition drawLayerLabels (s : State) : list CanvasCall * option string :=
  drawLabelRows s (arrayIndexKeys (List.length (Js.keys (layerLabels s)))) 0.

(** [element.split(':')[1]], drawn as text; [undefined] is drawn as
    the word. *)
Definition elementLabel (element : string) : string :=
  match nth_error (Js.split ":" element) 1 with
  | Some label => label
  | None => "undefined"
  end.

Definition drawTimelineState (currentDrawState : TimelineDrawState) : list CanvasCall :=
  flat_map (fun element =>
              match Js.get element currentDrawState with
              | Some state =>
                  if ds_visible state
                  then [FillRect COLOR_TIMELINE_OBJECT_FILL (ds_left state) (ds_top state)
                                 (ds_width state) (ds_height state);
                        StrokeRect COLOR_TIMELINE_OBJECT_BORDER THICKNESS_TIMELINE_OBJECT_BORDER
                                   (ds_left state) (ds_top state)
                                   (ds_width state) (ds_height state);
                        FillText TEXT_COLOR textFont "top" (elementLabel element)
                                 (ds_left state) (ds_top state) None]
                  else []
              | None => []
              end)
           (Js.keys currentDrawState).

(** [redrawTimeline] with its canvas calls: the outcome, the state and
    the calls made.  An error in [drawLayerLabels] ends it before the
    playhead position is computed. *)
Definition redrawTimelineCanvas (s : State) : Outcome unit * State * list CanvasCall :=
  let cleared := ClearRect 0 0 (canvasWidth s) (canvasHeight s) :: drawBackground s in
  match drawLayerLabels s with
  | (labels, Some error) => (Thrown error, s, cleared ++ labels)
  | (labels, None) =>
      let s' := snd (computePlayheadPosition s) in
      (Returned tt, s',
       cleared ++ labels ++ drawTimelineState (timelineState s') ++ drawPlayheadCalls s')
  end.

(** Every index key that [drawLayerLabels] visits is the name of a
    layer. *)
Definition rowsAreLayerNames (s : State) : Prop :=
  forall i : nat,
    (i < List.length (Js.keys (layerLabels s)))%nat ->
    Js.get (Js.stringOfInt (Z.of_nat i)) (layerLabels s) <> None.

(** The visualizer after a first [updateTimeline] with the layers
    [b], [a]. *)
Definition unsortedState : State :=
  stateOf (construct 1000 300 None 1 (fun _ => unsortedTimeline) None).

(** ** Vocabulary of the stored widths *)

(** The names under which [getTimelineDrawState] stores the rectangles
    of a schedule, in the order in which it writes them. *)
Definition drawStateNames (timeline : ResolvedTimeline) : list string :=
  flat_map (fun key =>
              match Js.get key (objects timeline) with
              | Some timeObj =>
                  map (fun i => drawStateName (obj_id timeObj) (inst_id i))
                      (obj_instances timeObj)
              | None => []
              end)
           (Js.keys (objects timeline)).

(** Every object of the schedule lies on a layer that the schedule
    lists. *)
Definition layersListed (timeline : ResolvedTimeline) : Prop :=
  forall key timeObj, Js.get key (objects timeline) = Some timeObj ->
    In (obj_layer timeObj) (Js.keys (layers timeline)).

(** The scale of the window: the width of the timeline in pixels over
    the length of the window in time. *)
Definition pixelsPerUnitTime (s : State) : Q :=
  timelineWidth s / (drawTimeEnd s - drawTimeStart s).

(** In the state [s], the stored draw state holds, for every instance
    of the schedule that ends after the window starts and starts
    before it ends, a visible rectangle whose width is the part of the
    instance from the window start on, at the scale of the window.
    The schedule lists the layers of its objects, the names of its
    instances are distinct and the window starts at 0 or later. *)
Definition storesWidths (s : State) : Prop :=
  layersListed (resolvedTimeline s) ->
  NoDup (drawStateNames (resolvedTimeline s)) ->
  0 <= drawTimeStart s ->
  forall key timeObj instance end_,
    Js.get key (objects (resolvedTimeline s)) = Some timeObj ->
    In instance (obj_instances timeObj) ->
    inst_end instance = Some end_ ->
    inst_start instance < drawTimeEnd s ->
    drawTimeStart s < end_ ->
    exists state,
      Js.get (drawStateName (obj_id timeObj) (inst_id instance)) (timelineState s) = Some state
      /\ ds_visible state = true
      /\ ds_width state
         = (end_ - Js.max (inst_start instance) (drawTimeStart s)) * pixelsPerUnitTime s.

(* ================================================================= *)
(** * Properties *)

(** ** Comparisons *)

Section Comparisons.

Lemma ltb_spec (a b : Q) : Js.ltb a b = true <-> a < b.
Proof.
  unfold Js.ltb. rewrite negb_true_iff.
  split; intro H.
  - apply Qnot_le_lt. intro Hle. apply Qle_bool_iff in Hle. congruence.
  - destruct (Qle_bool b a) eqn:E; [|reflexivity].
    apply Qle_bool_iff in E. exfalso. apply (Qlt_not_le _ _ H E).
Qed.

Lemma ltb_false (a b : Q) : Js.ltb a b = false <-> b <= a.
Proof.
  unfold Js.ltb. rewrite negb_false_iff. apply Qle_bool_iff.
Qed.

Lemma gtb_spec (a b : Q) : Js.gtb a b = true <-> b < a.
Proof. apply ltb_spec. Qed.

Lemma leb_spec (a b : Q) : Js.leb a b = true <-> a <= b.
Proof. apply Qle_bool_iff. Qed.

Lemma leb_false (a b : Q) : Js.leb a b = false <-> b < a.
Proof.
  unfold Js.leb. split; intro H.
  - apply Qnot_le_lt. intro Hle. apply Qle_bool_iff in Hle. congruence.
  - destruct (Qle_bool a b) eqn:E; [|reflexivity].
    apply Qle_bool_iff in E. exfalso. apply (Qlt_not_le _ _ H E).
Qed.

Lemma geb_spec (a b : Q) : Js.geb a b = true <-> b <= a.
Proof. apply Qle_bool_iff. Qed.

Lemma geb_false (a b : Q) : Js.geb a b = false <-> a < b.
Proof. apply leb_false. Qed.

Lemma truthy_spec (q : Q) : Js.truthy q = true <-> ~ q == 0.
Proof.
  unfold Js.truthy. rewrite negb_true_iff. split; intro H.
  - now apply Qeq_bool_neq.
  - destruct (Qeq_bool q 0) eqn:E; [|reflexivity].
    apply Qeq_bool_iff in E. contradiction.
Qed.

Lemma truthyOpt_Some (o : option Q) (q : Q) :
  Js.truthyOpt o = Some q <-> o = Some q /\ ~ q == 0.
Proof.
  unfold Js.truthyOpt. destruct o as [x|].
  - destruct (Js.truthy x) eqn:E; split.
    + intro H. inversion H; subst. split; [reflexivity | now apply truthy_spec].
    + intros [H _]. exact H.
    + discriminate.
    + intros [H Hn]. inversion H; subst. apply truthy_spec in Hn. congruence.
  - split; [discriminate | intros [H _]; discriminate].
Qed.

Lemma truthyOpt_unsupplied (o : option Q) : unsupplied o -> Js.truthyOpt o = None.
Proof.
  intros [-> | (q & -> & Hq)]; [reflexivity|].
  unfold Js.truthyOpt, Js.truthy. now rewrite (Qeq_eq_bool _ _ Hq).
Qed.

End Comparisons.

(** ** Objects as maps *)

Section Maps.

Context {A : Type}.

Lemma get_In (k : string) (o : Js.Obj A) (v : A) : Js.get k o = Some v -> In (k, v) o.
Proof.
  induction o as [|[k' v'] rest IH]; simpl; [discriminate|].
  destruct (String.eqb k k') eqn:E.
  - intro H. inversion H; subst. apply String.eqb_eq in E. subst. now left.
  - intro H. right. now apply IH.
Qed.

Lemma get_set_same (k : string) (v : A) (o : Js.Obj A) : Js.get k (Js.set k v o) = Some v.
Proof.
  induction o as [|[k' v'] rest IH]; simpl.
  - now rewrite String.eqb_refl.
  - destruct (String.eqb k k') eqn:E; simpl; rewrite E; [reflexivity | exact IH].
Qed.

Lemma get_set_other (k k' : string) (v : A) (o : Js.Obj A) :
  k <> k' -> Js.get k (Js.set k' v o) = Js.get k o.
Proof.
  intro Hne. induction o as [|[k0 v0] rest IH]; simpl.
  - destruct (String.eqb k k') eqn:E; [apply String.eqb_eq in E; contradiction | reflexivity].
  - destruct (String.eqb k' k0) eqn:E; simpl.
    + apply String.eqb_eq in E. subst k0.
      destruct (String.eqb k k') eqn:E'; [apply String.eqb_eq in E'; contradiction | reflexivity].
    + now rewrite IH.
Qed.

Lemma In_set (k : string) (v : A) (o : Js.Obj A) (k0 : string) (v0 : A) :
  In (k0, v0) (Js.set k v o) -> In (k0, v0) o \/ (k0 = k /\ v0 = v).
Proof.
  induction o as [|[k' v'] rest IH]; simpl.
  - intros [H | []]. inversion H; subst. now right.
  - destruct (String.eqb k k') eqn:E; simpl.
    + apply String.eqb_eq in E. subst k'.
      intros [H | H]; [inversion H; subst; now right | left; now right].
    + intros [H | H]; [left; now left |].
      destruct (IH H) as [H' | H']; [left; now right | now right].
Qed.

Lemma get_keys (k : string) (o : Js.Obj A) (v : A) : Js.get k o = Some v -> In k (Js.keys o).
Proof.
  intro H. apply get_In in H. unfold Js.keys. now apply (in_map fst) in H.
Qed.

End Maps.

(** ** trimTimeline *)

Section Trim.

Lemma fold_left_invariant {A B : Type} (P : B -> Prop) (f : B -> A -> B) (l : list A) (b : B) :
  P b -> (forall b a, In a l -> P b -> P (f b a)) -> P (fold_left f l b).
Proof.
  revert b. induction l as [|a l IH]; simpl; intros b Hb Hstep; [exact Hb|].
  apply IH.
  - apply Hstep; [now left | exact Hb].
  - intros b' a' Hin. apply Hstep. now right.
Qed.

Lemma insertInstance_all (P : TimelineObjectInstance -> Prop) objId obj newInstance acc :
  AllInstances P acc -> P newInstance ->
  AllInstances P (insertInstance objId obj newInstance acc).
Proof.
  intros Hacc Hnew k o i Hin Hi. unfold insertInstance in Hin.
  destruct (Js.notIn objId (Js.keys acc)).
  - apply In_set in Hin. destruct Hin as [Hin | [_ ->]].
    + exact (Hacc _ _ _ Hin Hi).
    + simpl in Hi. destruct Hi as [<- | []]. exact Hnew.
  - destruct (Js.get objId acc) as [o0|] eqn:Hget.
    + apply In_set in Hin. destruct Hin as [Hin | [_ ->]].
      * exact (Hacc _ _ _ Hin Hi).
      * unfold obj_instances in Hi. simpl in Hi. apply in_app_or in Hi.
        destruct Hi as [Hi | [<- | []]]; [|exact Hnew].
        apply get_In in Hget. exact (Hacc _ _ _ Hget Hi).
    + exact (Hacc _ _ _ Hin Hi).
Qed.

(** Without a usable bound no instance is marked for use. *)
Lemma trimInstance_unsupplied trim instance :
  unsupplied (trim_start trim) -> unsupplied (trim_end trim) ->
  trimInstance trim instance = (false, instance).
Proof.
  intros Hs He. unfold trimInstance.
  now rewrite (truthyOpt_unsupplied _ Hs), (truthyOpt_unsupplied _ He).
Qed.

Lemma trimObject_unsupplied timeline trim acc objId :
  unsupplied (trim_start trim) -> unsupplied (trim_end trim) ->
  trimObject timeline trim acc objId = acc.
Proof.
  intros Hs He. unfold trimObject.
  destruct (Js.get objId (objects timeline)) as [obj|]; [|reflexivity].
  generalize (obj_instances obj) as l. intro l. revert acc.
  induction l as [|i l IH]; simpl; intro acc; [reflexivity|].
  unfold trimStep at 2. rewrite (trimInstance_unsupplied _ _ Hs He). simpl. apply IH.
Qed.

(** A kept instance of a trim at [start: T] lies at or after [T],
    provided its end is not the number [0]. *)
Lemma trimInstance_start T instance useInstance newInstance :
  properEnd instance ->
  trimInstance {| trim_start := Some T; trim_end := None |} instance
    = (useInstance, newInstance) ->
  keepInstance useInstance newInstance = true ->
  startsFrom T newInstance.
Proof.
  intros Hend Htrim Hkeep. unfold trimInstance in Htrim. simpl in Htrim.
  destruct (Js.truthy T) eqn:HT.
  2:{ inversion Htrim; subst. discriminate. }
  destruct (Js.ext_gtb (Js.orInfinity (inst_end instance)) T) eqn:Hgt.
  2:{ inversion Htrim; subst. discriminate. }
  inversion Htrim; subst. clear Htrim Hkeep.
  assert (Hends : forall e, inst_end instance = Some e -> ~ e <= T).
  { intros e He Hle. unfold Js.orInfinity in Hgt. rewrite He in Hgt. simpl in Hgt.
    assert (Hnz : Js.truthy e = true) by (apply truthy_spec; now apply Hend).
    rewrite Hnz in Hgt. simpl in Hgt. apply gtb_spec in Hgt.
    exact (Qlt_not_le _ _ Hgt Hle). }
  destruct (Js.ltb (inst_start instance) T) eqn:Hlt; split; simpl.
  - exact Hends.
  - apply Qle_refl.
  - exact Hends.
  - now apply ltb_false.
Qed.

Lemma insertInstance_copied timeline objId obj newInstance acc :
  Js.get objId (objects timeline) = Some obj ->
  AllCopied timeline acc ->
  AllCopied timeline (insertInstance objId obj newInstance acc).
Proof.
  intros Hobj Hacc k o Hin. unfold insertInstance in Hin.
  destruct (Js.notIn objId (Js.keys acc)).
  - apply In_set in Hin. destruct Hin as [Hin | [-> ->]]; [now apply Hacc|].
    exists obj. split; [exact Hobj|]. repeat split.
  - destruct (Js.get objId acc) as [o0|] eqn:Hget; [|now apply Hacc].
    apply In_set in Hin. destruct Hin as [Hin | [-> ->]]; [now apply Hacc|].
    apply get_In in Hget. destruct (Hacc _ _ Hget) as (obj' & Hobj' & Hc).
    exists obj'. split; [exact Hobj'|]. exact Hc.
Qed.

Lemma trimTimeline_copied timeline trim : AllCopied timeline (objects (trimTimeline timeline trim)).
Proof.
  unfold trimTimeline. simpl.
  apply fold_left_invariant; [intros k o []|].
  intros acc objId _ Hacc. unfold trimObject.
  destruct (Js.get objId (objects timeline)) as [obj|] eqn:Hobj; [|exact Hacc].
  apply fold_left_invariant; [exact Hacc|].
  intros acc' instance _ Hacc'. unfold trimStep.
  destruct (trimInstance trim instance) as [useInstance newInstance].
  destruct (keepInstance useInstance newInstance); [|exact Hacc'].
  now apply insertInstance_copied.
Qed.

Lemma instancesOf_In timeline i :
  In i (instancesOf timeline) <->
  exists k o, In (k, o) (objects timeline) /\ In i (obj_instances o).
Proof.
  unfold instancesOf. rewrite in_flat_map. split.
  - intros ([k o] & Hin & Hi). now exists k, o.
  - intros (k & o & Hin & Hi). now exists (k, o).
Qed.

End Trim.

Example trimTimeline_sample :
  objects (trimTimeline sampleTimeline {| trim_start := Some 10; trim_end := None |})
  = [("A", mkObject "content" "content" "A" "0"
             (mkResolved [mkInstance "i0" 10 (Some 15); mkInstance "i1" 20 None]
                         None true false))].
Proof. reflexivity. Qed.

(** Apart from an end equal to [0], the bounds of a trim from [T] hold:
    for every schedule whose instances have a null or non-zero end and
    every time [T], each instance of
    [trimTimeline(schedule, {start: T})] has its end, if any, after [T]
    and its start at [T] or later. *)
Lemma trim_start_bounds (timeline : ResolvedTimeline) (T : Q) (i : TimelineObjectInstance) :
  (forall j, In j (instancesOf timeline) -> properEnd j) ->
  In i (instancesOf (trimTimeline timeline {| trim_start := Some T; trim_end := None |})) ->
  startsFrom T i.
Proof.
  intros Hproper Hin. apply instancesOf_In in Hin. destruct Hin as (k & o & Hin & Hi).
  revert k o i Hin Hi. change (AllInstances (startsFrom T)
    (objects (trimTimeline timeline {| trim_start := Some T; trim_end := None |}))).
  unfold trimTimeline. simpl.
  apply fold_left_invariant; [intros k o i []|].
  intros acc objId _ Hacc. unfold trimObject.
  destruct (Js.get objId (objects timeline)) as [obj|] eqn:Hobj; [|exact Hacc].
  apply fold_left_invariant; [exact Hacc|].
  intros acc' instance Hinst Hacc'. unfold trimStep.
  destruct (trimInstance _ instance) as [useInstance newInstance] eqn:Htrim.
  destruct (keepInstance useInstance newInstance) eqn:Hkeep; [|exact Hacc'].
  apply insertInstance_all; [exact Hacc'|].
  apply (trimInstance_start T instance useInstance newInstance); try assumption.
  apply Hproper. apply instancesOf_In. exists objId, obj. split; [|exact Hinst].
  now apply get_In.
Qed.

(** [trim_start_bounds] at the sample schedule, trimmed from 10. *)
Lemma trim_start_bounds_witness :
  startsFrom 10 (mkInstance "i0" 10 (Some 15)).
Proof.
  apply (trim_start_bounds sampleTimeline 10).
  - intros j Hj e He. simpl in Hj.
    destruct Hj as [<- | [<- | []]]; simpl in He; [|discriminate].
    inversion He; subst. intro H. discriminate H.
  - simpl. left. reflexivity.
Defined.

(** C3 at a failing input.  The schedule holds one instance, from -5 to
    0.  Trimmed from 5 it should be dropped, as it ends before 5; but
    [instance.end || Infinity] reads the end [0] as no end, the instance
    passes the test "ends after the trim start", is clamped to start 5
    and passes [newInstance.start < (newInstance.end || Infinity)] in
    the same way.  The result holds the instance from 5 to 0, whose end
    is not after 5. *)
Theorem trim_start_zero_end :
  instancesOf (trimTimeline zeroEndTimeline {| trim_start := Some 5; trim_end := None |})
  = [mkInstance "z0" 5 (Some 0)]
  /\ ~ startsFrom 5 (mkInstance "z0" 5 (Some 0)).
Proof.
  split; [reflexivity|].
  intros [Hend _]. apply (Hend 0); [reflexivity | discriminate].
Qed.

(** C4.  When each of [trim.start] and [trim.end] is absent or equal to
    [0], [trimTimeline] returns a schedule without objects. *)
Theorem trim_unsupplied_empty (timeline : ResolvedTimeline) (trim : TrimProperties) :
  unsupplied (trim_start trim) -> unsupplied (trim_end trim) ->
  objects (trimTimeline timeline trim) = [].
Proof.
  intros Hs He. unfold trimTimeline. simpl.
  generalize (Js.keys (objects timeline)) as ks. intro ks.
  induction ks as [|k ks IH]; simpl; [reflexivity|].
  now rewrite (trimObject_unsupplied _ _ _ _ Hs He).
Qed.

(** The theorem at the trim of [updateTimeline] while the playhead is
    at its initial time 0: [{ end: 0 }] empties the retained schedule. *)
Lemma trim_unsupplied_empty_witness :
  objects (trimTimeline sampleTimeline {| trim_start := None; trim_end := Some 0 |}) = [].
Proof.
  apply trim_unsupplied_empty; simpl.
  - left. reflexivity.
  - right. exists 0. split; reflexivity.
Defined.

(** C8 at a failing input: the trimmed object [A] keeps its id, layer
    and content, and its [enable] field holds the content of the input
    object ([enable: obj.content]), not its enable value. *)
Theorem trim_enable_overwritten :
  obj_enable sampleObject = "enable"
  /\ exists o,
       Js.get "A" (objects (trimTimeline sampleTimeline {| trim_start := Some 10; trim_end := None |}))
         = Some o
       /\ obj_id o = obj_id sampleObject
       /\ obj_layer o = obj_layer sampleObject
       /\ obj_content o = obj_content sampleObject
       /\ obj_enable o = "content".
Proof.
  split; [reflexivity|]. eexists. split; [reflexivity|]. repeat split.
Qed.

(** ** mergeTimelineObjects *)

Section Merge.

Variable mergeBlob : Blob -> Blob -> Blob.

(** The object id under study, its two definitions, and their single
    instances, which touch. *)
Variables (O : string) (pastObj presentObj : ResolvedTimelineObject).
Variables (pastInstance presentInstance : TimelineObjectInstance).

Hypothesis same : sameDefinition pastObj presentObj = true.
Hypothesis pastOne : obj_instances pastObj = [pastInstance].
Hypothesis presentOne : obj_instances presentObj = [presentInstance].
Hypothesis touch : touching pastInstance presentInstance = true.

Let widened : TimelineObjectInstance := with_start presentInstance (inst_start pastInstance).

(** The two maps before and after the object has been stitched. *)
Let fresh (acc : ResolvedTimelineObjects * ResolvedTimelineObjects) : Prop :=
  Js.get O (fst acc) = Some pastObj /\ Js.get O (snd acc) = Some presentObj.

Let stitched (acc : ResolvedTimelineObjects * ResolvedTimelineObjects) : Prop :=
  Js.get O (fst acc) = Some (set_obj_instances pastObj [])
  /\ Js.get O (snd acc) = Some (set_obj_instances presentObj [widened]).

Lemma stitchObject_other acc k :
  k <> O ->
  Js.get O (fst (stitchObject acc k)) = Js.get O (fst acc)
  /\ Js.get O (snd (stitchObject acc k)) = Js.get O (snd acc).
Proof.
  intro Hne. assert (Hne' : O <> k) by congruence.
  unfold stitchObject. destruct acc as [p q]. simpl.
  destruct (Js.get k p) as [po|]; [|now split].
  destruct (Js.get k q) as [qo|]; [|now split].
  destruct (sameDefinition po qo); [|now split].
  destruct (stitchPast _ _ _ _) as [pi' qi']. simpl.
  split; now apply get_set_other.
Qed.

Lemma stitchObject_fresh acc : fresh acc -> stitched (stitchObject acc O).
Proof.
  intros [Hp Hq]. unfold stitchObject. destruct acc as [p q]. simpl in Hp, Hq.
  rewrite Hp, Hq, same, pastOne, presentOne. simpl. rewrite touch. simpl.
  split; simpl; apply get_set_same.
Qed.

Lemma stitchObject_stitched acc k : stitched acc -> stitched (stitchObject acc k).
Proof.
  intros [Hp Hq]. destruct (String.string_dec k O) as [-> | Hne].
  - unfold stitchObject. destruct acc as [p q]. simpl in Hp, Hq.
    rewrite Hp, Hq.
    destruct (sameDefinition _ _); [|now split].
    simpl. split; simpl; apply get_set_same.
  - destruct (stitchObject_other acc k Hne) as [Ep Eq].
    split; congruence.
Qed.

Lemma stitch_all_stitched ks acc : stitched acc -> stitched (fold_left stitchObject ks acc).
Proof.
  revert acc. induction ks as [|k ks IH]; simpl; intros acc H; [exact H|].
  apply IH. now apply stitchObject_stitched.
Qed.

Lemma stitch_all_fresh ks acc :
  In O ks -> fresh acc -> stitched (fold_left stitchObject ks acc).
Proof.
  revert acc. induction ks as [|k ks IH]; simpl; intros acc Hin H; [contradiction|].
  destruct (String.string_dec k O) as [-> | Hne].
  - apply stitch_all_stitched. now apply stitchObject_fresh.
  - apply IH.
    + destruct Hin as [-> | Hin]; [contradiction | exact Hin].
    + destruct H as [Hp Hq]. destruct (stitchObject_other acc k Hne) as [Ep Eq].
      split; congruence.
Qed.

(** lodash.merge on the object maps, at key [O]. *)
Let mergeKey (src : ResolvedTimelineObjects) (acc : ResolvedTimelineObjects) (key : string) :=
  match Js.get key src with
  | Some srcValue => Js.set key (mergeObject mergeBlob (Js.get key acc) srcValue) acc
  | None => acc
  end.

Let holds (l : list TimelineObjectInstance) (acc : ResolvedTimelineObjects) : Prop :=
  exists x, Js.get O acc = Some x /\ obj_instances x = l.

Lemma mergeKey_other src acc key : key <> O -> Js.get O (mergeKey src acc key) = Js.get O acc.
Proof.
  intro Hne. unfold mergeKey. destruct (Js.get key src); [|reflexivity].
  apply get_set_other. congruence.
Qed.

Lemma mergeKey_same src acc sv l :
  Js.get O src = Some sv -> obj_instances sv = [widened] ->
  l = [] \/ l = [widened] ->
  holds l acc -> holds [widened] (mergeKey src acc O).
Proof.
  intros Hsrc Hsv Hl (x & Hx & Hinst). unfold mergeKey. rewrite Hsrc, Hx.
  eexists. split; [apply get_set_same|].
  unfold obj_instances in *. simpl. rewrite Hinst, Hsv.
  destruct Hl as [-> | ->]; reflexivity.
Qed.

Lemma merge_keeps src sv ks acc :
  Js.get O src = Some sv -> obj_instances sv = [widened] ->
  holds [widened] acc -> holds [widened] (fold_left (mergeKey src) ks acc).
Proof.
  intros Hsrc Hsv. revert acc. induction ks as [|k ks IH]; simpl; intros acc H; [exact H|].
  apply IH. destruct (String.string_dec k O) as [-> | Hne].
  - apply (mergeKey_same src acc sv [widened]); auto.
  - destruct H as (x & Hx & Hi). exists x. split; [|exact Hi].
    now rewrite mergeKey_other.
Qed.

Lemma merge_reaches src sv ks acc :
  Js.get O src = Some sv -> obj_instances sv = [widened] ->
  In O ks -> holds [] acc -> holds [widened] (fold_left (mergeKey src) ks acc).
Proof.
  intros Hsrc Hsv. revert acc. induction ks as [|k ks IH]; simpl; intros acc Hin H; [contradiction|].
  destruct (String.string_dec k O) as [-> | Hne].
  - apply (merge_keeps src sv); auto.
    apply (mergeKey_same src acc sv []); auto.
  - apply IH.
    + destruct Hin as [-> | Hin]; [contradiction | exact Hin].
    + destruct H as (x & Hx & Hi). exists x. split; [|exact Hi].
      now rewrite mergeKey_other.
Qed.

(** The merged schedule holds the widened present instance, alone. *)
Lemma merge_single (past present : ResolvedTimeline) :
  Js.get O (objects past) = Some pastObj ->
  Js.get O (objects present) = Some presentObj ->
  exists merged,
    Js.get O (objects (mergeTimelineObjects mergeBlob past present)) = Some merged
    /\ obj_instances merged = [widened].
Proof.
  intros Hp Hq. unfold mergeTimelineObjects.
  pose proof (stitch_all_fresh (Js.keys (objects past)) (objects past, objects present)
                (get_keys _ _ _ Hp) (conj Hp Hq)) as [Hp' Hq'].
  destruct (fold_left stitchObject _ _) as [p q]. simpl in Hp', Hq'.
  unfold lodashMerge, mergeMap. simpl.
  apply (merge_reaches q (set_obj_instances presentObj [widened])).
  - exact Hq'.
  - reflexivity.
  - exact (get_keys _ _ _ Hq').
  - eexists. split; [exact Hp' | reflexivity].
Qed.

End Merge.

(** Two schedules that split one occurrence of [A] at time 10. *)
Example merge_sample :
  objects (mergeTimelineObjects (fun _ src => src)
    (mkTimeline "" [] [("A", mkObject "c" "e" "A" "0"
                               (mkResolved [mkInstance "a" 0 (Some 10)] None true false))] "" "")
    (mkTimeline "" [] [("A", mkObject "c" "e" "A" "0"
                               (mkResolved [mkInstance "b" 10 (Some 20)] None true false))] "" ""))
  = [("A", mkObject "c" "e" "A" "0" (mkResolved [mkInstance "b" 0 (Some 20)] None true false))].
Proof. reflexivity. Qed.

(** C2.  When object [O] exists in both schedules with definitions that
    agree outside the resolved block, [past] holds exactly one instance
    for [O], from 0 to 10, and [present] holds exactly one, from 10 to
    20, the schedule returned by [mergeTimelineObjects(past, present)]
    holds exactly one instance for [O], from 0 to 20. *)
Theorem merge_stitches_touching
    (mergeBlob : Blob -> Blob -> Blob) (past present : ResolvedTimeline) (O : string)
    (pastObj presentObj : ResolvedTimelineObject)
    (pastInstance presentInstance : TimelineObjectInstance) (pastEnd presentEnd : Q) :
  Js.get O (objects past) = Some pastObj ->
  Js.get O (objects present) = Some presentObj ->
  obj_content pastObj = obj_content presentObj ->
  obj_enable pastObj = obj_enable presentObj ->
  obj_id pastObj = obj_id presentObj ->
  obj_layer pastObj = obj_layer presentObj ->
  obj_instances pastObj = [pastInstance] ->
  inst_start pastInstance == 0 ->
  inst_end pastInstance = Some pastEnd -> pastEnd == 10 ->
  obj_instances presentObj = [presentInstance] ->
  inst_start presentInstance == 10 ->
  inst_end presentInstance = Some presentEnd -> presentEnd == 20 ->
  exists merged instance end_,
    Js.get O (objects (mergeTimelineObjects mergeBlob past present)) = Some merged
    /\ obj_instances merged = [instance]
    /\ inst_start instance == 0
    /\ inst_end instance = Some end_ /\ end_ == 20.
Proof.
  intros Hp Hq Hc He Hi Hl Hpast Hs1 He1 Hv1 Hpres Hs2 He2 Hv2.
  assert (Hsame : sameDefinition pastObj presentObj = true).
  { unfold sameDefinition. rewrite Hc, He, Hi, Hl. now rewrite !String.eqb_refl. }
  assert (Htouch : touching pastInstance presentInstance = true).
  { unfold touching. rewrite He1. apply Qeq_eq_bool. now rewrite Hv1, Hs2. }
  destruct (merge_single mergeBlob O pastObj presentObj pastInstance presentInstance
              Hsame Hpast Hpres Htouch past present Hp Hq) as (merged & Hget & Hinst).
  exists merged, (with_start presentInstance (inst_start pastInstance)), presentEnd.
  repeat split; simpl; assumption.
Qed.

(** The theorem at the two sample schedules. *)
Lemma merge_stitches_touching_witness :
  exists merged instance end_,
    Js.get "A" (objects (mergeTimelineObjects (fun _ src => src)
      (mkTimeline "" [] [("A", mkObject "c" "e" "A" "0"
                                 (mkResolved [mkInstance "a" 0 (Some 10)] None true false))] "" "")
      (mkTimeline "" [] [("A", mkObject "c" "e" "A" "0"
                                 (mkResolved [mkInstance "b" 10 (Some 20)] None true false))] "" "")))
      = Some merged
    /\ obj_instances merged = [instance]
    /\ inst_start instance == 0
    /\ inst_end instance = Some end_ /\ end_ == 20.
Proof.
  apply (merge_stitches_touching (fun _ src => src) _ _ "A"
           (mkObject "c" "e" "A" "0" (mkResolved [mkInstance "a" 0 (Some 10)] None true false))
           (mkObject "c" "e" "A" "0" (mkResolved [mkInstance "b" 10 (Some 20)] None true false))
           (mkInstance "a" 0 (Some 10)) (mkInstance "b" 10 (Some 20)) 10 20);
    reflexivity.
Defined.

(** ** setViewPort *)

(** What [setViewPort] has done when it throws for a playhead field. *)
Lemma setViewPort_throws_after_window (st : State) (viewPort : ViewPort) :
  drawPlayhead st = false ->
  setsPlayheadField viewPort ->
  let r := setViewPort viewPort st in
  threw (outcomeOf r) = true
  /\ emittedBy r = []
  /\ playSpeed (stateOf r) = playSpeed st
  /\ playHeadPlaying (stateOf r) = playHeadPlaying st
  /\ playHeadTime (stateOf r) = playHeadTime st
  /\ playHeadPosition (stateOf r) = playHeadPosition st
  /\ (forall zoom, vp_zoom viewPort = Some zoom -> timelineZoom (stateOf r) = zoom)
  /\ (forall timestamp, vp_timestamp viewPort = Some timestamp -> 0 < timestamp ->
      drawTimeStart (stateOf r) = timestamp)
  /\ (forall play, vp_playViewPort viewPort = Some play -> playViewPort (stateOf r) = play)
  /\ (vp_zoom viewPort = None -> vp_timestamp viewPort = None ->
      vp_playViewPort viewPort = None -> stateOf r = st).
Proof.
  intros Hdp Hset.
  destruct viewPort as [timestamp zoom playPlayhead playheadTime playViewPort_ playSpeed_].
  unfold setsPlayheadField in Hset. simpl in Hset.
  assert (Hcases : playSpeed_ <> None
                   \/ (playSpeed_ = None /\ playPlayhead <> None)
                   \/ (playSpeed_ = None /\ playPlayhead = None /\ playheadTime <> None)).
  { destruct playSpeed_; [left; discriminate|].
    destruct playPlayhead; [right; left; split; [reflexivity | discriminate]|].
    right; right. destruct Hset as [H | [H | H]]; try contradiction. now repeat split. }
  clear Hset.
  unfold setViewPort, whenSome, bind, assign, read, ret, throw, stateOf, outcomeOf, emittedBy.
  simpl.
  destruct zoom as [zoom|]; destruct timestamp as [timestamp|];
    try destruct (Js.gtb timestamp 0) eqn:Hgt; destruct playViewPort_ as [pv|];
    destruct Hcases as [H | [[-> H] | [-> [-> H]]]];
    try (destruct playSpeed_ as [ps|]; [|contradiction]);
    try (destruct playPlayhead as [pp|]; [|contradiction]);
    try (destruct playheadTime as [pt|]; [|contradiction]);
    simpl; rewrite Hdp; simpl;
    (repeat split; try reflexivity; try discriminate;
     try (intros z Hz; inversion Hz; reflexivity);
     try (intros z Hz Hpos; inversion Hz; subst;
          first [reflexivity | exfalso; apply ltb_false in Hgt; lra])).
Qed.

(** An argument without zoom, with no positive timestamp and with no
    new value for [playViewPort] leaves nothing behind when it throws. *)
Lemma setViewPort_throws_unchanged (st : State) (viewPort : ViewPort) :
  drawPlayhead st = false ->
  setsPlayheadField viewPort ->
  vp_zoom viewPort = None ->
  (forall timestamp, vp_timestamp viewPort = Some timestamp -> timestamp <= 0) ->
  (forall play, vp_playViewPort viewPort = Some play -> play = playViewPort st) ->
  stateOf (setViewPort viewPort st) = st.
Proof.
  intros Hdp Hset Hz Ht Hp.
  destruct viewPort as [timestamp zoom playPlayhead playheadTime playViewPort_ playSpeed_].
  unfold setsPlayheadField in Hset. simpl in *. subst zoom.
  assert (Hcases : playSpeed_ <> None
                   \/ (playSpeed_ = None /\ playPlayhead <> None)
                   \/ (playSpeed_ = None /\ playPlayhead = None /\ playheadTime <> None)).
  { destruct playSpeed_; [left; discriminate|].
    destruct playPlayhead; [right; left; split; [reflexivity | discriminate]|].
    right; right. destruct Hset as [H | [H | H]]; try contradiction. now repeat split. }
  clear Hset.
  assert (Hgt : forall t, timestamp = Some t -> Js.gtb t 0 = false).
  { intros t E. apply ltb_false. now apply Ht. }
  unfold setViewPort, whenSome, bind, assign, read, ret, throw, stateOf. simpl.
  destruct timestamp as [t|]; [rewrite (Hgt t eq_refl)|];
    (destruct playViewPort_ as [pv|]; [rewrite (Hp pv eq_refl)|]);
    destruct Hcases as [H | [[-> H] | [-> [-> H]]]];
    try (destruct playSpeed_ as [ps|]; [|contradiction]);
    try (destruct playPlayhead as [pp|]; [|contradiction]);
    try (destruct playheadTime as [pt|]; [|contradiction]);
    simpl; rewrite Hdp; simpl; try reflexivity; now destruct st.
Qed.

(** C1, as amended.  When [drawPlayhead] was not set at construction
    and the argument sets [playSpeed], [playPlayhead] or
    [playheadTime], [setViewPort] throws, emits nothing, and leaves the
    play speed, the playing flag, the playhead time and the playhead
    position as they were.  The zoom, timestamp and [playViewPort]
    fields of the same argument are applied before the error: a
    supplied zoom, positive timestamp or [playViewPort] is stored.  The
    whole state is unchanged whenever the argument supplies no zoom, no
    positive timestamp and no value of [playViewPort] other than the
    current one. *)
Theorem setViewPort_playhead_error (st : State) (viewPort : ViewPort) :
  drawPlayhead st = false ->
  setsPlayheadField viewPort ->
  let r := setViewPort viewPort st in
  threw (outcomeOf r) = true
  /\ emittedBy r = []
  /\ playSpeed (stateOf r) = playSpeed st
  /\ playHeadPlaying (stateOf r) = playHeadPlaying st
  /\ playHeadTime (stateOf r) = playHeadTime st
  /\ playHeadPosition (stateOf r) = playHeadPosition st
  /\ (forall zoom, vp_zoom viewPort = Some zoom -> timelineZoom (stateOf r) = zoom)
  /\ (forall timestamp, vp_timestamp viewPort = Some timestamp -> 0 < timestamp ->
      drawTimeStart (stateOf r) = timestamp)
  /\ (forall play, vp_playViewPort viewPort = Some play -> playViewPort (stateOf r) = play)
  /\ (vp_zoom viewPort = None ->
      (forall timestamp, vp_timestamp viewPort = Some timestamp -> timestamp <= 0) ->
      (forall play, vp_playViewPort viewPort = Some play -> play = playViewPort st) ->
      stateOf r = st).
Proof.
  intros Hdp Hset.
  destruct (setViewPort_throws_after_window st viewPort Hdp Hset)
    as (H1 & H2 & H3 & H4 & H5 & H6 & H7 & H8 & H9 & _).
  simpl. repeat split; try assumption.
  now apply setViewPort_throws_unchanged.
Qed.

(** The theorem at the sample view, for [{ playSpeed: 2 }]. *)
Lemma setViewPort_playhead_error_witness :
  threw (outcomeOf (setViewPort (mkViewPort None None None None None (Some 2)) sampleState)) = true.
Proof.
  apply (setViewPort_playhead_error sampleState (mkViewPort None None None None None (Some 2))).
  - reflexivity.
  - left. discriminate.
Defined.

(** C1, as stated, fails: [{ zoom: 200, playSpeed: 2 }] on a view
    without playhead throws after the zoom has been stored. *)
Lemma setViewPort_playhead_error_counterexample :
  let r := setViewPort (mkViewPort None (Some 200) None None None (Some 2)) sampleState in
  ~ (threw (outcomeOf r) = true /\ stateOf r = sampleState).
Proof.
  intros r [_ H]. apply (f_equal timelineZoom) in H. vm_compute in H. discriminate H.
Qed.

(** ** Coordinate mapping *)

(** Over exact numbers, where the window is as wide as the scaled draw
    range, the two mappings are inverse inside the window. *)
Lemma cursorPosToTime_timeToXCoord (s : State) (t : Q) :
  scaledDrawTimeRange s == drawTimeEnd s - drawTimeStart s ->
  0 < timelineWidth s ->
  drawTimeStart s < t -> t < drawTimeEnd s ->
  cursorPosToTime s (timeToXCoord s t) == t.
Proof.
  intros Hrange Hw Hlo Hhi.
  assert (Hspan : 0 < drawTimeEnd s - drawTimeStart s) by lra.
  set (ratio := (t - drawTimeStart s) / (drawTimeEnd s - drawTimeStart s)).
  assert (Hr0 : 0 < ratio).
  { unfold ratio. apply Qlt_shift_div_l; lra. }
  assert (Hr1 : ratio < 1).
  { unfold ratio. apply Qlt_shift_div_r; lra. }
  assert (Hx : timeToXCoord s t == ratio * timelineWidth s + timelineStart s).
  { unfold timeToXCoord.
    assert (E1 : Js.ltb t (drawTimeStart s) = false) by (apply ltb_false; lra).
    assert (E2 : Js.gtb t (drawTimeEnd s) = false) by (apply ltb_false; lra).
    rewrite E1, E2. reflexivity. }
  assert (Hrw0 : 0 < ratio * timelineWidth s) by nra.
  assert (Hrw1 : ratio * timelineWidth s < timelineWidth s) by nra.
  unfold cursorPosToTime, getCursorPositionAcrossTimeline.
  assert (E3 : Js.leb (timeToXCoord s t) (timelineStart s) = false)
    by (apply leb_false; rewrite Hx; lra).
  assert (E4 : Js.geb (timeToXCoord s t) (timelineStart s + timelineWidth s) = false)
    by (apply geb_false; rewrite Hx; lra).
  rewrite E3, E4. simpl. rewrite Hx, Hrange. unfold ratio. field.
  split; lra.
Qed.

(** C5 at a failing input.  After [setViewPort({ zoom: 200 })] the
    window is [0, 1250] while the scaled draw range is 1000 (the end
    was set to [timelineStart + scaledDrawTimeRange], a pixel position
    plus a duration): time 300 lies inside the window and maps to
    pixel 430, which maps back to time 240. *)
Theorem round_trip_after_zoom :
  drawTimeStart zoomedState < 300 /\ 300 < drawTimeEnd zoomedState
  /\ timeToXCoord zoomedState 300 == 430
  /\ cursorPosToTime zoomedState (timeToXCoord zoomedState 300) == 240.
Proof. vm_compute. repeat split. Qed.

(** ** The invariant [0 <= drawTimeStart] *)

Lemma canvasScrollByDeltaX_nonneg (deltaX : Q) (s : State) :
  0 <= drawTimeStart s -> 0 <= drawTimeStart (canvasScrollByDeltaX deltaX s).
Proof.
  intro H. unfold canvasScrollByDeltaX.
  destruct (Js.ltb (drawTimeStart s + deltaX / pixelsWidthPerUnitTime s) 0) eqn:E.
  - destruct (Js.eqb 0 (drawTimeStart s)); [exact H | simpl; apply Qle_refl].
  - destruct (Js.eqb _ (drawTimeStart s)); [exact H|]. simpl. now apply ltb_false.
Qed.

Lemma zoomUnderCursor_nonneg (cursorX : Q) (s : State) :
  0 <= drawTimeStart (zoomUnderCursor cursorX s).
Proof.
  unfold zoomUnderCursor.
  destruct (Js.ltb _ 0) eqn:E; simpl.
  - apply Qle_refl.
  - now apply ltb_false in E.
Qed.

Lemma redrawTimeline_drawTimeStart (s : State) :
  drawTimeStart (redrawTimeline s) = drawTimeStart s.
Proof.
  unfold redrawTimeline, computePlayheadPosition.
  destruct (negb _); reflexivity.
Qed.

Lemma computePlayheadPosition_drawTimeStart (s : State) :
  drawTimeStart (snd (computePlayheadPosition s)) = drawTimeStart s.
Proof. apply redrawTimeline_drawTimeStart. Qed.

(** Invariants of the state through the monad. *)
Lemma bind_preserves {A B} (P : State -> Prop) (m : M A) (k : A -> M B) (s : State) :
  (forall s, P s -> P (stateOf (m s))) ->
  (forall a s, P s -> P (stateOf (k a s))) ->
  P s -> P (stateOf (bind m k s)).
Proof.
  intros Hm Hk Hs. unfold bind. specialize (Hm s Hs).
  destruct (m s) as [[o s1] out1]. unfold stateOf in Hm. simpl in Hm.
  destruct o as [a|msg]; [|exact Hm].
  specialize (Hk a s1 Hm). destruct (k a s1) as [[r s2] out2]. exact Hk.
Qed.

Lemma assign_preserves (P : State -> Prop) (f : State -> State) (s : State) :
  (forall s, P s -> P (f s)) -> P s -> P (stateOf (assign f s)).
Proof. intros Hf Hs. apply Hf, Hs. Qed.

Ltac preserve :=
  repeat first
    [ apply bind_preserves; [intros ? ? | intros ? ? ?]
    | apply assign_preserves; [intros ? ?|]
    | assumption ].

Lemma setViewPort_nonneg (viewPort : ViewPort) (s : State) :
  0 <= drawTimeStart s -> 0 <= drawTimeStart (stateOf (setViewPort viewPort s)).
Proof.
  set (P := fun s : State => 0 <= drawTimeStart s).
  change (P s -> P (stateOf (setViewPort viewPort s))).
  assert (Hplay : forall s, P s -> P (snd (computePlayheadPosition s))).
  { intros s0 H0. unfold P. now rewrite computePlayheadPosition_drawTimeStart. }
  assert (Hdraw : forall s, P s -> P (redrawTimeline s)).
  { intros s0 H0. unfold P. now rewrite redrawTimeline_drawTimeStart. }
  intro H. unfold setViewPort, whenSome.
  apply bind_preserves; [clear s H; intros s H | clear s H; intros changedZoom s H | exact H].
  { destruct (vp_zoom viewPort) as [zoom|]; [|exact H]. preserve. }
  apply bind_preserves; [clear s H; intros s H | clear s H; intros changedTimestamp s H | exact H].
  { destruct (vp_timestamp viewPort) as [timestamp|]; [|exact H].
    destruct (Js.gtb timestamp 0) eqn:Hts; [|exact H].
    apply gtb_spec in Hts.
    apply bind_preserves; [intros s0 _ | intros a s0 H0 | exact H].
    - unfold P, assign, stateOf. simpl. lra.
    - preserve. }
  apply bind_preserves; [clear s H; intros s H | clear s H; intros _ s H | exact H].
  { destruct (vp_playViewPort viewPort) as [pv|]; [|exact H]. preserve. }
  apply bind_preserves; [clear s H; intros s H | clear s H; intros _ s H | exact H].
  { destruct (vp_playSpeed viewPort) as [ps|]; [|exact H].
    apply bind_preserves; [intros s0 H0; exact H0 | intros a s0 H0 | exact H].
    destruct (negb (drawPlayhead a)); [exact H0 | preserve]. }
  apply bind_preserves; [clear s H; intros s H | clear s H; intros _ s H | exact H].
  { destruct (vp_playPlayhead viewPort) as [pp|]; [|exact H].
    apply bind_preserves; [intros s0 H0; exact H0 | intros a s0 H0 | exact H].
    destruct (negb (drawPlayhead a)); [exact H0 | preserve]. }
  apply bind_preserves; [clear s H; intros s H | clear s H; intros changedPlayhead s H | exact H].
  { destruct (vp_playheadTime viewPort) as [pt|]; [|exact H].
    apply bind_preserves; [intros s0 H0; exact H0 | intros a s0 H0 | exact H].
    destruct (negb (drawPlayhead a)); [exact H0 | preserve]. }
  destruct (changedZoom || changedTimestamp || changedPlayhead); [|exact H].
  apply bind_preserves; [intros s0 H0 | intros a s0 H0 | exact H].
  - apply assign_preserves; [exact Hplay | exact H0].
  - apply assign_preserves; [exact Hdraw | exact H0].
Qed.

(** X16.  A tick with a non-negative speed, at a time not before the
    last one, keeps [0 <= drawTimeStart]. *)
Lemma updateDraw_nonneg (now : Q) (s : State) :
  0 <= playSpeed s -> updateDrawLastTime s <= now ->
  0 <= drawTimeStart s -> 0 <= drawTimeStart (updateDraw now s).
Proof.
  intros Hspeed Hnow H. unfold updateDraw.
  set (dt := (if Js.gtb (updateDrawLastTime s) 0 then now - updateDrawLastTime s else 1) / 1000).
  assert (Hdt : 0 <= dt).
  { unfold dt. destruct (Js.gtb _ 0); apply Qle_shift_div_l; lra. }
  assert (Hadv : 0 <= playSpeed s * dt) by nra.
  destruct (playHeadPlaying s && drawPlayhead s) eqn:Hplay; simpl; rewrite ?Hplay;
    destruct (playViewPort s) eqn:Hview; simpl; rewrite ?Hplay;
    repeat match goal with
           | |- context [if ?c then _ else _] => destruct c; simpl
           end;
    rewrite ?redrawTimeline_drawTimeStart, ?computePlayheadPosition_drawTimeStart; simpl;
    try exact H; try lra.
  all: match goal with
       | |- context [computePlayheadPosition ?x] =>
           pose proof (computePlayheadPosition_drawTimeStart x) as Hc;
           destruct (computePlayheadPosition x) as [moved s0]; simpl in Hc;
           destruct moved; rewrite ?redrawTimeline_drawTimeStart, Hc; exact H
       end.
Qed.

(** C6 at a failing input.  With the playhead enabled,
    [setViewPort({ playViewPort: true, playSpeed: -1000 })] leaves the
    window at [0, 500]; the tick two seconds later moves its start to
    -2000: [updateDraw] adds [playSpeed * dt] without the clamp that
    panning and zooming apply. *)
Theorem updateDraw_negative_start :
  drawTimeStart rewindState == 0
  /\ drawTimeStart (updateDraw 2001 rewindState) == -2000.
Proof. vm_compute. split; reflexivity. Qed.

(** ** Layers *)

Lemma notIn_true (k : string) (arr : list string) : ~ In k arr -> Js.notIn k arr = true.
Proof.
  intro H. unfold Js.notIn. rewrite negb_true_iff.
  destruct (existsb (String.eqb k) arr) eqn:E; [|reflexivity].
  apply existsb_exists in E. destruct E as (x & Hx & Heq).
  apply String.eqb_eq in Heq. subst. contradiction.
Qed.

(** Distinct keys are collected as they come. *)
Lemma collect_from (layerKeys acc : list string) :
  NoDup (acc ++ layerKeys) ->
  fold_left (fun layersArray layer =>
               if Js.notIn layer layersArray then layersArray ++ [layer] else layersArray)
            layerKeys acc
  = acc ++ layerKeys.
Proof.
  revert acc. induction layerKeys as [|k rest IH]; simpl; intros acc Hnd.
  - now rewrite app_nil_r.
  - rewrite notIn_true.
    + rewrite IH; rewrite <- app_assoc; [reflexivity | exact Hnd].
    + intro Hin. apply NoDup_remove_2 in Hnd. apply Hnd. apply in_or_app. now left.
Qed.

Lemma collectLayers_NoDup (layerKeys : list string) :
  NoDup layerKeys -> collectLayers layerKeys = layerKeys.
Proof. intro Hnd. unfold collectLayers. now rewrite collect_from. Qed.

Lemma assignRows_other (layersArray : list string) (index : nat)
    (acc : Layers * TimelineHoverMap) (k : string) :
  ~ In k layersArray ->
  Js.get k (fst (assignRows layersArray index acc)) = Js.get k (fst acc).
Proof.
  revert index acc. induction layersArray as [|l rest IH]; simpl; intros index acc Hn;
    [reflexivity|].
  rewrite IH by tauto. simpl. apply get_set_other. intro; subst; tauto.
Qed.

(** The layer at position [i] of the key order gets row [i]. *)
Lemma assignRows_nth (layersArray : list string) (index : nat)
    (acc : Layers * TimelineHoverMap) (i : nat) (k : string) :
  NoDup layersArray -> nth_error layersArray i = Some k ->
  Js.get k (fst (assignRows layersArray index acc)) = Some (index + i)%nat.
Proof.
  revert index acc i. induction layersArray as [|l rest IH]; intros index acc i Hnd Hnth.
  - destruct i; discriminate.
  - inversion Hnd as [|? ? Hnotin Hrest]; subst. destruct i as [|i]; simpl in *.
    + inversion Hnth; subst. rewrite assignRows_other by exact Hnotin.
      simpl. rewrite get_set_same. f_equal. symmetry. apply Nat.add_0_r.
    + rewrite (IH (S index) _ i Hrest Hnth). f_equal. symmetry. apply Nat.add_succ_r.
Qed.

(** X22.  Where the layer keys are distinct, the key at position [i] of
    [Object.keys(layers)] gets row [i] in [getLayersToDraw]. *)
Lemma rows_follow_keys (layerKeys : list string) (i : nat) (k : string) :
  NoDup layerKeys -> nth_error layerKeys i = Some k ->
  Js.get k (fst (assignRows (collectLayers layerKeys) 0 ([], []))) = Some i.
Proof.
  intros Hnd Hnth. rewrite (collectLayers_NoDup _ Hnd).
  now rewrite (assignRows_nth _ 0 _ i k Hnd Hnth).
Qed.

(** C7 at a failing input.  For a schedule whose layer keys come in the
    order [b], [a], the layer map gives row 0 to [b] and row 1 to [a]:
    rows follow the key order of [resolvedTimeline.layers], and no sort
    takes place. *)
Theorem layers_follow_key_order :
  let labels := layerLabels (stateOf (construct 1000 300 None 1 (fun _ => unsortedTimeline) None)) in
  String.ltb "a" "b" = true
  /\ Js.get "a" labels = Some 1%nat
  /\ Js.get "b" labels = Some 0%nat.
Proof. vm_compute. repeat split. Qed.

(** ** Draw state *)

(** Instance [5, 15) in the window [0, 20] on a canvas of 1000 pixels:
    left 437.5, width 375. *)
Example createStateForObject_narrow :
  let state := createStateForObject narrowState "0" 5 (Some 15) in
  ds_visible state = true /\ ds_left state == 4375 # 10 /\ ds_width state == 375.
Proof. vm_compute. repeat split. Qed.

(** An open instance gets the width of the canvas. *)
Example createStateForObject_open :
  ds_width (createStateForObject narrowState "0" 5 None) = canvasWidth narrowState.
Proof. reflexivity. Qed.

(** The width that [createStateForObject] stores for an instance with
    a non-zero end, in terms of the fields it reads. *)
Lemma createStateForObject_width (s : State) (layer : string) (start end_ : Q) :
  ~ end_ == 0 ->
  showOnTimeline s start (Some end_) = true ->
  ds_visible (createStateForObject s layer start (Some end_)) = true
  /\ ds_width (createStateForObject s layer start (Some end_))
     = (end_ - Js.max start (drawTimeStart s)) * pixelsWidthPerUnitTime s.
Proof.
  intros Hnz Hshow. unfold createStateForObject. rewrite Hshow. simpl.
  split; [reflexivity|].
  unfold getObjectWidth. simpl.
  apply truthy_spec in Hnz. rewrite Hnz. reflexivity.
Qed.

(** C9, as stated, fails: an instance from 5 to 5.1 is visible in the
    sample view and its stored width is 0.15 pixels. *)
Lemma stored_width_counterexample :
  ~ (showOnTimeline sampleState 5 (Some (51 # 10)) = true ->
     1 <= ds_width (createStateForObject sampleState "0" 5 (Some (51 # 10)))).
Proof.
  intro H. specialize (H eq_refl). vm_compute in H. apply H. reflexivity.
Qed.

(** ** Hover *)

Section Hover.

Variable mousePos : Q * Q.

(** What one visit of the hover map does: nothing, or a throw before
    any effect, or one hover event that records the entry's name. *)
Lemma visitHoverEntry_cases (found : bool) (object : HoverMapData) (s : State) :
  (exists o, visitHoverEntry mousePos found object s = (o, s, []))
  \/ (covers mousePos object = true
      /\ exists h, visitHoverEntry mousePos found object s
                   = (Returned true,
                      set_lastHoveredName (hm_name object)
                        (set_lastHoverAction MOUSEIN (set_hoveredOver (Some h) s)),
                      [Some h])).
Proof.
  unfold visitHoverEntry, covers.
  destruct (Js.leb (startX object) (fst mousePos) && Js.geb (endX object) (fst mousePos));
    [|left; eexists; reflexivity].
  unfold bind, read, assign, ret, emit, throw. simpl.
  destruct (negb (lastHoveredName s =? hm_name object)%string);
    [|left; eexists; reflexivity].
  destruct (timelineMetaFromString (hm_name object)) as [meta|];
    [|left; eexists; reflexivity].
  destruct (meta_type meta =? "timelineObject")%string;
    [|left; eexists; reflexivity].
  destruct (Js.get (meta_name meta) (objects (resolvedTimeline s))) as [timelineObject|];
    [|left; eexists; reflexivity].
  right. split; [reflexivity|]. eexists. reflexivity.
Qed.

(** A visit of an entry that bears the last hovered name, or does not
    lie under the pointer, is silent. *)
Lemma visitHoverEntry_silent (found : bool) (object : HoverMapData) (s : State) :
  (covers mousePos object = true -> hm_name object = lastHoveredName s) ->
  visitHoverEntry mousePos found object s
  = (Returned (found || covers mousePos object), s, []).
Proof.
  intro Hname. unfold visitHoverEntry. fold (covers mousePos object).
  destruct (covers mousePos object).
  - rewrite (Hname eq_refl). unfold bind, read, ret. simpl.
    rewrite String.eqb_refl. simpl. now rewrite orb_true_r.
  - now rewrite orb_false_r.
Qed.

Lemma forEach_silent (hoverMapData : list HoverMapData) (found : bool) (s : State) :
  (forall object, In object hoverMapData -> covers mousePos object = true ->
                  hm_name object = lastHoveredName s) ->
  forEachM (visitHoverEntry mousePos) hoverMapData found s
  = (Returned (found || existsb (covers mousePos) hoverMapData), s, []).
Proof.
  revert found. induction hoverMapData as [|object rest IH]; simpl; intros found Hall.
  - unfold ret. now rewrite orb_false_r.
  - unfold bind. rewrite visitHoverEntry_silent by (apply Hall; now left).
    rewrite IH by (intros o Ho; apply Hall; now right).
    now rewrite orb_assoc.
Qed.

(** Without a hover event the scan leaves the state alone. *)
Lemma forEach_quiet (hoverMapData : list HoverMapData) (found : bool) (s : State) :
  (forall detail, In detail (emittedBy (forEachM (visitHoverEntry mousePos) hoverMapData found s)) ->
                  ~ isHover detail) ->
  stateOf (forEachM (visitHoverEntry mousePos) hoverMapData found s) = s.
Proof.
  revert found s. induction hoverMapData as [|object rest IH]; simpl; intros found s Hq;
    [reflexivity|].
  unfold bind in *.
  destruct (visitHoverEntry_cases found object s) as [[o E] | [_ [h E]]]; rewrite E in *.
  - destruct o as [found'|msg]; [|reflexivity].
    specialize (IH found' s).
    destruct (forEachM (visitHoverEntry mousePos) rest found' s) as [[r s2] out2].
    unfold stateOf, emittedBy in *. simpl in *. apply IH. exact Hq.
  - exfalso.
    destruct (forEachM (visitHoverEntry mousePos) rest true _) as [[r s2] out2].
    unfold emittedBy in Hq. simpl in Hq.
    apply (Hq (Some h)); [now left | now exists h].
Qed.

(** A scan that emits a hover event over rectangles of one name
    records that name. *)
Lemma forEach_records (name : string) (hoverMapData : list HoverMapData) (found : bool) (s : State) :
  (forall object, In object hoverMapData -> covers mousePos object = true ->
                  hm_name object = name) ->
  (exists detail, In detail (emittedBy (forEachM (visitHoverEntry mousePos) hoverMapData found s))
                  /\ isHover detail) ->
  lastHoveredName (stateOf (forEachM (visitHoverEntry mousePos) hoverMapData found s)) = name.
Proof.
  revert found s. induction hoverMapData as [|object rest IH]; simpl; intros found s Hall Hem.
  - destruct Hem as (d & [] & _).
  - unfold bind in *.
    destruct (visitHoverEntry_cases found object s) as [[o E] | [Hcov [h E]]]; rewrite E in *.
    + destruct o as [found'|msg].
      * specialize (IH found' s).
        destruct (forEachM (visitHoverEntry mousePos) rest found' s) as [[r s2] out2].
        unfold stateOf, emittedBy in *. simpl in *.
        apply IH; [intros o Ho; apply Hall; now right | exact Hem].
      * destruct Hem as (d & [] & _).
    + rewrite forEach_silent.
      * simpl. apply Hall; [now left | exact Hcov].
      * intros o Ho Hc. simpl. rewrite (Hall o (or_intror Ho) Hc).
        symmetry. apply Hall; [now left | exact Hcov].
Qed.

End Hover.

(** The hover branch never touches the button flag. *)
Lemma forEach_mouseDown (mousePos : Q * Q) (hoverMapData : list HoverMapData)
    (found : bool) (s : State) :
  mouseDown (stateOf (forEachM (visitHoverEntry mousePos) hoverMapData found s)) = mouseDown s.
Proof.
  revert found s. induction hoverMapData as [|object rest IH]; simpl; intros found s;
    [reflexivity|].
  unfold bind.
  destruct (visitHoverEntry_cases mousePos found object s) as [[o E] | [_ [h E]]]; rewrite E.
  - destruct o as [found'|msg]; [|reflexivity].
    specialize (IH found' s).
    destruct (forEachM (visitHoverEntry mousePos) rest found' s) as [[r s2] out2].
    exact IH.
  - match goal with |- context [forEachM _ rest true ?s1] => specialize (IH true s1) end.
    destruct (forEachM (visitHoverEntry mousePos) rest true _) as [[r s2] out2].
    unfold stateOf in *. simpl in *. exact IH.
Qed.

Lemma hoverScan_eq (mousePos : Q * Q) (s : State) :
  hoverScan mousePos s
  = if Js.gtb (fst mousePos) (timelineStart s)
    then
      if Js.ltb (snd mousePos) (rowsTotalHeight s)
      then
        match hoverBucket s (selectedRowAt s (snd mousePos)) with
        | Some hoverMapData => forEachM (visitHoverEntry mousePos) hoverMapData false s
        | None => (Thrown "TypeError: Cannot read properties of undefined (reading 'forEach')",
                   s, [])
        end
      else (Returned false, s, [])
    else (Returned false, s, []).
Proof.
  unfold hoverScan, bind, read. simpl.
  destruct (Js.gtb (fst mousePos) (timelineStart s)); [|reflexivity].
  destruct (Js.ltb (snd mousePos) (rowsTotalHeight s)); [|reflexivity].
  destruct (hoverBucket s (selectedRowAt s (snd mousePos))) as [hoverMapData|]; [|reflexivity].
  destruct (forEachM (visitHoverEntry mousePos) hoverMapData false s) as [[r s2] out].
  reflexivity.
Qed.

Lemma canvasMouseHover_eq (mousePos : Q * Q) (s : State) :
  canvasMouseHover mousePos s
  = match hoverScan mousePos s with
    | (Returned found, s1, out1) =>
        match found, lastHoverAction s1 with
        | false, MOUSEIN => (Returned tt, set_lastHoverAction MOUSEOUT s1, out1 ++ [None])
        | _, _ => (Returned tt, s1, out1)
        end
    | (Thrown msg, s1, out1) => (Thrown msg, s1, out1)
    end.
Proof.
  unfold canvasMouseHover, bind at 1.
  destruct (hoverScan mousePos s) as [[o s1] out1].
  destruct o as [found|msg]; [|reflexivity].
  unfold bind, read, emit, assign, ret. simpl.
  destruct found; [now rewrite app_nil_r|].
  destruct (lastHoverAction s1); [reflexivity | now rewrite app_nil_r].
Qed.

Lemma hoverScan_silent (mousePos : Q * Q) (s : State) (name : string) :
  lastHoveredName s = name -> hitsOnly s mousePos name ->
  hoverScan mousePos s = (Returned true, s, []).
Proof.
  intros Hlast (Hx & Hy & hoverMapData & Hbucket & Hex & Hall).
  rewrite hoverScan_eq, Hx, Hy, Hbucket.
  rewrite forEach_silent by (intros o Ho Hc; rewrite Hlast; now apply Hall).
  simpl. now rewrite Hex.
Qed.

Lemma hoverScan_records (mousePos : Q * Q) (s : State) (name : string) :
  hitsOnly s mousePos name ->
  (exists detail, In detail (emittedBy (hoverScan mousePos s)) /\ isHover detail) ->
  lastHoveredName (stateOf (hoverScan mousePos s)) = name.
Proof.
  intros (Hx & Hy & hoverMapData & Hbucket & Hex & Hall).
  rewrite hoverScan_eq, Hx, Hy, Hbucket.
  now apply forEach_records.
Qed.

Lemma hoverScan_quiet (mousePos : Q * Q) (s : State) :
  (forall detail, In detail (emittedBy (hoverScan mousePos s)) -> ~ isHover detail) ->
  stateOf (hoverScan mousePos s) = s.
Proof.
  rewrite hoverScan_eq.
  destruct (Js.gtb (fst mousePos) (timelineStart s)); [|reflexivity].
  destruct (Js.ltb (snd mousePos) (rowsTotalHeight s)); [|reflexivity].
  destruct (hoverBucket s (selectedRowAt s (snd mousePos))) as [hoverMapData|]; [|reflexivity].
  apply forEach_quiet.
Qed.

Lemma hoverScan_mouseDown (mousePos : Q * Q) (s : State) :
  mouseDown (stateOf (hoverScan mousePos s)) = mouseDown s.
Proof.
  rewrite hoverScan_eq.
  destruct (Js.gtb (fst mousePos) (timelineStart s)); [|reflexivity].
  destruct (Js.ltb (snd mousePos) (rowsTotalHeight s)); [|reflexivity].
  destruct (hoverBucket s (selectedRowAt s (snd mousePos))) as [hoverMapData|]; [|reflexivity].
  apply forEach_mouseDown.
Qed.

Lemma not_hover_None : ~ isHover None.
Proof. intros [h H]. discriminate. Qed.

Lemma canvasMouseHover_silent (mousePos : Q * Q) (s : State) (name : string) :
  lastHoveredName s = name -> hitsOnly s mousePos name ->
  canvasMouseHover mousePos s = (Returned tt, s, []).
Proof.
  intros Hlast Hhit.
  now rewrite canvasMouseHover_eq, (hoverScan_silent _ _ _ Hlast Hhit).
Qed.

Lemma canvasMouseHover_records (mousePos : Q * Q) (s : State) (name : string) :
  hitsOnly s mousePos name ->
  (exists detail, In detail (emittedBy (canvasMouseHover mousePos s)) /\ isHover detail) ->
  lastHoveredName (stateOf (canvasMouseHover mousePos s)) = name.
Proof.
  intros Hhit. pose proof (hoverScan_records _ _ _ Hhit) as Hrec.
  rewrite canvasMouseHover_eq.
  destruct (hoverScan mousePos s) as [[o s1] out1].
  unfold stateOf, emittedBy in *. simpl in Hrec.
  destruct o as [found|msg]; [|exact Hrec].
  destruct found; [exact Hrec|].
  destruct (lastHoverAction s1); [|exact Hrec]. simpl.
  intros (d & Hd & Hh). apply in_app_or in Hd.
  destruct Hd as [Hd | [<- | []]]; [|now apply not_hover_None in Hh].
  apply Hrec. now exists d.
Qed.

Lemma canvasMouseHover_quiet (mousePos : Q * Q) (s : State) :
  (forall detail, In detail (emittedBy (canvasMouseHover mousePos s)) -> ~ isHover detail) ->
  lastHoveredName (stateOf (canvasMouseHover mousePos s)) = lastHoveredName s.
Proof.
  pose proof (hoverScan_quiet mousePos s) as Hq.
  rewrite canvasMouseHover_eq.
  destruct (hoverScan mousePos s) as [[o s1] out1].
  unfold stateOf, emittedBy in *. simpl in Hq.
  destruct o as [found|msg]; [|intro Hno; simpl; now rewrite Hq].
  destruct found; [intro Hno; simpl; now rewrite Hq|].
  destruct (lastHoverAction s1); simpl; intro Hno.
  - rewrite Hq; [reflexivity|]. intros d Hd. apply Hno, in_or_app. now left.
  - now rewrite Hq.
Qed.

Lemma canvasMouseHover_mouseDown (mousePos : Q * Q) (s : State) :
  mouseDown (stateOf (canvasMouseHover mousePos s)) = mouseDown s.
Proof.
  pose proof (hoverScan_mouseDown mousePos s) as Hm.
  rewrite canvasMouseHover_eq.
  destruct (hoverScan mousePos s) as [[o s1] out1].
  unfold stateOf in *. simpl in Hm.
  destruct o as [found|msg]; [|exact Hm].
  destruct found; [exact Hm|].
  destruct (lastHoverAction s1); exact Hm.
Qed.

Lemma canvasMouseMove_up (rect : DOMRect) (event : MouseEvent) (s : State) :
  mouseDown s = false ->
  canvasMouseMove rect event s = canvasMouseHover (getMousePos rect event) s.
Proof.
  intro H. unfold canvasMouseMove, bind, read. simpl. rewrite H.
  destruct (canvasMouseHover (getMousePos rect event) s) as [[r s2] out]. reflexivity.
Qed.

(** Moves that signal no hover keep the last hovered name. *)
Lemma pointerMoves_quiet (rect : DOMRect) (events : list MouseEvent) (s : State) :
  mouseDown s = false ->
  (forall detail, In detail (snd (pointerMoves rect events s)) -> ~ isHover detail) ->
  lastHoveredName (fst (pointerMoves rect events s)) = lastHoveredName s
  /\ mouseDown (fst (pointerMoves rect events s)) = false.
Proof.
  revert s. induction events as [|event rest IH]; simpl; intros s Hup Hno; [now split|].
  rewrite (canvasMouseMove_up _ _ _ Hup) in *.
  specialize (IH (stateOf (canvasMouseHover (getMousePos rect event) s))).
  destruct (pointerMoves rect rest _) as [s' out]. simpl in *.
  destruct IH as [IHn IHm].
  - now rewrite canvasMouseHover_mouseDown.
  - intros d Hd. apply Hno. apply in_or_app. now right.
  - split; [|exact IHm]. rewrite IHn. apply canvasMouseHover_quiet.
    intros d Hd. apply Hno. apply in_or_app. now left.
Qed.

(** C10.  Let a pointer move over rectangle [name] signal a hover
    event; let the moves that follow signal a hover-cleared event and
    no hover event; let the pointer then come back over [name], with no
    rectangle of another name under it.  That last move signals
    nothing and changes nothing. *)
Theorem hover_reentry_silent
    (rect : DOMRect) (s0 : State) (name : string)
    (enter : MouseEvent) (between : list MouseEvent) (reenter : MouseEvent) :
  mouseDown s0 = false ->
  hitsOnly s0 (getMousePos rect enter) name ->
  (exists detail, In detail (emittedBy (canvasMouseMove rect enter s0)) /\ isHover detail) ->
  let after := pointerMoves rect between (stateOf (canvasMouseMove rect enter s0)) in
  In None (snd after) ->
  (forall detail, In detail (snd after) -> ~ isHover detail) ->
  hitsOnly (fst after) (getMousePos rect reenter) name ->
  canvasMouseMove rect reenter (fst after) = (Returned tt, fst after, []).
Proof.
  intros Hup Hhit Hsignal.
  rewrite (canvasMouseMove_up _ _ _ Hup) in *.
  pose proof (canvasMouseHover_records _ _ _ Hhit Hsignal) as Hname.
  pose proof (canvasMouseHover_mouseDown (getMousePos rect enter) s0) as Hup1.
  rewrite Hup in Hup1.
  pose proof (pointerMoves_quiet rect between _ Hup1) as Hquiet.
  intros after _ Hno Hback. destruct (Hquiet Hno) as [Hlast Hup2].
  rewrite (canvasMouseMove_up _ _ _ Hup2).
  apply (canvasMouseHover_silent _ _ name); [|exact Hback].
  unfold after. congruence.
Qed.

(** The theorem at the sample view: the pointer enters the first
    instance of [A] at x = 260, leaves it at x = 275 and comes back at
    x = 265. *)
Lemma hover_reentry_silent_witness :
  let after := pointerMoves (mkRect 0 0) [mkMouseEvent 275 10]
                 (stateOf (canvasMouseMove (mkRect 0 0) (mkMouseEvent 260 10) sampleState)) in
  snd after = [None]
  /\ canvasMouseMove (mkRect 0 0) (mkMouseEvent 265 10) (fst after)
     = (Returned tt, fst after, []).
Proof.
  split; [vm_compute; reflexivity|].
  apply (hover_reentry_silent (mkRect 0 0) sampleState "timelineObject:A:i0"
           (mkMouseEvent 260 10) [mkMouseEvent 275 10] (mkMouseEvent 265 10)).
  - reflexivity.
  - split; [reflexivity|]. split; [reflexivity|].
    eexists. split; [vm_compute; reflexivity|]. split; [reflexivity|].
    intros object [<- | [<- | []]]; vm_compute; intro H; congruence.
  - eexists. split; [vm_compute; left; reflexivity | eexists; reflexivity].
  - vm_compute. left. reflexivity.
  - intros detail Hd. vm_compute in Hd. destruct Hd as [<- | []]. apply not_hover_None.
  - split; [reflexivity|]. split; [reflexivity|].
    eexists. split; [vm_compute; reflexivity|]. split; [reflexivity|].
    intros object [<- | [<- | []]]; vm_compute; intro H; congruence.
Defined.

(* ================================================================= *)
(** * Further properties *)

(** ** trimTimeline, object by object *)

Lemma notIn_get {A : Type} (k : string) (o : Js.Obj A) :
  Js.notIn k (Js.keys o) = true <-> Js.get k o = None.
Proof.
  unfold Js.notIn, Js.keys. rewrite negb_true_iff.
  induction o as [|[k' v] rest IH]; simpl; [tauto|].
  destruct (String.eqb k k'); simpl; [split; discriminate | exact IH].
Qed.

Lemma notIn_false_get {A : Type} (k : string) (o : Js.Obj A) :
  Js.notIn k (Js.keys o) = false -> exists v, Js.get k o = Some v.
Proof.
  intro H. destruct (Js.get k o) as [v|] eqn:E; [now exists v|].
  apply notIn_get in E. congruence.
Qed.

Lemma keys_set_present {A : Type} (k : string) (v : A) (o : Js.Obj A) :
  Js.get k o <> None -> Js.keys (Js.set k v o) = Js.keys o.
Proof.
  induction o as [|[k' v'] rest IH]; simpl; [congruence|].
  destruct (String.eqb k k'); simpl; [reflexivity|].
  intro H. now rewrite IH.
Qed.

Lemma keys_set_absent {A : Type} (k : string) (v : A) (o : Js.Obj A) :
  Js.get k o = None -> Js.keys (Js.set k v o) = Js.keys o ++ [k].
Proof.
  induction o as [|[k' v'] rest IH]; simpl; [reflexivity|].
  destruct (String.eqb k k'); simpl; [discriminate|].
  intro H. now rewrite IH.
Qed.

Lemma get_None_not_key {A : Type} (k : string) (o : Js.Obj A) :
  Js.get k o = None -> ~ In k (Js.keys o).
Proof.
  induction o as [|[k' v'] rest IH]; simpl; [tauto|].
  destruct (String.eqb k k') eqn:E; [discriminate|].
  intros H [Heq | Hin]; [|now apply IH].
  subst. rewrite String.eqb_refl in E. discriminate.
Qed.

Lemma insertInstance_at_same objId obj newInstance acc :
  instancesAt objId (insertInstance objId obj newInstance acc)
  = instancesAt objId acc ++ [newInstance].
Proof.
  unfold insertInstance, instancesAt.
  destruct (Js.notIn objId (Js.keys acc)) eqn:E.
  - apply notIn_get in E. now rewrite E, get_set_same.
  - destruct (notIn_false_get _ _ E) as [o Ho]. now rewrite Ho, get_set_same.
Qed.

Lemma insertInstance_at_other k objId obj newInstance acc :
  k <> objId ->
  Js.get k (insertInstance objId obj newInstance acc) = Js.get k acc.
Proof.
  intro Hne. unfold insertInstance.
  destruct (Js.notIn objId (Js.keys acc)); [now apply get_set_other|].
  destruct (Js.get objId acc); [now apply get_set_other | reflexivity].
Qed.

Lemma trimSteps_at_same trim objId obj l acc :
  instancesAt objId (fold_left (trimStep trim objId obj) l acc)
  = instancesAt objId acc ++ keptInstances trim l.
Proof.
  revert acc. induction l as [|i l IH]; simpl; intro acc; [now rewrite app_nil_r|].
  rewrite IH. unfold trimStep.
  destruct (trimInstance trim i) as [useInstance newInstance].
  destruct (keepInstance useInstance newInstance); simpl.
  - now rewrite insertInstance_at_same, <- app_assoc.
  - reflexivity.
Qed.

Lemma trimSteps_at_other k trim objId obj l acc :
  k <> objId ->
  Js.get k (fold_left (trimStep trim objId obj) l acc) = Js.get k acc.
Proof.
  intro Hne. revert acc. induction l as [|i l IH]; simpl; intro acc; [reflexivity|].
  rewrite IH. unfold trimStep.
  destruct (trimInstance trim i) as [useInstance newInstance].
  destruct (keepInstance useInstance newInstance); [|reflexivity].
  now apply insertInstance_at_other.
Qed.

Lemma trimObjects_at timeline trim k obj ks acc :
  Js.get k (objects timeline) = Some obj -> NoDup ks ->
  instancesAt k (fold_left (trimObject timeline trim) ks acc)
  = instancesAt k acc
    ++ (if in_dec String.string_dec k ks then keptInstances trim (obj_instances obj) else []).
Proof.
  intros Hobj. revert acc. induction ks as [|k' ks IH]; simpl; intros acc Hnd.
  - now rewrite app_nil_r.
  - inversion Hnd as [|? ? Hnotin Hrest]; subst. rewrite (IH _ Hrest).
    destruct (String.string_dec k' k) as [-> | Hne].
    + unfold trimObject. rewrite Hobj, trimSteps_at_same.
      destruct (in_dec String.string_dec k ks) as [Hin | _]; [contradiction|].
      now rewrite app_nil_r.
    + assert (Hsame : instancesAt k (trimObject timeline trim acc k') = instancesAt k acc).
      { unfold instancesAt, trimObject.
        destruct (Js.get k' (objects timeline)); [|reflexivity].
        rewrite trimSteps_at_other; [reflexivity | congruence]. }
      rewrite Hsame.
      destruct (in_dec String.string_dec k ks) as [Hin | Hnin];
        destruct (in_dec String.string_dec k ks); try contradiction; reflexivity.
Qed.

(** X1.  In a schedule whose object ids are distinct, the instances
    that [trimTimeline] keeps for an object are the clamped instances
    of that object that pass the final test, in their input order. *)
Theorem trim_per_object (timeline : ResolvedTimeline) (trim : TrimProperties)
    (objId : string) (obj : ResolvedTimelineObject) :
  NoDup (Js.keys (objects timeline)) ->
  Js.get objId (objects timeline) = Some obj ->
  instancesAt objId (objects (trimTimeline timeline trim))
  = keptInstances trim (obj_instances obj).
Proof.
  intros Hnd Hobj. unfold trimTimeline. simpl.
  rewrite (trimObjects_at timeline trim objId obj _ [] Hobj Hnd).
  destruct (in_dec String.string_dec objId (Js.keys (objects timeline))) as [_ | Hn];
    [reflexivity|].
  exfalso. apply Hn. exact (get_keys _ _ _ Hobj).
Qed.

Lemma trim_per_object_witness :
  instancesAt "A" (objects (trimTimeline sampleTimeline {| trim_start := Some 10; trim_end := Some 30 |}))
  = [mkInstance "i0" 10 (Some 15); mkInstance "i1" 20 (Some 30)].
Proof.
  rewrite (trim_per_object sampleTimeline _ "A" sampleObject).
  - reflexivity.
  - simpl. constructor; [intros [] | constructor].
  - reflexivity.
Defined.

(** Every entry of a map of objects holds an instance, and no id occurs twice. *)
Lemma insertInstance_wellformed objId obj newInstance acc :
  NoDup (Js.keys acc) /\ (forall k o, In (k, o) acc -> obj_instances o <> []) ->
  NoDup (Js.keys (insertInstance objId obj newInstance acc))
  /\ (forall k o, In (k, o) (insertInstance objId obj newInstance acc) -> obj_instances o <> []).
Proof.
  intros [Hnd Hne]. unfold insertInstance.
  destruct (Js.notIn objId (Js.keys acc)) eqn:E.
  - apply notIn_get in E. split.
    + rewrite (keys_set_absent _ _ _ E).
      apply NoDup_app; [exact Hnd | constructor; [intros [] | constructor] |].
      intros x Hx [<- | []]. exact (get_None_not_key _ _ E Hx).
    + intros k o Hin. apply In_set in Hin. destruct Hin as [Hin | [_ ->]];
        [now apply (Hne k) | discriminate].
  - destruct (notIn_false_get _ _ E) as [o0 Ho]. rewrite Ho. split.
    + rewrite keys_set_present; [exact Hnd | congruence].
    + intros k o Hin. apply In_set in Hin. destruct Hin as [Hin | [_ ->]];
        [now apply (Hne k)|].
      unfold obj_instances. simpl. intro H. now apply app_eq_nil in H as [_ H].
Qed.

(** X2.  In the schedule that [trimTimeline] returns no object id
    occurs twice and every object holds at least one instance: an
    object none of whose instances is kept is left out. *)
Theorem trim_result_wellformed (timeline : ResolvedTimeline) (trim : TrimProperties) :
  NoDup (Js.keys (objects (trimTimeline timeline trim)))
  /\ (forall k o, Js.get k (objects (trimTimeline timeline trim)) = Some o ->
                  obj_instances o <> []).
Proof.
  assert (H : NoDup (Js.keys (objects (trimTimeline timeline trim)))
              /\ (forall k o, In (k, o) (objects (trimTimeline timeline trim)) ->
                              obj_instances o <> [])).
  { unfold trimTimeline. simpl.
    apply fold_left_invariant; [split; [constructor | intros k o []]|].
    intros acc objId _ Hacc. unfold trimObject.
    destruct (Js.get objId (objects timeline)) as [obj|]; [|exact Hacc].
    apply fold_left_invariant; [exact Hacc|].
    intros acc' instance _ Hacc'. unfold trimStep.
    destruct (trimInstance trim instance) as [useInstance newInstance].
    destruct (keepInstance useInstance newInstance); [|exact Hacc'].
    now apply insertInstance_wellformed. }
  destruct H as [Hnd Hne]. split; [exact Hnd|].
  intros k o Hget. apply (Hne k). now apply get_In.
Qed.

(** A kept instance of a trim at [end: T] is bounded, non-empty, and
    ends at [T] or before. *)
Lemma trimInstance_end T instance useInstance newInstance :
  trimInstance {| trim_start := None; trim_end := Some T |} instance
    = (useInstance, newInstance) ->
  keepInstance useInstance newInstance = true ->
  exists e, inst_end newInstance = Some e /\ inst_start newInstance < e /\ e <= T.
Proof.
  intros Htrim Hkeep. unfold trimInstance in Htrim. simpl in Htrim.
  destruct (Js.truthy T) eqn:HT.
  2:{ inversion Htrim; subst. discriminate. }
  destruct (Js.ltb (inst_start instance) T) eqn:Hlt.
  2:{ inversion Htrim; subst. discriminate. }
  apply ltb_spec in Hlt.
  destruct (Js.ext_gtb (Js.orInfinity (inst_end instance)) T) eqn:Hgt;
    inversion Htrim; subst; clear Htrim.
  - exists T. simpl. repeat split; [exact Hlt | apply Qle_refl].
  - unfold keepInstance in Hkeep. simpl in Hkeep.
    unfold Js.orInfinity, Js.truthyOpt in *.
    destruct (inst_end newInstance) as [e|]; [|discriminate].
    destruct (Js.truthy e); [|discriminate]. simpl in *.
    exists e. repeat split.
    + now apply ltb_spec.
    + now apply ltb_false in Hgt.
Qed.

(** X3.  Every instance of [trimTimeline(schedule, { end: T })] has a
    non-null end, starts before it, and ends at [T] or before: an open
    instance is closed at [T], whatever the schedule and [T]. *)
Theorem trim_end_bounds (timeline : ResolvedTimeline) (T : Q) (i : TimelineObjectInstance) :
  In i (instancesOf (trimTimeline timeline {| trim_start := None; trim_end := Some T |})) ->
  exists e, inst_end i = Some e /\ inst_start i < e /\ e <= T.
Proof.
  intro Hin. apply instancesOf_In in Hin. destruct Hin as (k & o & Hin & Hi).
  revert k o i Hin Hi.
  change (AllInstances (fun i => exists e, inst_end i = Some e /\ inst_start i < e /\ e <= T)
    (objects (trimTimeline timeline {| trim_start := None; trim_end := Some T |}))).
  unfold trimTimeline. simpl.
  apply fold_left_invariant; [intros k o i []|].
  intros acc objId _ Hacc. unfold trimObject.
  destruct (Js.get objId (objects timeline)) as [obj|]; [|exact Hacc].
  apply fold_left_invariant; [exact Hacc|].
  intros acc' instance _ Hacc'. unfold trimStep.
  destruct (trimInstance _ instance) as [useInstance newInstance] eqn:Htrim.
  destruct (keepInstance useInstance newInstance) eqn:Hkeep; [|exact Hacc'].
  apply insertInstance_all; [exact Hacc'|].
  exact (trimInstance_end T instance useInstance newInstance Htrim Hkeep).
Qed.

Lemma trim_end_bounds_witness :
  exists e, inst_end (mkInstance "i1" 20 (Some 30)) = Some e /\ 20 < e /\ e <= 30.
Proof.
  apply (trim_end_bounds sampleTimeline 30 (mkInstance "i1" 20 (Some 30))).
  simpl. right. left. reflexivity.
Defined.

(** ** mergeTimelineObjects, object by object *)

Section MergeLookup.

Variable mergeBlob : Blob -> Blob -> Blob.

(** lodash.merge on a map with distinct keys, as a lookup. *)
Lemma mergeMap_steps {A : Type} (f : option A -> A -> A) (src : Js.Obj A)
    (k : string) (ks : list string) (acc : Js.Obj A) :
  NoDup ks ->
  Js.get k
    (fold_left (fun acc key =>
                  match Js.get key src with
                  | Some srcValue => Js.set key (f (Js.get key acc) srcValue) acc
                  | None => acc
                  end) ks acc)
  = if in_dec String.string_dec k ks
    then match Js.get k src with
         | Some srcValue => Some (f (Js.get k acc) srcValue)
         | None => Js.get k acc
         end
    else Js.get k acc.
Proof.
  revert acc. induction ks as [|k' ks IH]; intros acc Hnd; [reflexivity|].
  inversion Hnd as [|? ? Hnotin Hrest]; subst. simpl fold_left. rewrite (IH _ Hrest).
  destruct (String.string_dec k' k) as [-> | Hne].
  - destruct (in_dec String.string_dec k ks) as [Hin | _]; [contradiction|].
    destruct (in_dec String.string_dec k (k :: ks)) as [_ | Hn]; [|exfalso; apply Hn; now left].
    destruct (Js.get k src); [apply get_set_same | reflexivity].
  - assert (Hsame : Js.get k (match Js.get k' src with
                              | Some srcValue => Js.set k' (f (Js.get k' acc) srcValue) acc
                              | None => acc
                              end) = Js.get k acc).
    { destruct (Js.get k' src); [|reflexivity]. apply get_set_other. congruence. }
    rewrite Hsame.
    destruct (in_dec String.string_dec k ks) as [Hin | Hnin];
      destruct (in_dec String.string_dec k (k' :: ks)) as [Hin' | Hnin']; try reflexivity.
    + exfalso. apply Hnin'. now right.
    + destruct Hin' as [Heq | Hin']; [congruence | contradiction].
Qed.

Lemma mergeMap_get {A : Type} (f : option A -> A -> A) (dst src : Js.Obj A) (k : string) :
  NoDup (Js.keys src) ->
  Js.get k (mergeMap f dst src)
  = match Js.get k src with
    | Some srcValue => Some (f (Js.get k dst) srcValue)
    | None => Js.get k dst
    end.
Proof.
  intro Hnd. unfold mergeMap. rewrite mergeMap_steps by exact Hnd.
  destruct (in_dec String.string_dec k (Js.keys src)) as [_ | Hn]; [reflexivity|].
  destruct (Js.get k src) as [v|] eqn:E; [|reflexivity].
  exfalso. apply Hn. exact (get_keys _ _ _ E).
Qed.

(** Stitching keeps the ids of the present map. *)
Lemma stitchObject_keys acc k :
  Js.keys (snd (stitchObject acc k)) = Js.keys (snd acc).
Proof.
  unfold stitchObject. destruct acc as [p q]. simpl.
  destruct (Js.get k p) as [po|]; [|reflexivity].
  destruct (Js.get k q) as [qo|] eqn:Hq; [|reflexivity].
  destruct (sameDefinition po qo); [|reflexivity].
  destruct (stitchPast _ _ _ _) as [pi' qi']. simpl.
  apply keys_set_present. congruence.
Qed.

Lemma stitch_all_keys ks acc :
  Js.keys (snd (fold_left stitchObject ks acc)) = Js.keys (snd acc).
Proof.
  revert acc. induction ks as [|k ks IH]; simpl; intro acc; [reflexivity|].
  now rewrite IH, stitchObject_keys.
Qed.

(** Stitching leaves alone an id that is missing on one side or whose
    definitions differ. *)
Lemma stitchObject_frame acc k k' :
  notStitched (Js.get k (fst acc)) (Js.get k (snd acc)) ->
  Js.get k (fst (stitchObject acc k')) = Js.get k (fst acc)
  /\ Js.get k (snd (stitchObject acc k')) = Js.get k (snd acc).
Proof.
  intro H. destruct (String.string_dec k' k) as [-> | Hne].
  - unfold stitchObject. destruct acc as [p q]. simpl in *.
    destruct (Js.get k p) as [po|] eqn:Hp; [|simpl; now split].
    destruct (Js.get k q) as [qo|] eqn:Hq; [|simpl; now split].
    simpl in H. rewrite H. simpl. now split.
  - now apply stitchObject_other.
Qed.

Lemma stitch_all_frame ks acc k :
  notStitched (Js.get k (fst acc)) (Js.get k (snd acc)) ->
  Js.get k (fst (fold_left stitchObject ks acc)) = Js.get k (fst acc)
  /\ Js.get k (snd (fold_left stitchObject ks acc)) = Js.get k (snd acc).
Proof.
  revert acc. induction ks as [|k' ks IH]; simpl; intros acc H; [now split|].
  destruct (stitchObject_frame acc k k' H) as [Ep Eq].
  assert (H' : notStitched (Js.get k (fst (stitchObject acc k')))
                           (Js.get k (snd (stitchObject acc k')))).
  { exact (eq_ind_r (fun a => notStitched a _)
             (eq_ind_r (fun b => notStitched _ b) H Eq) Ep). }
  destruct (IH (stitchObject acc k') H') as [Ep' Eq'].
  split; [exact (eq_trans Ep' Ep) | exact (eq_trans Eq' Eq)].
Qed.

Lemma mergeArray_instances (dst src : list TimelineObjectInstance) :
  mergeArray mergeInstance dst src = src ++ skipn (List.length src) dst.
Proof.
  revert dst. induction src as [|s src IH]; intro dst; [reflexivity|].
  destruct dst as [|d dst]; simpl; rewrite IH; [|reflexivity].
  now destruct src.
Qed.

End MergeLookup.

Lemma mergeTimelineObjects_get
    (mergeBlob : Blob -> Blob -> Blob) (past present : ResolvedTimeline) (objId : string) :
  NoDup (Js.keys (objects present)) ->
  notStitched (Js.get objId (objects past)) (Js.get objId (objects present)) ->
  Js.get objId (objects (mergeTimelineObjects mergeBlob past present))
  = match Js.get objId (objects present) with
    | Some presentObj => Some (mergeObject mergeBlob (Js.get objId (objects past)) presentObj)
    | None => Js.get objId (objects past)
    end.
Proof.
  intros Hnd Hns. unfold mergeTimelineObjects.
  pose proof (stitch_all_frame (Js.keys (objects past)) (objects past, objects present)
                objId Hns) as [Ep Eq].
  pose proof (stitch_all_keys (Js.keys (objects past)) (objects past, objects present)) as Ek.
  destruct (fold_left stitchObject _ _) as [p q]. simpl in *.
  rewrite mergeMap_get by (now rewrite Ek). now rewrite Ep, Eq.
Qed.

(** X4.  For an object id that is missing from one schedule, or whose
    two definitions differ outside the resolved block,
    [mergeTimelineObjects] looks up as lodash.merge alone: an object of
    [past] only is returned as it is, an object of [present] only is
    added as it is, and an object of both is the present one laid over
    the past one.  The ids of [present] are distinct. *)
Theorem merge_lookup_unstitched
    (mergeBlob : Blob -> Blob -> Blob) (past present : ResolvedTimeline) (objId : string) :
  NoDup (Js.keys (objects present)) ->
  notStitched (Js.get objId (objects past)) (Js.get objId (objects present)) ->
  Js.get objId (objects (mergeTimelineObjects mergeBlob past present))
  = match Js.get objId (objects present) with
    | Some presentObj => Some (mergeObject mergeBlob (Js.get objId (objects past)) presentObj)
    | None => Js.get objId (objects past)
    end.
Proof. apply mergeTimelineObjects_get. Qed.

Lemma merge_lookup_unstitched_witness :
  Js.get "B" (objects (mergeTimelineObjects (fun _ src => src) sampleTimeline
                (mkTimeline "" [] [("B", sampleObject)] "" "")))
  = Some sampleObject.
Proof.
  rewrite (merge_lookup_unstitched (fun _ src => src) sampleTimeline _ "B").
  - reflexivity.
  - simpl. constructor; [intros [] | constructor].
  - exact I.
Defined.

(** X5.  When an object id is in both schedules with definitions that
    differ outside the resolved block, the merged object holds the
    instances of [present], followed by the instances of [past] whose
    index lies beyond them: the past instances below that index are
    overwritten, not kept beside the present ones. *)
Theorem merge_differing_instances
    (mergeBlob : Blob -> Blob -> Blob) (past present : ResolvedTimeline) (objId : string)
    (pastObj presentObj : ResolvedTimelineObject) :
  NoDup (Js.keys (objects present)) ->
  Js.get objId (objects past) = Some pastObj ->
  Js.get objId (objects present) = Some presentObj ->
  sameDefinition pastObj presentObj = false ->
  instancesAt objId (objects (mergeTimelineObjects mergeBlob past present))
  = obj_instances presentObj
    ++ skipn (List.length (obj_instances presentObj)) (obj_instances pastObj).
Proof.
  intros Hnd Hp Hq Hdiff. unfold instancesAt.
  rewrite mergeTimelineObjects_get; [|exact Hnd | now rewrite Hp, Hq].
  rewrite Hp, Hq. unfold obj_instances. simpl. apply mergeArray_instances.
Qed.

Lemma merge_differing_instances_witness :
  instancesAt "A" (objects (mergeTimelineObjects (fun _ src => src) sampleTimeline
     (mkTimeline "" [] [("A", mkObject "other" "enable" "A" "0"
                                (mkResolved [mkInstance "n0" 40 None] None true false))] "" "")))
  = [mkInstance "n0" 40 None; mkInstance "i1" 20 None].
Proof.
  rewrite (merge_differing_instances (fun _ src => src) sampleTimeline _ "A" sampleObject
             (mkObject "other" "enable" "A" "0"
                (mkResolved [mkInstance "n0" 40 None] None true false))).
  - reflexivity.
  - simpl. constructor; [intros [] | constructor].
  - reflexivity.
  - reflexivity.
  - reflexivity.
Defined.

Section MergeStitched.

Variable mergeBlob : Blob -> Blob -> Blob.

Lemma stitch_all_other (O : string) ks acc :
  ~ In O ks ->
  Js.get O (fst (fold_left stitchObject ks acc)) = Js.get O (fst acc)
  /\ Js.get O (snd (fold_left stitchObject ks acc)) = Js.get O (snd acc).
Proof.
  revert acc. induction ks as [|k ks IH]; simpl; intros acc Hn; [now split|].
  assert (Hne : k <> O) by (intro; subst; apply Hn; now left).
  destruct (stitchObject_other O acc k Hne) as [Ep Eq].
  destruct (IH (stitchObject acc k)) as [Ep' Eq']; [tauto|].
  split; [exact (eq_trans Ep' Ep) | exact (eq_trans Eq' Eq)].
Qed.

(** With distinct ids, an object of both schedules with equal
    definitions is stitched once. *)
Lemma stitch_all_at (O : string) (pastObj presentObj : ResolvedTimelineObject) ks acc :
  NoDup ks -> In O ks ->
  Js.get O (fst acc) = Some pastObj -> Js.get O (snd acc) = Some presentObj ->
  sameDefinition pastObj presentObj = true ->
  let stitched := stitchPast (List.length (obj_instances pastObj)) 0
                             (obj_instances pastObj) (obj_instances presentObj) in
  Js.get O (fst (fold_left stitchObject ks acc))
  = Some (set_obj_instances pastObj (fst stitched))
  /\ Js.get O (snd (fold_left stitchObject ks acc))
     = Some (set_obj_instances presentObj (snd stitched)).
Proof.
  intros Hnd Hin Hp Hq Hsame stitched. revert acc Hin Hp Hq.
  induction ks as [|k ks IH]; intros acc Hin Hp Hq; [destruct Hin|].
  inversion Hnd as [|? ? Hnotin Hrest]; subst. simpl fold_left.
  destruct (String.string_dec k O) as [-> | Hne].
  - destruct (stitch_all_other O ks (stitchObject acc O) Hnotin) as [Ep Eq].
    assert (Hstep : Js.get O (fst (stitchObject acc O))
                    = Some (set_obj_instances pastObj (fst stitched))
                    /\ Js.get O (snd (stitchObject acc O))
                       = Some (set_obj_instances presentObj (snd stitched))).
    { unfold stitchObject. destruct acc as [p q]. simpl in Hp, Hq.
      rewrite Hp, Hq, Hsame. subst stitched.
      destruct (stitchPast _ _ _ _) as [pi' qi']. simpl.
      split; apply get_set_same. }
    destruct Hstep as [Sp Sq].
    split; [exact (eq_trans Ep Sp) | exact (eq_trans Eq Sq)].
  - destruct (stitchObject_other O acc k Hne) as [Ep Eq].
    apply (IH Hrest).
    + destruct Hin as [-> | Hin]; [contradiction | exact Hin].
    + exact (eq_trans Ep Hp).
    + exact (eq_trans Eq Hq).
Qed.

(** A present instance that no later past instance touches stays as
    it is, and so does the past array. *)
Lemma stitchPast_inert (todo k : nat) (l : list TimelineObjectInstance)
    (q : TimelineObjectInstance) :
  (forall i r, (k <= i)%nat -> nth_error l i = Some r -> touching r q = false) ->
  stitchPast todo k l [q] = (l, [q]).
Proof.
  revert k. induction todo as [|todo IH]; intros k H; [reflexivity|].
  simpl. destruct (nth_error l k) as [r|] eqn:E.
  - rewrite (H k r (Nat.le_refl k) E). simpl. apply IH.
    intros i r' Hi. apply H. apply Nat.le_trans with (S k); [apply Nat.le_succ_diag_r | exact Hi].
  - apply IH. intros i r' Hi. apply H.
    apply Nat.le_trans with (S k); [apply Nat.le_succ_diag_r | exact Hi].
Qed.

Lemma removelast_cons_nth {A : Type} (a : A) (rest : list A) (i : nat) (r : A) :
  (1 <= i)%nat -> nth_error (removelast (a :: rest)) i = Some r -> In r rest.
Proof.
  intros Hi H. destruct rest as [|b rest]; [destruct i; discriminate|].
  change (removelast (a :: b :: rest)) with (a :: removelast (b :: rest)) in H.
  destruct i as [|i]; [inversion Hi|]. simpl in H.
  apply nth_error_In in H.
  assert (Hsub : forall (l : list A) x, In x (removelast l) -> In x l).
  { induction l as [|y l IHl]; intros x Hx; [exact Hx|].
    destruct l as [|z l]; [destruct Hx|].
    change (removelast (y :: z :: l)) with (y :: removelast (z :: l)) in Hx.
    destruct Hx as [<- | Hx]; [now left | right; now apply IHl]. }
  now apply Hsub.
Qed.

End MergeStitched.

(** X6.  When object [O] is in both schedules with equal definitions,
    its first past instance touches the single present instance and no
    other past instance touches the widened one, the merged object
    holds the widened present instance followed by the other past
    instances but the last: [splice(-1, 1)] removes the last past
    instance, and lodash.merge writes over the first, which was left
    in the array.  The ids of each schedule are distinct. *)
Theorem merge_drops_last_past
    (mergeBlob : Blob -> Blob -> Blob) (past present : ResolvedTimeline) (O : string)
    (pastObj presentObj : ResolvedTimelineObject)
    (first : TimelineObjectInstance) (others : list TimelineObjectInstance)
    (presentInstance : TimelineObjectInstance) :
  NoDup (Js.keys (objects past)) ->
  NoDup (Js.keys (objects present)) ->
  Js.get O (objects past) = Some pastObj ->
  Js.get O (objects present) = Some presentObj ->
  sameDefinition pastObj presentObj = true ->
  obj_instances pastObj = first :: others ->
  obj_instances presentObj = [presentInstance] ->
  touching first presentInstance = true ->
  (forall r, In r others ->
             touching r (with_start presentInstance (inst_start first)) = false) ->
  instancesAt O (objects (mergeTimelineObjects mergeBlob past present))
  = with_start presentInstance (inst_start first) :: removelast others.
Proof.
  intros Hndp Hndq Hp Hq Hsame Hpast Hpres Htouch Hothers.
  unfold mergeTimelineObjects, instancesAt.
  pose proof (stitch_all_at mergeBlob O pastObj presentObj (Js.keys (objects past))
                (objects past, objects present) Hndp (get_keys _ _ _ Hp) Hp Hq Hsame)
    as [Ep Eq].
  pose proof (stitch_all_keys (Js.keys (objects past)) (objects past, objects present)) as Ek.
  destruct (fold_left stitchObject _ _) as [p q]. simpl in Ep, Eq, Ek. simpl.
  rewrite mergeMap_get by (now rewrite Ek). rewrite Eq, Ep.
  rewrite Hpast, Hpres. simpl. rewrite Htouch. simpl.
  rewrite stitchPast_inert.
  - unfold obj_instances. simpl.
    destruct others as [|b others]; reflexivity.
  - intros i r Hi Hnth. apply Hothers.
    exact (removelast_cons_nth first others i r Hi Hnth).
Qed.

Lemma merge_drops_last_past_witness :
  instancesAt "A" (objects (mergeTimelineObjects (fun _ src => src)
     (mkTimeline "" [] [("A", mkObject "c" "e" "A" "0"
                                (mkResolved [mkInstance "a" 0 (Some 10); mkInstance "b" 2 (Some 4)]
                                            None true false))] "" "")
     (mkTimeline "" [] [("A", mkObject "c" "e" "A" "0"
                                (mkResolved [mkInstance "n" 10 (Some 20)] None true false))] "" "")))
  = [mkInstance "n" 0 (Some 20)].
Proof.
  rewrite (merge_drops_last_past (fun _ src => src) _ _ "A"
             (mkObject "c" "e" "A" "0"
                (mkResolved [mkInstance "a" 0 (Some 10); mkInstance "b" 2 (Some 4)]
                            None true false))
             (mkObject "c" "e" "A" "0" (mkResolved [mkInstance "n" 10 (Some 20)] None true false))
             (mkInstance "a" 0 (Some 10)) [mkInstance "b" 2 (Some 4)]
             (mkInstance "n" 10 (Some 20))).
  - reflexivity.
  - simpl. constructor; [intros [] | constructor].
  - simpl. constructor; [intros [] | constructor].
  - reflexivity.
  - reflexivity.
  - reflexivity.
  - reflexivity.
  - reflexivity.
  - reflexivity.
  - intros r [<- | []]. reflexivity.
Defined.

(** ** Coordinate mapping, further *)

Section Coordinates.

Variable s : State.
Hypothesis window : drawTimeStart s < drawTimeEnd s.
Hypothesis width : 0 <= timelineWidth s.

Lemma ratio_bounds (t : Q) :
  drawTimeStart s <= t -> t <= drawTimeEnd s ->
  0 <= (t - drawTimeStart s) / (drawTimeEnd s - drawTimeStart s) <= 1.
Proof.
  intros Hlo Hhi. split.
  - apply Qle_shift_div_l; lra.
  - apply Qle_shift_div_r; lra.
Qed.

Lemma timeToXCoord_inside (t : Q) :
  drawTimeStart s <= t -> t <= drawTimeEnd s ->
  timeToXCoord s t
  = (t - drawTimeStart s) / (drawTimeEnd s - drawTimeStart s) * timelineWidth s
    + timelineStart s.
Proof.
  intros Hlo Hhi. unfold timeToXCoord.
  assert (E1 : Js.ltb t (drawTimeStart s) = false) by (apply ltb_false; lra).
  assert (E2 : Js.gtb t (drawTimeEnd s) = false) by (apply ltb_false; lra).
  now rewrite E1, E2.
Qed.

Lemma timeToXCoord_beyond (t : Q) :
  drawTimeEnd s < t -> timeToXCoord s t = timelineWidth s + timelineStart s.
Proof.
  intro H. unfold timeToXCoord.
  assert (E1 : Js.ltb t (drawTimeStart s) = false) by (apply ltb_false; lra).
  assert (E2 : Js.gtb t (drawTimeEnd s) = true) by (now apply gtb_spec).
  now rewrite E1, E2.
Qed.

Lemma timeToXCoord_from_start (t : Q) :
  drawTimeStart s <= t ->
  timelineStart s <= timeToXCoord s t <= timelineStart s + timelineWidth s.
Proof.
  intro Hlo. destruct (Qlt_le_dec (drawTimeEnd s) t) as [Hhi | Hhi].
  - rewrite (timeToXCoord_beyond t Hhi). lra.
  - rewrite (timeToXCoord_inside t Hlo Hhi).
    pose proof (ratio_bounds t Hlo Hhi) as [H0 H1].
    set (r := (t - drawTimeStart s) / (drawTimeEnd s - drawTimeStart s)) in *.
    split; nra.
Qed.

Lemma timeToXCoord_increasing (t1 t2 : Q) :
  drawTimeStart s <= t1 -> t1 <= t2 -> timeToXCoord s t1 <= timeToXCoord s t2.
Proof.
  intros Hlo H12. destruct (Qlt_le_dec (drawTimeEnd s) t2) as [Hhi | Hhi].
  - rewrite (timeToXCoord_beyond t2 Hhi).
    pose proof (timeToXCoord_from_start t1 Hlo). lra.
  - rewrite (timeToXCoord_inside t1), (timeToXCoord_inside t2); try lra.
    unfold Qdiv.
    assert (Hinv : 0 < / (drawTimeEnd s - drawTimeStart s)) by (apply Qinv_lt_0_compat; lra).
    set (inv := / (drawTimeEnd s - drawTimeStart s)) in *.
    assert (H : 0 <= (t2 - t1) * inv) by nra.
    nra.
Qed.

End Coordinates.

Lemma timeToXCoord_before (s : State) (t : Q) :
  t < drawTimeStart s -> timeToXCoord s t = -1.
Proof. intro H. unfold timeToXCoord. apply ltb_spec in H. now rewrite H. Qed.

(** X7.  In a window with [drawTimeStart < drawTimeEnd] on a timeline
    of non-negative width, [timeToXCoord] gives [-1] for a time before
    the window and a position from [timelineStart] to
    [timelineStart + timelineWidth] for any other time. *)
Theorem timeToXCoord_range (s : State) (t : Q) :
  drawTimeStart s < drawTimeEnd s -> 0 <= timelineWidth s ->
  (t < drawTimeStart s -> timeToXCoord s t = -1)
  /\ (drawTimeStart s <= t ->
      timelineStart s <= timeToXCoord s t <= timelineStart s + timelineWidth s).
Proof.
  intros Hwin Hw. split.
  - apply timeToXCoord_before.
  - now apply timeToXCoord_from_start.
Qed.

(** A comparison of two closed rationals, by evaluation. *)
Ltac qcmp := vm_compute; first [reflexivity | discriminate].

Lemma timeToXCoord_range_witness :
  250 <= timeToXCoord sampleState 100 <= 250 + 750.
Proof.
  destruct (timeToXCoord_range sampleState 100) as [_ H]; [qcmp | qcmp |].
  apply H. qcmp.
Defined.

(** X8.  In such a window [timeToXCoord] is monotone from the window
    start on: a later time never maps to an earlier pixel. *)
Theorem timeToXCoord_monotone (s : State) (t1 t2 : Q) :
  drawTimeStart s < drawTimeEnd s -> 0 <= timelineWidth s ->
  drawTimeStart s <= t1 -> t1 <= t2 ->
  timeToXCoord s t1 <= timeToXCoord s t2.
Proof. intros. now apply timeToXCoord_increasing. Qed.

Lemma timeToXCoord_monotone_witness :
  timeToXCoord sampleState 100 <= timeToXCoord sampleState 900.
Proof.
  apply (timeToXCoord_monotone sampleState 100 900); qcmp.
Defined.

(** [cursorPosToTime_timeToXCoord] at the sample view. *)
Lemma cursorPosToTime_timeToXCoord_witness :
  cursorPosToTime sampleState (timeToXCoord sampleState 300) == 300.
Proof.
  apply (cursorPosToTime_timeToXCoord sampleState 300); qcmp.
Defined.

Lemma cursorPosToTime_inside (s : State) (x : Q) :
  timelineStart s < x -> x < timelineStart s + timelineWidth s ->
  cursorPosToTime s x
  = drawTimeStart s + scaledDrawTimeRange s * ((x - timelineStart s) / timelineWidth s).
Proof.
  intros Hlo Hhi.
  assert (E1 : Js.leb x (timelineStart s) = false) by (now apply leb_false).
  assert (E2 : Js.geb x (timelineStart s + timelineWidth s) = false) by (now apply geb_false).
  unfold cursorPosToTime, getCursorPositionAcrossTimeline. now rewrite E1, E2.
Qed.

(** X9.  [cursorPosToTime] gives [-1] for a pixel at or beyond an edge
    of the timeline, and for a pixel strictly inside it a time from
    [drawTimeStart] to [drawTimeStart + scaledDrawTimeRange].  The
    scaled draw range is not negative. *)
Theorem cursorPosToTime_range (s : State) (x : Q) :
  0 <= scaledDrawTimeRange s ->
  (x <= timelineStart s \/ timelineStart s + timelineWidth s <= x ->
   cursorPosToTime s x = -1)
  /\ (timelineStart s < x -> x < timelineStart s + timelineWidth s ->
      drawTimeStart s <= cursorPosToTime s x <= drawTimeStart s + scaledDrawTimeRange s).
Proof.
  intro Hrange. split.
  - intro Hout. unfold cursorPosToTime.
    destruct Hout as [H | H].
    + apply leb_spec in H. now rewrite H.
    + apply geb_spec in H. rewrite H. now rewrite orb_true_r.
  - intros Hlo Hhi. rewrite (cursorPosToTime_inside s x Hlo Hhi).
    assert (Hw : 0 < timelineWidth s) by lra.
    assert (Hr0 : 0 <= (x - timelineStart s) / timelineWidth s)
      by (apply Qle_shift_div_l; lra).
    assert (Hr1 : (x - timelineStart s) / timelineWidth s <= 1)
      by (apply Qle_shift_div_r; lra).
    set (r := (x - timelineStart s) / timelineWidth s) in *.
    split; nra.
Qed.

Lemma cursorPosToTime_range_witness :
  drawTimeStart sampleState <= cursorPosToTime sampleState 400
  <= drawTimeStart sampleState + scaledDrawTimeRange sampleState.
Proof.
  destruct (cursorPosToTime_range sampleState 400) as [_ H]; [qcmp|].
  apply H; qcmp.
Defined.

(** X10.  [cursorPosToTime] is monotone across the timeline: of two
    pixels strictly inside it, the one further right never maps to an
    earlier time.  The scaled draw range is not negative. *)
Theorem cursorPosToTime_monotone (s : State) (x1 x2 : Q) :
  0 <= scaledDrawTimeRange s ->
  timelineStart s < x1 -> x1 <= x2 -> x2 < timelineStart s + timelineWidth s ->
  cursorPosToTime s x1 <= cursorPosToTime s x2.
Proof.
  intros Hrange Hlo Hle Hhi.
  rewrite (cursorPosToTime_inside s x1), (cursorPosToTime_inside s x2); try lra.
  assert (Hw : 0 < timelineWidth s) by lra.
  assert (Hinv : 0 < / timelineWidth s) by (now apply Qinv_lt_0_compat).
  unfold Qdiv. set (inv := / timelineWidth s) in *.
  assert (H : 0 <= (x2 - x1) * inv) by nra.
  nra.
Qed.

Lemma cursorPosToTime_monotone_witness :
  cursorPosToTime sampleState 300 <= cursorPosToTime sampleState 900.
Proof.
  apply (cursorPosToTime_monotone sampleState 300 900); qcmp.
Defined.

(** ** Viewport, further *)

(** X12.  At a non-zero scale, [canvasScrollByDeltaX] leaves the state
    as it is exactly when the clamped target
    [max(drawTimeStart + deltaX / pixelsWidthPerUnitTime, 0)] equals
    the current start; otherwise it moves the start to the target, sets
    the end to the target plus the scaled draw range and changes no
    other field. *)
Theorem canvasScrollByDeltaX_window (deltaX : Q) (s : State) :
  ~ pixelsWidthPerUnitTime s == 0 ->
  let target := Js.max (drawTimeStart s + deltaX / pixelsWidthPerUnitTime s) 0 in
  let s' := canvasScrollByDeltaX deltaX s in
  (target == drawTimeStart s -> s' = s)
  /\ (~ target == drawTimeStart s ->
      s' = set_drawTimeEnd (target + scaledDrawTimeRange s) (set_drawTimeStart target s)).
Proof.
  intros _. simpl.
  unfold canvasScrollByDeltaX. fold (Js.max (drawTimeStart s + deltaX / pixelsWidthPerUnitTime s) 0).
  destruct (Js.eqb _ (drawTimeStart s)) eqn:E; unfold Js.eqb in E.
  - split; [reflexivity|]. intro H. exfalso. apply H. now apply Qeq_bool_iff.
  - split; [|reflexivity]. intro H. apply Qeq_bool_iff in H. congruence.
Qed.

Lemma canvasScrollByDeltaX_window_witness :
  drawTimeStart (canvasScrollByDeltaX 150 sampleState) == 100.
Proof.
  destruct (canvasScrollByDeltaX_window 150 sampleState) as [_ H]; [qcmp|].
  rewrite H; [vm_compute; reflexivity | qcmp].
Defined.

(** X13.  After [zoomUnderCursor] with a scaled draw range that is not
    negative, the window starts at 0 or later and does not end before
    it starts; the scaled draw range is the draw range times the zoom
    percentage. *)
Theorem zoomUnderCursor_window (cursorX : Q) (s : State) :
  0 <= drawTimeRange s * (timelineZoom s / 100) ->
  let s' := zoomUnderCursor cursorX s in
  0 <= drawTimeStart s' <= drawTimeEnd s'
  /\ scaledDrawTimeRange s' = drawTimeRange s * (timelineZoom s / 100).
Proof.
  intro Hrange. simpl. unfold zoomUnderCursor. simpl.
  set (range := drawTimeRange s * (timelineZoom s / 100)) in *.
  set (target := cursorPosToTime s cursorX
                 - getCursorPositionAcrossTimeline s cursorX * range).
  destruct (Js.ltb target 0) eqn:E; simpl.
  - apply ltb_spec in E. split; [split; lra | reflexivity].
  - apply ltb_false in E. split; [split; lra | reflexivity].
Qed.

Lemma zoomUnderCursor_window_witness :
  0 <= drawTimeStart (zoomUnderCursor 400 (set_timelineZoom 50 sampleState))
  <= drawTimeEnd (zoomUnderCursor 400 (set_timelineZoom 50 sampleState)).
Proof.
  destruct (zoomUnderCursor_window 400 (set_timelineZoom 50 sampleState)) as [H _];
    [qcmp | exact H].
Defined.

Section Succeeds.

Variable P : State -> Prop.

Lemma succeeds_bind {A B} (m : M A) (k : A -> M B) :
  succeeds P m -> (forall a, succeeds P (k a)) -> succeeds P (bind m k).
Proof.
  intros Hm Hk s Hs. unfold bind. destruct (Hm s Hs) as [[a Ha] HP].
  destruct (m s) as [[o s1] out1]. unfold outcomeOf, stateOf in *. simpl in *. subst o.
  destruct (Hk a s1 HP) as [[b Hb] HP'].
  destruct (k a s1) as [[r s2] out2]. simpl in *. split; [now exists b | exact HP'].
Qed.

Lemma succeeds_assign (f : State -> State) :
  (forall s, P s -> P (f s)) -> succeeds P (assign f).
Proof. intros Hf s Hs. split; [now exists tt | now apply Hf]. Qed.

Lemma succeeds_ret {A} (a : A) : succeeds P (ret a).
Proof. intros s Hs. split; [now exists a | exact Hs]. Qed.

Lemma succeeds_read : succeeds P read.
Proof. intros s Hs. split; [now exists s | exact Hs]. Qed.

End Succeeds.

Lemma computePlayheadPosition_drawPlayhead (s : State) :
  drawPlayhead (snd (computePlayheadPosition s)) = drawPlayhead s.
Proof. unfold computePlayheadPosition. destruct (negb _); reflexivity. Qed.

(** ** The tick and the playhead, further *)

Lemma computePlayheadPosition_cases (s : State) :
  let pos := timeToXCoord s (playHeadTime s) in
  let pos := if Js.ltb pos (timelineStart s) then timelineStart s else pos in
  (computePlayheadPosition s = (false, s) /\ pos == playHeadPosition s)
  \/ (computePlayheadPosition s = (true, set_playHeadPosition pos s)
      /\ ~ pos == playHeadPosition s).
Proof.
  simpl. unfold computePlayheadPosition.
  destruct (Js.eqb _ (playHeadPosition s)) eqn:E; simpl.
  - left. split; [reflexivity | now apply Qeq_bool_iff].
  - right. split; [reflexivity | now apply Qeq_bool_neq].
Qed.

Lemma computePlayheadPosition_drawTimeEnd (s : State) :
  drawTimeEnd (snd (computePlayheadPosition s)) = drawTimeEnd s.
Proof. unfold computePlayheadPosition. destruct (negb _); reflexivity. Qed.

Lemma redrawTimeline_drawTimeEnd (s : State) :
  drawTimeEnd (redrawTimeline s) = drawTimeEnd s.
Proof. apply computePlayheadPosition_drawTimeEnd. Qed.

(** A tick leaves the window alone or moves both ends by the same
    amount, and it moves them only while the viewport is playing. *)
Lemma updateDraw_window (now : Q) (s : State) :
  let dt := (if Js.gtb (updateDrawLastTime s) 0 then now - updateDrawLastTime s else 1) / 1000 in
  (drawTimeStart (updateDraw now s) = drawTimeStart s
   /\ drawTimeEnd (updateDraw now s) = drawTimeEnd s)
  \/ (playViewPort s = true
      /\ drawTimeStart (updateDraw now s) = drawTimeStart s + playSpeed s * dt
      /\ drawTimeEnd (updateDraw now s) = drawTimeEnd s + playSpeed s * dt).
Proof.
  intro dt. unfold updateDraw. fold dt. clearbody dt.
  destruct (playHeadPlaying s && drawPlayhead s) eqn:Hplay; simpl; rewrite ?Hplay;
    destruct (playViewPort s) eqn:Hview; simpl; rewrite ?Hplay;
    repeat match goal with
           | |- context [if ?c then _ else _] =>
               let E := fresh "E" in destruct c eqn:E; simpl
           end;
    rewrite ?redrawTimeline_drawTimeStart, ?redrawTimeline_drawTimeEnd,
            ?computePlayheadPosition_drawTimeStart, ?computePlayheadPosition_drawTimeEnd;
    simpl in *; try congruence;
    try (left; split; reflexivity); try (right; repeat split; reflexivity).
  all: match goal with
       | |- context [computePlayheadPosition ?x] =>
           pose proof (computePlayheadPosition_drawTimeStart x) as Hc;
           pose proof (computePlayheadPosition_drawTimeEnd x) as Hd;
           destruct (computePlayheadPosition x) as [moved s0]; simpl in Hc, Hd;
           destruct moved;
           rewrite ?redrawTimeline_drawTimeStart, ?redrawTimeline_drawTimeEnd, Hc, Hd;
           left; split; reflexivity
       end.
Qed.

(** X15.  A tick never turns the window over: a window that does not
    end before it starts is left as one.  While the viewport is not
    playing, a tick does not move the window at all. *)
Theorem updateDraw_window_order (now : Q) (s : State) :
  drawTimeStart s <= drawTimeEnd s ->
  drawTimeStart (updateDraw now s) <= drawTimeEnd (updateDraw now s)
  /\ (playViewPort s = false ->
      drawTimeStart (updateDraw now s) = drawTimeStart s
      /\ drawTimeEnd (updateDraw now s) = drawTimeEnd s).
Proof.
  intro Hwin.
  destruct (updateDraw_window now s) as [[Hs He] | (Hview & Hs & He)]; rewrite Hs, He.
  - split; [exact Hwin | intros _; now split].
  - split; [|intro H; congruence].
    set (d := playSpeed s * _). lra.
Qed.

Lemma updateDraw_window_order_witness :
  drawTimeStart (updateDraw 2001 (set_playViewPort true samplePlayState))
  <= drawTimeEnd (updateDraw 2001 (set_playViewPort true samplePlayState)).
Proof.
  destruct (updateDraw_window_order 2001 (set_playViewPort true samplePlayState)) as [H _];
    [qcmp | exact H].
Defined.

(** [updateDraw_nonneg] for the sample view with the
    playhead, with the viewport playing at speed 1. *)
Lemma updateDraw_nonneg_witness :
  0 <= drawTimeStart (updateDraw 2001 (set_playViewPort true samplePlayState)).
Proof. apply updateDraw_nonneg; qcmp. Defined.

(** X17.  With [0 <= timelineStart], in a window with
    [drawTimeStart < drawTimeEnd] on a timeline of non-negative width,
    the playhead position that [computePlayheadPosition] leaves lies
    from [timelineStart] to [timelineStart + timelineWidth]: a playhead
    before the window is drawn at the left edge of the timeline. *)
Theorem computePlayheadPosition_bounds (s : State) :
  0 <= timelineStart s ->
  drawTimeStart s < drawTimeEnd s -> 0 <= timelineWidth s ->
  let s' := snd (computePlayheadPosition s) in
  timelineStart s <= playHeadPosition s' <= timelineStart s + timelineWidth s.
Proof.
  intros Hx Hwin Hw.
  assert (Hpos : timelineStart s
                 <= (if Js.ltb (timeToXCoord s (playHeadTime s)) (timelineStart s)
                     then timelineStart s else timeToXCoord s (playHeadTime s))
                 <= timelineStart s + timelineWidth s).
  { destruct (Js.ltb (timeToXCoord s (playHeadTime s)) (timelineStart s)) eqn:E; [lra|].
    apply ltb_false in E.
    destruct (Qlt_le_dec (playHeadTime s) (drawTimeStart s)) as [Hb | Hb].
    - rewrite (timeToXCoord_before s _ Hb) in *. lra.
    - now apply timeToXCoord_from_start. }
  simpl. destruct (computePlayheadPosition_cases s) as [[E Heq] | [E _]]; rewrite E; simpl.
  - rewrite <- Heq. exact Hpos.
  - exact Hpos.
Qed.

Lemma computePlayheadPosition_bounds_witness :
  250 <= playHeadPosition (snd (computePlayheadPosition (set_playHeadTime 700 samplePlayState)))
      <= 250 + 750.
Proof.
  apply (computePlayheadPosition_bounds (set_playHeadTime 700 samplePlayState)); qcmp.
Defined.

(** X18.  In a window whose ends differ, [computePlayheadPosition]
    reports a move at most once: called again on the state it leaves,
    it returns [false] and changes nothing. *)
Theorem computePlayheadPosition_settles (s : State) :
  ~ drawTimeEnd s == drawTimeStart s ->
  let s' := snd (computePlayheadPosition s) in
  computePlayheadPosition s' = (false, s').
Proof.
  intros _. simpl. destruct (computePlayheadPosition_cases s) as [[E Heq] | [E _]]; rewrite E; simpl.
  - exact E.
  - unfold computePlayheadPosition. simpl.
    change (timeToXCoord (set_playHeadPosition _ s) (playHeadTime s))
      with (timeToXCoord s (playHeadTime s)).
    unfold Js.eqb. now rewrite Qeq_bool_refl.
Qed.

Lemma computePlayheadPosition_settles_witness :
  computePlayheadPosition (snd (computePlayheadPosition (set_playHeadTime 700 samplePlayState)))
  = (false, snd (computePlayheadPosition (set_playHeadTime 700 samplePlayState))).
Proof. apply computePlayheadPosition_settles. qcmp. Defined.

(** ** Draw state, further *)

(** X19.  The rectangle of an instance that passes the visibility test
    never starts left of the timeline, and, for a non-zero end after
    the start and a positive scale, has a positive width. *)
Theorem visible_rectangle (s : State) (layer : string) (start : Q) (end_ : option Q) :
  showOnTimeline s start end_ = true ->
  let state := createStateForObject s layer start end_ in
  ds_visible state = true
  /\ timelineStart s <= ds_left state
  /\ (forall e, end_ = Some e -> ~ e == 0 -> start < e -> 0 < pixelsWidthPerUnitTime s ->
                0 < ds_width state).
Proof.
  intro Hshow. unfold createStateForObject. rewrite Hshow. simpl.
  split; [reflexivity|]. split.
  - unfold getObjectOffsetFromTimelineStart.
    destruct (Js.ltb _ 0) eqn:E; [lra|]. apply ltb_false in E. lra.
  - intros e -> Hnz Hlt Hppu. unfold getObjectWidth. simpl.
    apply truthy_spec in Hnz. rewrite Hnz.
    unfold showOnTimeline in Hshow. apply andb_true_iff in Hshow as [_ Hb].
    apply negb_true_iff in Hb. unfold Js.orInfinity in Hb. simpl in Hb.
    rewrite Hnz in Hb. simpl in Hb. apply leb_false in Hb.
    destruct (Js.ltb start (drawTimeStart s)); apply Qmult_lt_0_compat; lra.
Qed.

Lemma visible_rectangle_witness :
  250 <= ds_left (createStateForObject sampleState "0" (-3) (Some 15)).
Proof.
  destruct (visible_rectangle sampleState "0" (-3) (Some 15)) as (_ & H & _);
    [reflexivity | exact H].
Defined.

Lemma forEachM_preserves {A B} (P : State -> Prop) (f : B -> A -> M B) (l : list A) :
  (forall b a s, P s -> P (stateOf (f b a s))) ->
  forall b s, P s -> P (stateOf (forEachM f l b s)).
Proof.
  intro Hf. induction l as [|a l IH]; intros b s Hs; [exact Hs|].
  simpl. apply bind_preserves; [intros s0 H0; now apply Hf | intros b' s0 H0; now apply IH | exact Hs].
Qed.

Lemma bucketsGrow_refl (m : TimelineHoverMap) : bucketsGrow m m.
Proof. intros layer bucket H. exists []. now rewrite app_nil_r. Qed.

Lemma bucketsGrow_push (m0 m : TimelineHoverMap) layer bucket entry :
  bucketsGrow m0 m -> Js.get layer m = Some bucket ->
  bucketsGrow m0 (Js.set layer (bucket ++ [entry]) m).
Proof.
  intros Hg Hb l b Hl. destruct (Hg l b Hl) as [more Hmore].
  destruct (String.string_dec l layer) as [-> | Hne].
  - rewrite get_set_same. rewrite Hb in Hmore. inversion Hmore; subst.
    exists (more ++ [entry]). now rewrite app_assoc.
  - rewrite get_set_other by exact Hne. now exists more.
Qed.

Lemma onlyHoverMapGrown_refl (s : State) : onlyHoverMapGrown s s.
Proof. split; [now destruct s | apply bucketsGrow_refl]. Qed.

Lemma pushHover_grown (s0 : State) layer entry (s : State) :
  onlyHoverMapGrown s0 s -> onlyHoverMapGrown s0 (stateOf (pushHover layer entry s)).
Proof.
  intros [Heq Hg]. unfold pushHover, bind, read, assign, throw, stateOf. simpl.
  destruct (Js.get layer (hoveredObjectMap s)) as [bucket|] eqn:E; simpl; [|now split].
  split.
  - rewrite Heq at 2. reflexivity.
  - now apply bucketsGrow_push.
Qed.

Lemma drawInstance_grown (s0 : State) timeObj currentDrawState instanceObj (s : State) :
  onlyHoverMapGrown s0 s ->
  onlyHoverMapGrown s0 (stateOf (drawInstance timeObj currentDrawState instanceObj s)).
Proof.
  intro H. unfold drawInstance.
  apply bind_preserves; [intros s1 H1; exact H1 | intros a s1 H1 | exact H].
  apply bind_preserves; [intros s2 H2 | intros u s2 H2; exact H2 | exact H1].
  destruct (ds_visible _); [now apply pushHover_grown | exact H2].
Qed.

Lemma getTimelineDrawState_grown (timeline : ResolvedTimeline) (s0 s : State) :
  onlyHoverMapGrown s0 s ->
  onlyHoverMapGrown s0 (stateOf (getTimelineDrawState timeline s)).
Proof.
  intro H. unfold getTimelineDrawState.
  apply forEachM_preserves; [|exact H].
  intros b key s1 H1. destruct (Js.get key (objects timeline)) as [timeObj|]; [|exact H1].
  apply forEachM_preserves; [|exact H1].
  intros b' i s2 H2. now apply drawInstance_grown.
Qed.

(** X20.  [getTimelineDrawState] changes no field but the hover map,
    and there it only appends: every bucket keeps the entries it had,
    in front of the new ones.  The buckets are emptied by
    [getLayersToDraw] alone. *)
Theorem getTimelineDrawState_appends (timeline : ResolvedTimeline) (s : State) :
  let s' := stateOf (getTimelineDrawState timeline s) in
  s' = set_hoveredObjectMap (hoveredObjectMap s') s
  /\ bucketsGrow (hoveredObjectMap s) (hoveredObjectMap s').
Proof. apply getTimelineDrawState_grown, onlyHoverMapGrown_refl. Qed.

Lemma succeeds_forEachM {A B} (P : State -> Prop) (f : B -> A -> M B) (l : list A) :
  (forall b a, In a l -> succeeds P (f b a)) -> forall b, succeeds P (forEachM f l b).
Proof.
  induction l as [|a l IH]; intros Hf b; [apply succeeds_ret|].
  simpl. apply succeeds_bind; [apply Hf; now left|].
  intro b'. apply IH. intros b0 a0 Hin. apply Hf. now right.
Qed.

Lemma layersHaveBuckets_push timeline layer bucket (s : State) :
  layersHaveBuckets timeline s ->
  layersHaveBuckets timeline (set_hoveredObjectMap (Js.set layer bucket (hoveredObjectMap s)) s).
Proof.
  intros H key timeObj Hget. specialize (H key timeObj Hget). simpl.
  destruct (String.string_dec (obj_layer timeObj) layer) as [-> | Hne].
  - rewrite get_set_same. discriminate.
  - now rewrite get_set_other.
Qed.

(** X21.  When every object of the schedule lies on a layer that has a
    hover bucket, [getTimelineDrawState] returns; nothing is emitted. *)
Theorem getTimelineDrawState_returns (timeline : ResolvedTimeline) (s : State) :
  layersHaveBuckets timeline s ->
  exists state, outcomeOf (getTimelineDrawState timeline s) = Returned state.
Proof.
  intro H.
  assert (Hok : succeeds (layersHaveBuckets timeline) (getTimelineDrawState timeline)).
  { unfold getTimelineDrawState. apply succeeds_forEachM. intros b key _.
    destruct (Js.get key (objects timeline)) as [timeObj|] eqn:Hobj; [|apply succeeds_ret].
    apply succeeds_forEachM. intros b' instanceObj _. unfold drawInstance.
    apply succeeds_bind; [apply succeeds_read|]. intro s1.
    apply succeeds_bind; [|intros _; apply succeeds_ret].
    destruct (ds_visible _); [|apply succeeds_ret].
    intros s2 H2. unfold pushHover, bind, read, assign, throw, outcomeOf, stateOf. simpl.
    destruct (Js.get (obj_layer timeObj) (hoveredObjectMap s2)) as [bucket|] eqn:E.
    - simpl. split; [now exists tt | now apply layersHaveBuckets_push].
    - exfalso. exact (H2 key timeObj Hobj E). }
  exact (proj1 (Hok s H)).
Qed.

Lemma getTimelineDrawState_returns_witness :
  exists state, outcomeOf (getTimelineDrawState sampleTimeline sampleState) = Returned state.
Proof.
  apply getTimelineDrawState_returns.
  intros key timeObj Hget. simpl in Hget.
  destruct (String.eqb key "A"); [|discriminate]. inversion Hget; subst.
  vm_compute. discriminate.
Defined.

(** ** Layers, further *)

(** [rows_follow_keys] for the layers [b], [a]. *)
Lemma rows_follow_keys_witness :
  Js.get "a" (fst (assignRows (collectLayers ["b"; "a"]) 0 ([], []))) = Some 1%nat.
Proof.
  apply (rows_follow_keys ["b"; "a"] 1 "a").
  - constructor; [intros [H | []]; discriminate | constructor; [intros [] | constructor]].
  - reflexivity.
Defined.

(** X23.  On a canvas of positive height the row height is at most
    [MAX_LAYER_HEIGHT] and not negative, and with at least one layer it
    is no more than an equal share of the canvas height. *)
Theorem calculateRowHeight_fits (s : State) (layers : Layers) :
  0 < canvasHeight s ->
  let rowHeight := calculateRowHeight s layers in
  0 <= rowHeight <= MAX_LAYER_HEIGHT
  /\ (Js.keys layers <> [] ->
      rowHeight <= canvasHeight s / inject_Z (Z.of_nat (List.length (Js.keys layers)))).
Proof.
  intro Hpos. assert (Hh : 0 <= canvasHeight s) by lra. unfold calculateRowHeight.
  destruct (List.length (Js.keys layers)) as [|n] eqn:En.
  - simpl. unfold MAX_LAYER_HEIGHT.
    split; [split; discriminate|].
    intro Hne. destruct (Js.keys layers); [contradiction | discriminate].
  - set (count := inject_Z (Z.of_nat (S n))).
    assert (Hc : 0 < count).
    { unfold count. change 0 with (inject_Z 0). rewrite <- Zlt_Qlt. reflexivity. }
    assert (Hq : 0 <= canvasHeight s / count) by (apply Qle_shift_div_l; lra).
    unfold Js.min, MAX_LAYER_HEIGHT.
    destruct (Js.ltb (canvasHeight s / count) 60) eqn:E.
    + apply ltb_spec in E. split; [split; lra | intros _; lra].
    + apply ltb_false in E. split; [split; [discriminate | lra] | intros _; lra].
Qed.

Lemma calculateRowHeight_fits_witness :
  calculateRowHeight sampleState [("0", 0%nat); ("1", 1%nat)] <= 300 / 2.
Proof.
  destruct (calculateRowHeight_fits sampleState [("0", 0%nat); ("1", 1%nat)]) as [_ H];
    [qcmp | apply H; discriminate].
Defined.

(** ** Names of draw states *)

Lemma append_assoc (a b c : string) :
  String.append (String.append a b) c = String.append a (String.append b c).
Proof. induction a as [|x a IH]; simpl; [reflexivity | now rewrite IH]. Qed.

Lemma append_empty_r (a : string) : String.append a EmptyString = a.
Proof. induction a as [|x a IH]; simpl; [reflexivity | now rewrite IH]. Qed.

Lemma colons_append (a b : string) : colons (String.append a b) = (colons a + colons b)%nat.
Proof.
  induction a as [|x a IH]; simpl; [reflexivity|].
  rewrite IH. now rewrite Nat.add_assoc.
Qed.

Lemma colons_zero_cons (c : ascii) (a : string) :
  colons (String c a) = O -> Ascii.eqb c ":" = false /\ colons a = O.
Proof.
  simpl. destruct (Ascii.eqb c ":"); [discriminate | now split].
Qed.

Lemma splitAux_segment (a rest cur : string) :
  colons a = O ->
  Js.splitAux ":" (String.append a (String ":" rest)) cur
  = String.append cur a :: Js.splitAux ":" rest EmptyString.
Proof.
  revert cur. induction a as [|c a IH]; intros cur H.
  - simpl. now rewrite append_empty_r.
  - apply colons_zero_cons in H as [Hc Ha]. simpl. rewrite Hc, (IH _ Ha).
    now rewrite append_assoc.
Qed.

Lemma splitAux_last (a cur : string) :
  colons a = O -> Js.splitAux ":" a cur = [String.append cur a].
Proof.
  revert cur. induction a as [|c a IH]; intros cur H.
  - simpl. now rewrite append_empty_r.
  - apply colons_zero_cons in H as [Hc Ha]. simpl. rewrite Hc, (IH _ Ha).
    now rewrite append_assoc.
Qed.

Lemma splitAux_length (a cur : string) :
  List.length (Js.splitAux ":" a cur) = S (colons a).
Proof.
  revert cur. induction a as [|c a IH]; intro cur; [reflexivity|].
  simpl. destruct (Ascii.eqb c ":"); simpl; now rewrite IH.
Qed.

Lemma timelineMetaFromString_plain (parentID instanceId : string) :
  colons parentID = O -> colons instanceId = O ->
  timelineMetaFromString (drawStateName parentID instanceId)
  = Some {| meta_type := "timelineObject"; meta_name := parentID;
            meta_instance := instanceId |}.
Proof.
  intros Hp Hi. unfold timelineMetaFromString, Js.split, drawStateName.
  change (String.append "timelineObject:" ?x)
    with (String.append "timelineObject" (String ":" x)).
  rewrite splitAux_segment by reflexivity.
  change (String.append ":" instanceId) with (String ":" instanceId).
  rewrite (splitAux_segment _ _ _ Hp), (splitAux_last _ _ Hi). reflexivity.
Qed.

(** X24.  [timelineMetaFromString] reads back the name that
    [getTimelineDrawState] gives to an instance exactly when neither
    the object id nor the instance id holds a colon; otherwise it
    returns [undefined]. *)
Theorem timelineMetaFromString_drawStateName (parentID instanceId : string) :
  timelineMetaFromString (drawStateName parentID instanceId)
  = if Nat.eqb (colons parentID + colons instanceId) 0
    then Some {| meta_type := "timelineObject"; meta_name := parentID;
                 meta_instance := instanceId |}
    else None.
Proof.
  destruct (Nat.eqb (colons parentID + colons instanceId) 0) eqn:E.
  - apply Nat.eqb_eq in E. apply Nat.eq_add_0 in E as [Hp Hi].
    now apply timelineMetaFromString_plain.
  - apply Nat.eqb_neq in E. unfold timelineMetaFromString, Js.split.
    pose proof (splitAux_length (drawStateName parentID instanceId) EmptyString) as Hlen.
    assert (Hc : colons (drawStateName parentID instanceId)
                 = (2 + colons parentID + colons instanceId)%nat).
    { unfold drawStateName. rewrite !colons_append. simpl. lia. }
    rewrite Hc in Hlen.
    destruct (Js.splitAux ":" (drawStateName parentID instanceId) EmptyString)
      as [|a [|b [|c [|d l]]]]; try reflexivity.
    simpl in Hlen. lia.
Qed.

(** ** Hover, further *)

Section HoverEntry.

Variable mousePos : Q * Q.
Variables (parentID instanceId : string) (timelineObject : ResolvedTimelineObject).
Hypothesis plainParent : colons parentID = O.
Hypothesis plainInstance : colons instanceId = O.

Let name := drawStateName parentID instanceId.
Let hoverInfo := hoverInfoFor timelineObject instanceId mousePos.

Let entered (s : State) : State :=
  set_lastHoveredName name (set_lastHoverAction MOUSEIN (set_hoveredOver (Some hoverInfo) s)).

Lemma visitHoverEntry_enters (found : bool) (object : HoverMapData) (s : State) :
  covers mousePos object = true -> hm_name object = name ->
  lastHoveredName s <> name ->
  Js.get parentID (objects (resolvedTimeline s)) = Some timelineObject ->
  visitHoverEntry mousePos found object s = (Returned true, entered s, [Some hoverInfo]).
Proof.
  intros Hc Hn Hlast Hobj. unfold visitHoverEntry. fold (covers mousePos object).
  rewrite Hc, Hn. unfold bind, read, assign, emit, ret. simpl.
  apply String.eqb_neq in Hlast. rewrite Hlast. simpl.
  unfold name at 1. rewrite (timelineMetaFromString_plain _ _ plainParent plainInstance).
  simpl. rewrite Hobj. reflexivity.
Qed.

Lemma forEach_enters (hoverMapData : list HoverMapData) (found : bool) (s : State) :
  existsb (covers mousePos) hoverMapData = true ->
  (forall object, In object hoverMapData -> covers mousePos object = true ->
                  hm_name object = name) ->
  lastHoveredName s <> name ->
  Js.get parentID (objects (resolvedTimeline s)) = Some timelineObject ->
  forEachM (visitHoverEntry mousePos) hoverMapData found s
  = (Returned true, entered s, [Some hoverInfo]).
Proof.
  revert found. induction hoverMapData as [|object rest IH]; intros found Hex Hall Hlast Hobj;
    [discriminate|].
  simpl. unfold bind. destruct (covers mousePos object) eqn:Hc.
  - rewrite (visitHoverEntry_enters found object s Hc (Hall _ (or_introl eq_refl) Hc) Hlast Hobj).
    rewrite forEach_silent; [reflexivity|].
    intros o Ho Hco. simpl. apply Hall; [now right | exact Hco].
  - rewrite visitHoverEntry_silent by (rewrite Hc; discriminate).
    rewrite Hc, orb_false_r. simpl in Hex. rewrite Hc in Hex. simpl in Hex.
    rewrite (IH found Hex); [reflexivity | | exact Hlast | exact Hobj].
    intros o Ho. apply Hall. now right.
Qed.

End HoverEntry.

(** X25.  With the button up, a pointer move onto the rectangle of an
    instance whose name was not the last one hovered emits exactly one
    hover event, with the object, the instance found by its id and the
    pointer position; the visualizer records the event, the name and
    [MOUSEIN].  The ids hold no colon, the object is in the schedule
    and the rows have a height. *)
Theorem hover_first_entry
    (rect : DOMRect) (event : MouseEvent) (s : State)
    (parentID instanceId : string) (timelineObject : ResolvedTimelineObject) :
  mouseDown s = false ->
  ~ rowsTotalHeight s == 0 ->
  colons parentID = O -> colons instanceId = O ->
  hitsOnly s (getMousePos rect event) (drawStateName parentID instanceId) ->
  lastHoveredName s <> drawStateName parentID instanceId ->
  Js.get parentID (objects (resolvedTimeline s)) = Some timelineObject ->
  let hoverInfo := hoverInfoFor timelineObject instanceId (getMousePos rect event) in
  canvasMouseMove rect event s
  = (Returned tt,
     set_lastHoveredName (drawStateName parentID instanceId)
       (set_lastHoverAction MOUSEIN (set_hoveredOver (Some hoverInfo) s)),
     [Some hoverInfo]).
Proof.
  intros Hup _ Hp Hi (Hx & Hy & hoverMapData & Hbucket & Hex & Hall) Hlast Hobj.
  simpl. rewrite (canvasMouseMove_up _ _ _ Hup), canvasMouseHover_eq, hoverScan_eq.
  rewrite Hx, Hy, Hbucket.
  rewrite (forEach_enters _ parentID instanceId timelineObject Hp Hi hoverMapData false s
             Hex Hall Hlast Hobj).
  reflexivity.
Qed.

Lemma hover_first_entry_witness :
  emittedBy (canvasMouseMove (mkRect 0 0) (mkMouseEvent 260 10) sampleState)
  = [Some (hoverInfoFor sampleObject "i0" (260, 10))].
Proof.
  rewrite (hover_first_entry (mkRect 0 0) (mkMouseEvent 260 10) sampleState "A" "i0" sampleObject).
  - reflexivity.
  - reflexivity.
  - qcmp.
  - reflexivity.
  - reflexivity.
  - split; [reflexivity|]. split; [reflexivity|].
    eexists. split; [vm_compute; reflexivity|]. split; [reflexivity|].
    intros object [<- | [<- | []]]; vm_compute; intro H; congruence.
  - vm_compute. discriminate.
  - reflexivity.
Defined.

(** X26.  With the button up, a pointer move over no rectangle emits
    one hover-cleared event and records [MOUSEOUT] when the last action
    was [MOUSEIN], and does nothing otherwise; the last hovered name
    and the hovered object stay as they were. *)
Theorem hover_leave (rect : DOMRect) (event : MouseEvent) (s : State) :
  mouseDown s = false ->
  hitsNothing s (getMousePos rect event) ->
  canvasMouseMove rect event s
  = match lastHoverAction s with
    | MOUSEIN => (Returned tt, set_lastHoverAction MOUSEOUT s, [None])
    | MOUSEOUT => (Returned tt, s, [])
    end.
Proof.
  intros Hup Hnone.
  rewrite (canvasMouseMove_up _ _ _ Hup), canvasMouseHover_eq, hoverScan_eq.
  destruct Hnone as [Hx | [Hy | (_ & hoverMapData & Hbucket & Hex)]].
  - rewrite Hx. now destruct (lastHoverAction s).
  - rewrite Hy. destruct (Js.gtb _ _); now destruct (lastHoverAction s).
  - destruct (Js.gtb (fst (getMousePos rect event)) (timelineStart s));
      [|now destruct (lastHoverAction s)].
    destruct (Js.ltb (snd (getMousePos rect event)) (rowsTotalHeight s));
      [|now destruct (lastHoverAction s)].
    rewrite Hbucket, forEach_silent.
    + rewrite Hex. simpl. now destruct (lastHoverAction s).
    + intros o Ho Hc. exfalso.
      assert (Htrue : existsb (covers (getMousePos rect event)) hoverMapData = true)
        by (apply existsb_exists; now exists o).
      congruence.
Qed.

Lemma hover_leave_witness :
  canvasMouseMove (mkRect 0 0) (mkMouseEvent 275 10) (set_lastHoverAction MOUSEIN sampleState)
  = (Returned tt, set_lastHoverAction MOUSEOUT (set_lastHoverAction MOUSEIN sampleState), [None]).
Proof.
  rewrite (hover_leave (mkRect 0 0) (mkMouseEvent 275 10) (set_lastHoverAction MOUSEIN sampleState)).
  - reflexivity.
  - reflexivity.
  - right. right. split; [qcmp|]. eexists. split; [vm_compute; reflexivity | reflexivity].
Defined.

(** X27.  With the button up, a pointer move over rows that have a
    height throws a [TypeError], with no event and no change of state,
    when no layer is named like the number of the row under the
    pointer and no layer is named [undefined]: the row number is used
    as a layer name. *)
Theorem hover_missing_bucket (rect : DOMRect) (event : MouseEvent) (s : State) :
  mouseDown s = false ->
  ~ rowsTotalHeight s == 0 ->
  let mousePos := getMousePos rect event in
  Js.gtb (fst mousePos) (timelineStart s) = true ->
  Js.ltb (snd mousePos) (rowsTotalHeight s) = true ->
  Js.get (Js.stringOfInt (selectedRowAt s (snd mousePos))) (layerLabels s) = None ->
  Js.get "undefined" (hoveredObjectMap s) = None ->
  canvasMouseMove rect event s
  = (Thrown "TypeError: Cannot read properties of undefined (reading 'forEach')", s, []).
Proof.
  intros Hup _ mousePos Hx Hy Hrow Hundef.
  rewrite (canvasMouseMove_up _ _ _ Hup), canvasMouseHover_eq, hoverScan_eq.
  fold mousePos. rewrite Hx, Hy. unfold hoverBucket. rewrite Hrow, Hundef. reflexivity.
Qed.

Lemma hover_missing_bucket_witness :
  threw (outcomeOf (canvasMouseMove (mkRect 0 0) (mkMouseEvent 260 10)
           (stateOf (construct 1000 300 None 1 (fun _ => unsortedTimeline) None))))
  = true.
Proof.
  rewrite (hover_missing_bucket (mkRect 0 0) (mkMouseEvent 260 10)
             (stateOf (construct 1000 300 None 1 (fun _ => unsortedTimeline) None)));
    first [reflexivity | qcmp].
Defined.

(** ** Pointer handlers, further *)

Lemma canvasMouseMove_down (rect : DOMRect) (event : MouseEvent) (s : State) :
  mouseDown s = true ->
  canvasMouseMove rect event s = canvasMouseDrag event s.
Proof.
  intro H. unfold canvasMouseMove, bind at 1, read. simpl. rewrite H.
  destruct (canvasMouseDrag event s) as [[r s2] out]. reflexivity.
Qed.

Lemma getTimelineDrawState_window (timeline : ResolvedTimeline) (s : State) :
  let s' := stateOf (getTimelineDrawState timeline s) in
  drawTimeStart s' = drawTimeStart s /\ drawTimeEnd s' = drawTimeEnd s
  /\ mouseLastX s' = mouseLastX s /\ lastScrollDirection s' = lastScrollDirection s.
Proof.
  simpl.
  assert (H : onlyHoverMapGrown s (stateOf (getTimelineDrawState timeline s)))
    by apply getTimelineDrawState_grown, onlyHoverMapGrown_refl.
  destruct H as [Heq _].
  rewrite Heq. repeat split.
Qed.

Lemma redrawTimeline_window (s : State) :
  drawTimeStart (redrawTimeline s) = drawTimeStart s
  /\ drawTimeEnd (redrawTimeline s) = drawTimeEnd s
  /\ mouseLastX (redrawTimeline s) = mouseLastX s
  /\ lastScrollDirection (redrawTimeline s) = lastScrollDirection s.
Proof.
  unfold redrawTimeline.
  destruct (computePlayheadPosition_cases s) as [[E _] | [E _]]; rewrite E; repeat split.
Qed.

(** The tail of the handlers that redraw: the draw state and the
    canvas. *)
Lemma redraw_tail_preserves (P : State -> Prop) (s : State) :
  (forall s1 s2 : State,
     drawTimeStart s2 = drawTimeStart s1 /\ drawTimeEnd s2 = drawTimeEnd s1
     /\ mouseLastX s2 = mouseLastX s1 /\ lastScrollDirection s2 = lastScrollDirection s1 ->
     P s1 -> P s2) ->
  P s ->
  P (stateOf ((s <- read ;;
               state <- getTimelineDrawState (resolvedTimeline s) ;;
               assign (set_timelineState state) ;;
               assign redrawTimeline)%js s)).
Proof.
  intros Hframe Hs.
  apply bind_preserves; [intros s0 H0; exact H0 | intros s0 s1 H1 | exact Hs].
  apply bind_preserves; [intros s2 H2 | intros state s2 H2 | exact H1].
  - exact (Hframe _ _ (getTimelineDrawState_window _ s2) H2).
  - apply bind_preserves; [intros s3 H3 | intros u s3 H3 | exact H2].
    + apply assign_preserves; [|exact H3]. intros s4 H4.
      apply (Hframe s4); [repeat split | exact H4].
    + apply assign_preserves; [|exact H3]. intros s4 H4.
      exact (Hframe _ _ (redrawTimeline_window s4) H4).
Qed.

Lemma hover_preserves_window (mousePos : Q * Q) (s : State) :
  drawTimeStart (stateOf (canvasMouseHover mousePos s)) = drawTimeStart s.
Proof.
  rewrite canvasMouseHover_eq.
  assert (Hscan : drawTimeStart (stateOf (hoverScan mousePos s)) = drawTimeStart s).
  { rewrite hoverScan_eq.
    destruct (Js.gtb _ _); [|reflexivity]. destruct (Js.ltb _ _); [|reflexivity].
    destruct (hoverBucket _ _) as [hoverMapData|]; [|reflexivity].
    apply (forEachM_preserves (fun s' => drawTimeStart s' = drawTimeStart s)); [|reflexivity].
    intros b object s1 H1.
    destruct (visitHoverEntry_cases mousePos b object s1) as [[o E] | [_ [h E]]];
      rewrite E; exact H1. }
  destruct (hoverScan mousePos s) as [[o s1] out1]. unfold stateOf in *. simpl in Hscan.
  destruct o as [found|msg]; [|exact Hscan].
  destruct found; [exact Hscan|]. destruct (lastHoverAction s1); exact Hscan.
Qed.

Lemma nonneg_frame (s1 s2 : State) :
  drawTimeStart s2 = drawTimeStart s1 /\ drawTimeEnd s2 = drawTimeEnd s1
  /\ mouseLastX s2 = mouseLastX s1 /\ lastScrollDirection s2 = lastScrollDirection s1 ->
  0 <= drawTimeStart s1 -> 0 <= drawTimeStart s2.
Proof. intros [H _] H1. now rewrite H. Qed.

Lemma canvasMouseDrag_nonneg (event : MouseEvent) (s : State) :
  0 <= drawTimeStart s -> 0 <= drawTimeStart (stateOf (canvasMouseDrag event s)).
Proof.
  set (P := fun s : State => 0 <= drawTimeStart s). change (P s -> P (stateOf (canvasMouseDrag event s))).
  assert (Hpan : forall d s0, P s0 -> P (canvasScrollByDeltaX d s0))
    by (intros; now apply canvasScrollByDeltaX_nonneg).
  intro H. unfold canvasMouseDrag.
  apply bind_preserves; [intros s0 H0; exact H0 | intros s0 s1 H1 | exact H].
  apply bind_preserves; [intros s2 H2 | intros u s2 H2 | exact H1].
  - destruct (_ || _).
    + apply bind_preserves; [intros s3 H3; exact H3 | intros u s3 H3 | exact H2].
      apply bind_preserves; [intros s4 H4; exact H4 | intros s4 s5 H5 | exact H3].
      apply bind_preserves; [intros s6 H6; exact H6 | intros u' s6 H6 | exact H5].
      apply assign_preserves; [apply Hpan | exact H6].
    + destruct (_ && _); [|destruct (_ && _)].
      * apply bind_preserves; [intros s3 H3; exact H3 | intros u s3 H3; exact H3 | exact H2].
      * apply bind_preserves; [intros s3 H3; exact H3 | intros u s3 H3; exact H3 | exact H2].
      * apply bind_preserves; [intros s3 H3; exact H3 | intros u s3 H3 | exact H2].
        apply assign_preserves; [apply Hpan | exact H3].
  - exact (redraw_tail_preserves P s2 nonneg_frame H2).
Qed.

Lemma canvasScrollWheel_nonneg (rect : DOMRect) (event : WheelEvent) (s : State) :
  0 <= drawTimeStart s -> 0 <= drawTimeStart (stateOf (canvasScrollWheel rect event s)).
Proof.
  set (P := fun s : State => 0 <= drawTimeStart s).
  change (P s -> P (stateOf (canvasScrollWheel rect event s))).
  assert (Hpan : forall (d : State -> Q) s0, P s0 -> P (canvasScrollByDeltaX (d s0) s0))
    by (intros; now apply canvasScrollByDeltaX_nonneg).
  assert (Hzoom : forall x s0, P s0 -> P (zoomUnderCursor x s0))
    by (intros; apply zoomUnderCursor_nonneg).
  intro H. unfold canvasScrollWheel.
  apply bind_preserves; [intros s0 H0; exact H0 | intros s0 s1 H1 | exact H].
  destruct (Js.leb _ _); [exact H1|].
  apply bind_preserves; [intros s2 H2 | intros changed s2 H2 | exact H1].
  - destruct (ctrlKey event).
    + destruct (0 <? deltaY event)%Z; [|destruct (deltaY event <? 0)%Z]; [| |exact H2].
      * apply bind_preserves; [intros s3 H3; exact H3 | intros u s3 H3 | exact H2].
        apply bind_preserves; [intros s4 H4 | intros u' s4 H4; exact H4 | exact H3].
        apply assign_preserves; [apply Hzoom | exact H4].
      * apply bind_preserves; [intros s3 H3; exact H3 | intros u s3 H3 | exact H2].
        apply bind_preserves; [intros s4 H4 | intros u' s4 H4; exact H4 | exact H3].
        apply assign_preserves; [apply Hzoom | exact H4].
    + destruct (negb (Js.eqb (deltaX event) 0)); [|destruct (_ && _)]; [| |exact H2].
      * apply bind_preserves; [intros s3 H3 | intros u s3 H3; exact H3 | exact H2].
        apply assign_preserves; [|exact H3].
        intros s4 H4. exact (Hpan (fun s => deltaX event * (PAN_FACTOR * stepSize s)) s4 H4).
      * apply bind_preserves; [intros s3 H3 | intros u s3 H3; exact H3 | exact H2].
        apply assign_preserves; [|exact H3].
        intros s4 H4.
        exact (Hpan (fun s => inject_Z (deltaY event) * (PAN_FACTOR * stepSize s)) s4 H4).
  - destruct changed; [|exact H2].
    exact (redraw_tail_preserves P s2 nonneg_frame H2).
Qed.

(** X11.  At a non-zero scale, every handler of the viewport keeps
    [0 <= drawTimeStart]: panning by any number of pixels, zooming
    about any cursor, [setViewPort] with any argument, and the pointer
    and wheel handlers with any event. *)
Theorem handlers_keep_start_nonneg (s : State) :
  ~ pixelsWidthPerUnitTime s == 0 ->
  0 <= drawTimeStart s ->
  (forall deltaX, 0 <= drawTimeStart (canvasScrollByDeltaX deltaX s))
  /\ (forall cursorX, 0 <= drawTimeStart (zoomUnderCursor cursorX s))
  /\ (forall viewPort, 0 <= drawTimeStart (stateOf (setViewPort viewPort s)))
  /\ (forall event, 0 <= drawTimeStart (canvasMouseDown event s))
  /\ 0 <= drawTimeStart (canvasMouseUp s)
  /\ (forall rect event, 0 <= drawTimeStart (stateOf (canvasMouseMove rect event s)))
  /\ (forall rect event, 0 <= drawTimeStart (stateOf (canvasScrollWheel rect event s))).
Proof.
  intros _ H. repeat split.
  - intro d. now apply canvasScrollByDeltaX_nonneg.
  - intro x. apply zoomUnderCursor_nonneg.
  - intro vp. now apply setViewPort_nonneg.
  - intro e. exact H.
  - exact H.
  - intros rect e. destruct (mouseDown s) eqn:Hm.
    + rewrite (canvasMouseMove_down _ _ _ Hm). now apply canvasMouseDrag_nonneg.
    + rewrite (canvasMouseMove_up _ _ _ Hm), hover_preserves_window. exact H.
  - intros rect e. now apply canvasScrollWheel_nonneg.
Qed.

Lemma handlers_keep_start_nonneg_witness :
  0 <= drawTimeStart
         (stateOf (canvasScrollWheel (mkRect 0 0)
                     (mkWheelEvent (mkMouseEvent 400 10) false false (-100000) 0) sampleState)).
Proof.
  destruct (handlers_keep_start_nonneg sampleState) as (_ & _ & _ & _ & _ & _ & H);
    [qcmp | qcmp |].
  apply H.
Defined.

Lemma canvasScrollByDeltaX_zero (deltaX : Q) (s : State) :
  deltaX == 0 -> 0 <= drawTimeStart s -> canvasScrollByDeltaX deltaX s = s.
Proof.
  intros Hd Hs. unfold canvasScrollByDeltaX.
  assert (Ht : drawTimeStart s + deltaX / pixelsWidthPerUnitTime s == drawTimeStart s).
  { unfold Qdiv. rewrite Hd. ring. }
  assert (E1 : Js.ltb (drawTimeStart s + deltaX / pixelsWidthPerUnitTime s) 0 = false)
    by (apply ltb_false; rewrite Ht; exact Hs).
  rewrite E1. unfold Js.eqb. now rewrite (Qeq_eq_bool _ _ Ht).
Qed.

Lemma stateOf_bind_returned {A B} (m : M A) (k : A -> M B) (s s1 : State) (a : A)
      (out : list Emitted) :
  m s = (Returned a, s1, out) -> stateOf (bind m k s) = stateOf (k a s1).
Proof.
  intro H. unfold bind, stateOf. rewrite H. destruct (k a s1) as [[r s2] out2]. reflexivity.
Qed.

(** X28.  The first pointer move of a drag (button down, scroll
    direction not yet set or reset to 0) never pans: it stores the
    pointer position before it takes the difference, so the difference
    is 0.  It records the position and the direction 1 and leaves the
    window where it is.  The window starts at 0 or later and the scale
    is not zero. *)
Theorem drag_first_move (rect : DOMRect) (event : MouseEvent) (s : State) :
  mouseDown s = true ->
  lastScrollDirection s = None \/ directionIs (lastScrollDirection s) 0 = true ->
  0 <= drawTimeStart s ->
  ~ pixelsWidthPerUnitTime s == 0 ->
  let s' := stateOf (canvasMouseMove rect event s) in
  drawTimeStart s' = drawTimeStart s /\ drawTimeEnd s' = drawTimeEnd s
  /\ mouseLastX s' = clientX event /\ lastScrollDirection s' = Some 1.
Proof.
  intros Hdown Hdir Hs _. simpl. rewrite (canvasMouseMove_down _ _ _ Hdown).
  set (P := fun s' : State =>
              drawTimeStart s' = drawTimeStart s /\ drawTimeEnd s' = drawTimeEnd s
              /\ mouseLastX s' = clientX event /\ lastScrollDirection s' = Some 1).
  change (P (stateOf (canvasMouseDrag event s))).
  assert (Hframe : forall s1 s2 : State,
             drawTimeStart s2 = drawTimeStart s1 /\ drawTimeEnd s2 = drawTimeEnd s1
             /\ mouseLastX s2 = mouseLastX s1 /\ lastScrollDirection s2 = lastScrollDirection s1 ->
             P s1 -> P s2).
  { intros s1 s2 (A & B & C & D) (A' & B' & C' & D'). unfold P. repeat split; congruence. }
  assert (Hfree : (match lastScrollDirection s with None => true | Some _ => false end
                   || directionIs (lastScrollDirection s) 0) = true).
  { destruct Hdir as [-> | ->]; [reflexivity | apply orb_true_r]. }
  assert (Hzero : Js.ltb (clientX event - clientX event) 0 = false) by (apply ltb_false; lra).
  unfold canvasMouseDrag.
  rewrite (stateOf_bind_returned read _ s s s [] eq_refl).
  cbv beta. rewrite Hfree.
  erewrite stateOf_bind_returned.
  - apply (redraw_tail_preserves P _ Hframe).
    instantiate (1 := set_lastScrollDirection (Some 1) (set_mouseLastX (clientX event) s)).
    unfold P. repeat split.
  - unfold bind, assign, read. simpl. rewrite Hzero.
    rewrite canvasScrollByDeltaX_zero; [reflexivity | ring | exact Hs].
Qed.

Lemma drag_first_move_witness :
  drawTimeStart (stateOf (canvasMouseMove (mkRect 0 0) (mkMouseEvent 700 10)
                            (canvasMouseDown (mkMouseEvent 300 10) sampleState)))
  = drawTimeStart (canvasMouseDown (mkMouseEvent 300 10) sampleState).
Proof.
  destruct (drag_first_move (mkRect 0 0) (mkMouseEvent 700 10)
              (canvasMouseDown (mkMouseEvent 300 10) sampleState)) as [H _].
  - reflexivity.
  - left. reflexivity.
  - qcmp.
  - qcmp.
  - exact H.
Defined.

(** ** The canvas *)

Lemma drawLabelRows_error (s : State) (indexKeys : list string) (row : nat) :
  snd (drawLabelRows s indexKeys row) = None
  <-> (forall layer, In layer indexKeys -> Js.get layer (layerLabels s) <> None).
Proof.
  revert row. induction indexKeys as [|layer rest IH]; intro row; simpl.
  - split; [intros _ k [] | reflexivity].
  - destruct (Js.get layer (layerLabels s)) as [label|] eqn:E.
    + specialize (IH (S row)).
      destruct (drawLabelRows s rest (S row)) as [calls error]. simpl in *.
      rewrite IH. split.
      * intros H k [<- | Hin]; [congruence | now apply H].
      * intros H k Hin. apply H. now right.
    + simpl. split; [discriminate|]. intro H. exfalso. apply (H layer); [now left | exact E].
Qed.

Lemma drawLayerLabels_error (s : State) :
  snd (drawLayerLabels s) = None <-> rowsAreLayerNames s.
Proof.
  unfold drawLayerLabels, rowsAreLayerNames, arrayIndexKeys.
  rewrite drawLabelRows_error. split.
  - intros H i Hi. apply H. apply in_map_iff. exists i. split; [reflexivity|].
    apply in_seq. lia.
  - intros H layer Hin. apply in_map_iff in Hin. destruct Hin as (i & <- & Hi).
    apply in_seq in Hi. apply H. lia.
Qed.

(** X29.  [redrawTimeline] with its canvas calls returns exactly when
    every row number below the number of layers is itself the name of
    a layer: [drawLayerLabels] iterates the indices of
    [Object.keys(this._layerLabels)] and reads [this._layerLabels] at
    the index.  When it returns, the fields end as [redrawTimeline]
    leaves them; otherwise a [TypeError] is thrown from
    [drawLayerLabels] and no field has changed. *)
Theorem redrawTimeline_layer_names (s : State) :
  (rowsAreLayerNames s ->
   exists calls, redrawTimelineCanvas s = (Returned tt, redrawTimeline s, calls))
  /\ (~ rowsAreLayerNames s ->
      exists message calls, redrawTimelineCanvas s = (Thrown message, s, calls)).
Proof.
  pose proof (drawLayerLabels_error s) as H. unfold redrawTimelineCanvas, redrawTimeline.
  destruct (drawLayerLabels s) as [labels [error|]]; simpl in H; split.
  - intro Hn. apply H in Hn. discriminate.
  - intros _. eauto.
  - intros _. eauto.
  - intro Hn. exfalso. apply Hn, H. reflexivity.
Qed.

Lemma redrawTimeline_layer_names_witness :
  exists message calls,
    redrawTimelineCanvas unsortedState = (Thrown message, unsortedState, calls).
Proof.
  destruct (redrawTimeline_layer_names unsortedState) as [_ H]. apply H.
  intro Hn. apply (Hn 0%nat); [vm_compute; lia | reflexivity].
Defined.

(** ** Layers, further *)

Lemma collect_In (layerKeys acc : list string) (x : string) :
  In x (fold_left (fun layersArray layer =>
                     if Js.notIn layer layersArray then layersArray ++ [layer] else layersArray)
                  layerKeys acc)
  <-> In x acc \/ In x layerKeys.
Proof.
  revert acc. induction layerKeys as [|k rest IH]; intro acc; simpl; [tauto|].
  rewrite IH. destruct (Js.notIn k acc) eqn:E.
  - rewrite in_app_iff. simpl. tauto.
  - split; [tauto|]. intros [H | [<- | H]]; [tauto | | tauto].
    left. unfold Js.notIn in E. apply negb_false_iff, existsb_exists in E.
    destruct E as (y & Hy & Heq). apply String.eqb_eq in Heq. now subst.
Qed.

Lemma assignRows_buckets (layersArray : list string) (index : nat)
    (acc : Layers * TimelineHoverMap) (k : string) :
  Js.get k (snd (assignRows layersArray index acc))
  = if existsb (String.eqb k) layersArray then Some [] else Js.get k (snd acc).
Proof.
  revert index acc. induction layersArray as [|l rest IH]; intros index acc; [reflexivity|].
  simpl. rewrite IH. simpl. destruct (existsb (String.eqb k) rest).
  - now rewrite orb_true_r.
  - rewrite orb_false_r. destruct (String.eqb k l) eqn:E.
    + apply String.eqb_eq in E. subst. apply get_set_same.
    + apply String.eqb_neq in E. now apply get_set_other.
Qed.

(** X30.  [getLayersToDraw] leaves a hover map with an empty bucket for
    every key of the schedule's layer map and no other bucket: what
    earlier draws recorded is dropped, and a layer that only an object
    names has no bucket. *)
Theorem getLayersToDraw_buckets (s : State) (layer : string) :
  let s' := stateOf (getLayersToDraw s) in
  (In layer (Js.keys (layers (resolvedTimeline s))) ->
   Js.get layer (hoveredObjectMap s') = Some [])
  /\ (~ In layer (Js.keys (layers (resolvedTimeline s))) ->
      Js.get layer (hoveredObjectMap s') = None).
Proof.
  simpl.
  assert (Hget : Js.get layer (hoveredObjectMap (stateOf (getLayersToDraw s)))
                 = if existsb (String.eqb layer)
                             (collectLayers (Js.keys (layers (resolvedTimeline s))))
                   then Some [] else None).
  { unfold getLayersToDraw, bind, read, assign, ret, stateOf. simpl.
    pose proof (assignRows_buckets (collectLayers (Js.keys (layers (resolvedTimeline s)))) 0
                  ([], []) layer) as H.
    destruct (assignRows _ 0 ([], [])) as [rows hoverMap]. simpl in *. exact H. }
  rewrite Hget.
  destruct (existsb _ _) eqn:E; split; intro H; try reflexivity; exfalso.
  - apply existsb_exists in E. destruct E as (y & Hy & Heq).
    apply String.eqb_eq in Heq. subst y. unfold collectLayers in Hy.
    apply collect_In in Hy. destruct Hy as [[] | Hy]. contradiction.
  - assert (Hin : In layer (collectLayers (Js.keys (layers (resolvedTimeline s)))))
      by (unfold collectLayers; apply collect_In; now right).
    assert (Htrue : existsb (String.eqb layer)
                      (collectLayers (Js.keys (layers (resolvedTimeline s)))) = true)
      by (apply existsb_exists; exists layer; split; [exact Hin | apply String.eqb_refl]).
    congruence.
Qed.

Lemma getLayersToDraw_buckets_witness :
  Js.get "a" (hoveredObjectMap (stateOf (getLayersToDraw unsortedState))) = Some [].
Proof.
  destruct (getLayersToDraw_buckets unsortedState "a") as [H _]. apply H.
  vm_compute. tauto.
Defined.

(** ** The stored draw state *)

Lemma createStateForObject_frame (s0 s1 : State) layer start end_ :
  s1 = set_hoveredObjectMap (hoveredObjectMap s1) s0 ->
  createStateForObject s1 layer start end_ = createStateForObject s0 layer start end_.
Proof. intro H. rewrite H. reflexivity. Qed.

(** A loop whose callback returns, from every state of an invariant,
    what a pure function gives, returns the fold of that function. *)
Lemma forEachM_pure {A B} (Inv : State -> Prop) (f : B -> A -> M B) (g : B -> A -> B)
    (l : list A) :
  (forall b a s, In a l -> Inv s ->
     exists s' out, f b a s = (Returned (g b a), s', out) /\ Inv s') ->
  forall b s, Inv s ->
    exists s' out, forEachM f l b s = (Returned (fold_left g l b), s', out) /\ Inv s'.
Proof.
  induction l as [|a l IH]; intros Hf b s Hs.
  - exists s, []. now split.
  - destruct (Hf b a s (or_introl eq_refl) Hs) as (s1 & out1 & E1 & H1).
    destruct (IH (fun b0 a0 s0 Hin => Hf b0 a0 s0 (or_intror Hin)) (g b a) s1 H1)
      as (s2 & out2 & E2 & H2).
    exists s2, (out1 ++ out2). split; [|exact H2].
    simpl. unfold bind. rewrite E1, E2. reflexivity.
Qed.

Section PureDrawState.

Variable timeline : ResolvedTimeline.
Variable s0 : State.

Let Inv (s : State) : Prop := onlyHoverMapGrown s0 s /\ layersHaveBuckets timeline s.

(** The entry that one instance writes into the draw state. *)
Let entry (timeObj : ResolvedTimelineObject) (i : TimelineObjectInstance) : string * DrawState :=
  (drawStateName (obj_id timeObj) (inst_id i),
   createStateForObject s0 (obj_layer timeObj) (inst_start i) (inst_end i)).

Let write (acc : TimelineDrawState) (w : string * DrawState) : TimelineDrawState :=
  Js.set (fst w) (snd w) acc.

Let entriesOf (key : string) : list (string * DrawState) :=
  match Js.get key (objects timeline) with
  | Some timeObj => map (entry timeObj) (obj_instances timeObj)
  | None => []
  end.

Lemma drawInstance_pure (key : string) (timeObj : ResolvedTimelineObject)
    (acc : TimelineDrawState) (i : TimelineObjectInstance) (s : State) :
  Js.get key (objects timeline) = Some timeObj ->
  Inv s ->
  exists s' out,
    drawInstance timeObj acc i s = (Returned (write acc (entry timeObj i)), s', out) /\ Inv s'.
Proof.
  intros Hobj [Hg Hb].
  assert (Hc : createStateForObject s (obj_layer timeObj) (inst_start i) (inst_end i)
               = createStateForObject s0 (obj_layer timeObj) (inst_start i) (inst_end i))
    by (apply createStateForObject_frame; exact (proj1 Hg)).
  pose proof (drawInstance_grown s0 timeObj acc i s Hg) as Hgrown.
  assert (Hbuckets : layersHaveBuckets timeline (stateOf (drawInstance timeObj acc i s))).
  { unfold drawInstance, bind, read, stateOf. simpl.
    destruct (ds_visible _); simpl; [|exact Hb].
    unfold pushHover, bind, read, assign, throw. simpl.
    destruct (Js.get (obj_layer timeObj) (hoveredObjectMap s)) as [bucket|] eqn:E; simpl;
      [now apply layersHaveBuckets_push | exact Hb]. }
  assert (Hout : outcomeOf (drawInstance timeObj acc i s)
                 = Returned (write acc (entry timeObj i))).
  { unfold drawInstance, bind, read, outcomeOf. simpl. rewrite Hc.
    destruct (ds_visible _); simpl; [|reflexivity].
    unfold pushHover, bind, read, assign, throw. simpl.
    destruct (Js.get (obj_layer timeObj) (hoveredObjectMap s)) as [bucket|] eqn:E; simpl;
      [reflexivity | exfalso; exact (Hb key timeObj Hobj E)]. }
  destruct (drawInstance timeObj acc i s) as [[o s'] out].
  unfold outcomeOf, stateOf in *. simpl in *. subst o.
  exists s', out. split; [reflexivity | now split].
Qed.

Lemma fold_left_entries (timeObj : ResolvedTimelineObject) (l : list TimelineObjectInstance)
    (acc : TimelineDrawState) :
  fold_left (fun a i => write a (entry timeObj i)) l acc
  = fold_left write (map (entry timeObj) l) acc.
Proof. revert acc. induction l as [|i l IH]; intro acc; [reflexivity | apply IH]. Qed.

Lemma fold_left_entriesOf (keys : list string) (acc : TimelineDrawState) :
  fold_left (fun a key => fold_left write (entriesOf key) a) keys acc
  = fold_left write (flat_map entriesOf keys) acc.
Proof.
  revert acc. induction keys as [|k keys IH]; intro acc; [reflexivity|].
  simpl. rewrite fold_left_app. apply IH.
Qed.

Lemma getTimelineDrawState_pure (s : State) :
  Inv s ->
  exists s' out,
    getTimelineDrawState timeline s
    = (Returned (fold_left write (flat_map entriesOf (Js.keys (objects timeline))) []), s', out)
    /\ Inv s'.
Proof.
  intro Hs. rewrite <- fold_left_entriesOf. unfold getTimelineDrawState.
  apply forEachM_pure; [|exact Hs].
  intros acc key s1 _ H1. unfold entriesOf.
  destruct (Js.get key (objects timeline)) as [timeObj|] eqn:Hobj.
  - rewrite <- fold_left_entries. apply forEachM_pure; [|exact H1].
    intros acc' i s2 _ H2. now apply (drawInstance_pure key).
  - exists s1, []. now split.
Qed.

Lemma write_other (ws : list (string * DrawState)) (acc : TimelineDrawState) (name : string) :
  ~ In name (map fst ws) ->
  Js.get name (fold_left write ws acc) = Js.get name acc.
Proof.
  revert acc. induction ws as [|[n v] ws IH]; intros acc Hn; [reflexivity|].
  simpl in *. rewrite IH by tauto. unfold write. simpl.
  apply get_set_other. intro E. apply Hn. left. now symmetry.
Qed.

Lemma write_last (ws : list (string * DrawState)) (acc : TimelineDrawState)
    (name : string) (state : DrawState) :
  NoDup (map fst ws) -> In (name, state) ws ->
  Js.get name (fold_left write ws acc) = Some state.
Proof.
  revert acc. induction ws as [|[n v] ws IH]; intros acc Hnd Hin; [destruct Hin|].
  simpl in *. inversion Hnd as [|? ? Hnot Hrest]; subst.
  destruct Hin as [E | Hin].
  - inversion E; subst. rewrite write_other by exact Hnot.
    unfold write. simpl. apply get_set_same.
  - now apply IH.
Qed.

Lemma entries_names :
  map fst (flat_map entriesOf (Js.keys (objects timeline))) = drawStateNames timeline.
Proof.
  unfold drawStateNames. induction (Js.keys (objects timeline)) as [|k keys IH];
    [reflexivity|].
  simpl. rewrite map_app, IH. f_equal. unfold entriesOf.
  destruct (Js.get k (objects timeline)); [|reflexivity].
  rewrite map_map. reflexivity.
Qed.

(** From a state in which every object's layer has a bucket,
    [getTimelineDrawState] returns a draw state that holds, under the
    name of every instance, the rectangle computed for it; the names
    are distinct. *)
Lemma getTimelineDrawState_lookup (key : string) (timeObj : ResolvedTimelineObject)
    (i : TimelineObjectInstance) :
  layersHaveBuckets timeline s0 ->
  NoDup (drawStateNames timeline) ->
  Js.get key (objects timeline) = Some timeObj ->
  In i (obj_instances timeObj) ->
  exists state s' out,
    getTimelineDrawState timeline s0 = (Returned state, s', out)
    /\ s' = set_hoveredObjectMap (hoveredObjectMap s') s0
    /\ Js.get (drawStateName (obj_id timeObj) (inst_id i)) state
       = Some (createStateForObject s0 (obj_layer timeObj) (inst_start i) (inst_end i)).
Proof.
  intros Hb Hnd Hobj Hin.
  destruct (getTimelineDrawState_pure s0 (conj (onlyHoverMapGrown_refl s0) Hb))
    as (s' & out & E & [[Heq _] _]).
  eexists. exists s', out. split; [exact E|]. split; [exact Heq|].
  apply write_last; [now rewrite entries_names|].
  apply in_flat_map. exists key. split; [now apply (get_keys _ _ _ Hobj)|].
  unfold entriesOf. rewrite Hobj. now apply (in_map (entry timeObj)).
Qed.

End PureDrawState.

Lemma showOnTimeline_inside (s : State) (start end_ : Q) :
  start < drawTimeEnd s -> drawTimeStart s < end_ -> ~ end_ == 0 ->
  showOnTimeline s start (Some end_) = true.
Proof.
  intros Hlo Hhi Hnz. unfold showOnTimeline, Js.orInfinity. simpl.
  apply truthy_spec in Hnz. rewrite Hnz. simpl.
  apply geb_false in Hlo. apply leb_false in Hhi. now rewrite Hlo, Hhi.
Qed.

Lemma redrawTimeline_cases (s : State) :
  redrawTimeline s = s \/ exists position, redrawTimeline s = set_playHeadPosition position s.
Proof.
  unfold redrawTimeline.
  destruct (computePlayheadPosition_cases s) as [[E _] | [E _]]; rewrite E; simpl; eauto.
Qed.

(** [updateLayerLabels] returns; it leaves the schedule and the window
    alone and a bucket for every layer that the schedule lists. *)
Lemma updateLayerLabels_runs (s : State) :
  exists s1,
    updateLayerLabels s = (Returned tt, s1, [])
    /\ resolvedTimeline s1 = resolvedTimeline s
    /\ drawTimeStart s1 = drawTimeStart s
    /\ drawTimeEnd s1 = drawTimeEnd s
    /\ timelineWidth s1 = timelineWidth s
    /\ (forall layer, In layer (Js.keys (layers (resolvedTimeline s))) ->
                      Js.get layer (hoveredObjectMap s1) <> None).
Proof.
  assert (Hbucket : forall layer,
             In layer (Js.keys (layers (resolvedTimeline s))) ->
             Js.get layer
               (snd (assignRows (collectLayers (Js.keys (layers (resolvedTimeline s)))) 0
                       ([], [])))
             <> None).
  { intros layer Hin. rewrite assignRows_buckets.
    assert (Htrue : existsb (String.eqb layer)
                      (collectLayers (Js.keys (layers (resolvedTimeline s)))) = true).
    { apply existsb_exists. exists layer. split; [|apply String.eqb_refl].
      unfold collectLayers. apply collect_In. now right. }
    rewrite Htrue. discriminate. }
  unfold updateLayerLabels, getLayersToDraw, bind, read, assign, ret. simpl.
  destruct (assignRows _ 0 ([], [])) as [rows hoverMap]. simpl in *.
  destruct (negb (layersEqual (layerLabels s) rows)); simpl;
    eexists; (split; [reflexivity|]); repeat split; exact Hbucket.
Qed.

(** The state that the tail of [updateTimeline] leaves. *)
Lemma refresh_stores (s : State) : storesWidths (stateOf (refresh s)).
Proof.
  destruct (updateLayerLabels_runs s) as (s1 & E1 & Hr1 & Hs1 & He1 & Hw1 & Hb1).
  set (s2 := updateScaledDrawTimeRange s1).
  destruct (getTimelineDrawState (resolvedTimeline s2) s2) as [[o s3] out] eqn:E3.
  assert (Hgrown : s3 = set_hoveredObjectMap (hoveredObjectMap s3) s2).
  { pose proof (getTimelineDrawState_grown (resolvedTimeline s2) s2 s2
                  (onlyHoverMapGrown_refl s2)) as [H _].
    rewrite E3 in H. exact H. }
  assert (F1 : resolvedTimeline s3 = resolvedTimeline s)
    by (rewrite Hgrown; exact Hr1).
  assert (F2 : drawTimeStart s3 = drawTimeStart s1) by (rewrite Hgrown; reflexivity).
  assert (F3 : drawTimeEnd s3 = drawTimeEnd s1) by (rewrite Hgrown; reflexivity).
  assert (F4 : timelineWidth s3 = timelineWidth s1) by (rewrite Hgrown; reflexivity).
  assert (Hfinal : stateOf (refresh s)
                   = match o with
                     | Returned state => redrawTimeline (set_timelineState state s3)
                     | Thrown _ => s3
                     end).
  { unfold refresh. unfold bind at 1. rewrite E1.
    unfold bind at 1, assign at 1. unfold bind at 1, read. fold s2.
    unfold bind at 1. rewrite E3. destruct o as [state|message]; reflexivity. }
  rewrite Hfinal. clear Hfinal.
  assert (Hlookup : forall s',
             resolvedTimeline s' = resolvedTimeline s -> drawTimeStart s' = drawTimeStart s1 ->
             drawTimeEnd s' = drawTimeEnd s1 -> timelineWidth s' = timelineWidth s1 ->
             (forall state, o = Returned state -> timelineState s' = state) ->
             storesWidths s').
  { intros s' G1 G2 G3 G4 G5 Hlisted Hnd H0 key timeObj instance end_ Hget Hin Hend Hlt Hgt.
    rewrite G1 in Hlisted, Hnd, Hget. rewrite G2 in H0, Hgt. rewrite G3 in Hlt.
    unfold pixelsPerUnitTime. rewrite G2, G3, G4.
    assert (Hbuckets : layersHaveBuckets (resolvedTimeline s2) s2).
    { intros k t Hk. apply Hb1. apply (Hlisted k t). rewrite <- Hr1. exact Hk. }
    assert (Hnd2 : NoDup (drawStateNames (resolvedTimeline s2)))
      by (change (resolvedTimeline s2) with (resolvedTimeline s1); now rewrite Hr1).
    assert (Hget2 : Js.get key (objects (resolvedTimeline s2)) = Some timeObj)
      by (change (resolvedTimeline s2) with (resolvedTimeline s1); now rewrite Hr1).
    destruct (getTimelineDrawState_lookup (resolvedTimeline s2) s2 key timeObj instance
                Hbuckets Hnd2 Hget2 Hin) as (state & s3' & out' & E & _ & Hstate).
    rewrite E3 in E. inversion E; subst o s3' out'.
    rewrite (G5 state eq_refl). rewrite Hend in Hstate.
    assert (Hnz : ~ end_ == 0) by lra.
    destruct (createStateForObject_width s2 (obj_layer timeObj) (inst_start instance) end_ Hnz)
      as [Hvisible Hwidth]; [now apply showOnTimeline_inside|].
    eexists. split; [exact Hstate|]. split; [exact Hvisible|]. exact Hwidth. }
  destruct o as [state|message].
  - destruct (redrawTimeline_cases (set_timelineState state s3)) as [R | [position R]];
      rewrite R; apply Hlookup; simpl; try assumption;
      intros state' E; now inversion E.
  - apply Hlookup; try assumption. intros state' E. discriminate E.
Qed.

(** C9, as amended.  In the state that the first and every later
    [updateTimeline] leaves, every instance of the schedule with a
    non-null end that ends after the window starts and starts before
    it ends has a visible rectangle in the stored draw state, and the
    width stored there is
    [(end - max(start, drawTimeStart)) * pixelsPerUnitTime] with
    [pixelsPerUnitTime = timelineWidth / (drawTimeEnd - drawTimeStart)];
    no minimum is applied.  The schedule lists the layers of its
    objects, the names of its instances are distinct and the window
    starts at 0 or later. *)
Theorem stored_width :
  (forall width height optDrawPlayhead now resolve options,
     storesWidths (stateOf (construct width height optDrawPlayhead now resolve options)))
  /\ (forall mergeBlob resolve options s,
        storesWidths (stateOf (updateTimeline mergeBlob resolve options s))).
Proof.
  split.
  - intros. unfold construct. apply refresh_stores.
  - intros mergeBlob resolve options s. unfold updateTimeline.
    rewrite (stateOf_bind_returned read _ s s s [] eq_refl). cbv beta zeta.
    destruct (drawPlayhead s).
    + erewrite stateOf_bind_returned; [apply refresh_stores | reflexivity].
    + erewrite stateOf_bind_returned; [apply refresh_stores | reflexivity].
Qed.

(** The theorem at the first instance of the sample schedule, from 5 to
    15 in the window from 0 to 500 on a timeline of 750 pixels: 15
    pixels. *)
Lemma stored_width_witness :
  exists state,
    Js.get "timelineObject:A:i0" (timelineState sampleState) = Some state
    /\ ds_visible state = true
    /\ ds_width state = (15 - Js.max 5 (drawTimeStart sampleState)) * pixelsPerUnitTime sampleState.
Proof.
  destruct stored_width as [H _].
  apply (H 1000 300 None 1 (fun _ => sampleTimeline) None) with (key := "A")
    (timeObj := sampleObject) (instance := mkInstance "i0" 5 (Some 15)).
  - intros key timeObj Hget. change (Js.get key (objects sampleTimeline) = Some timeObj) in Hget.
    simpl in Hget. destruct (String.eqb key "A"); [|discriminate].
    inversion Hget; subst. left. reflexivity.
  - change (NoDup ["timelineObject:A:i0"; "timelineObject:A:i1"]).
    constructor; [intros [E | []]; discriminate E | constructor; [intros [] | constructor]].
  - qcmp.
  - reflexivity.
  - left. reflexivity.
  - reflexivity.
  - qcmp.
  - qcmp.
Defined.

